(** * LLM Tracker: ingestion pipeline

    A shallow embedding of the ingestion core of the tracker:

    - [Store]: the SQLite store of [desktop-app/database.js] together with
      the tables, constraints and triggers of [database-schema.sql];
    - [Server]: the dispatch of [desktop-app/websocket-server.js];
    - [Host]: the native messaging host ([native-host/host.js]): the
      length-prefixed framing on stdin/stdout, the outbound queue and the
      reconnect logic.

    JavaScript objects are association lists from property names to
    values; a property that is absent reads as [undefined].  Numbers are
    integers ([Z]) and strings are sequences of characters.  SQL NULL is
    [None].  A bound parameter is read through the accessor of its
    column's declared type ([TEXT], [INTEGER]): the store is modelled
    for parameters of the type of their column, and the theorems that
    depend on what a parameter of another type leaves behind say so in
    their hypotheses ([Store.typed_message], [Store.stored_text], ...).
    The clock, the UUID source, SHA-256, JSON and UTF-8 belong to the
    runtime and are parameters. *)

From Stdlib Require Import ZArith NArith List String Ascii Bool Lia.
From Stdlib Require Import Strings.Byte.
Import ListNotations.

#[local] Open Scope string_scope.
#[local] Open Scope list_scope.
#[local] Open Scope Z_scope.

(* ================================================================== *)
(** * JavaScript values *)
(* ================================================================== *)

Module JS.

#[local] Set Warnings "-register-all".
Inductive value : Type :=
| undefined
| null
| Bool (b : bool)
| Num (n : Z)
| Str (s : string)
| Arr (items : list value)
| Obj (props : list (string * value)).

Definition object := list (string * value).

(** [data.k] *)
Fixpoint get (k : string) (o : object) : value :=
  match o with
  | [] => undefined
  | (k', v) :: o' => if String.eqb k k' then v else get k o'
  end.

(** ToBoolean: [undefined], [null], [false], [0] and the empty string
    are falsy. *)
Definition truthy (v : value) : bool :=
  match v with
  | undefined | null => false
  | Bool b => b
  | Num n => negb (n =? 0)
  | Str s => negb (String.eqb s EmptyString)
  | Arr _ | Obj _ => true
  end.

(** [a || b] *)
Definition or (a b : value) : value := if truthy a then a else b.

(** [a !== false] *)
Definition not_false (a : value) : bool :=
  match a with Bool false => false | _ => true end.

(** [c ? 1 : 0] *)
Definition flag (c : bool) : value := if c then Num 1 else Num 0.

(** [a + 1] on the numbers the handlers add. *)
Definition succ (a : value) : value :=
  match a with Num n => Num (n + 1) | _ => undefined end.

(** [length > 0] for a [length] that is a number or a boolean, or is
    missing; a boolean counts as 0 or 1.  A [length] of another type is
    taken as not positive: so it is for [null] and for a plain object,
    while a string or an array that converts to a positive number is
    left out. *)
Definition positive (length : value) : bool :=
  match length with
  | Num n => 0 <? n
  | Bool b => b
  | _ => false
  end.

(** What [for (const prompt of a)] walks under the guard
    [a && a.length > 0]: the elements of an array and the characters of
    a string; nothing when the guard fails, as it does for a number or a
    boolean, which have no [length].  An object that passes the guard is
    not iterable: [None]. *)
Definition items_of (a : value) : option (list value) :=
  match a with
  | Arr l => Some l
  | Str s => Some (map (fun c => Str (String c EmptyString)) (list_ascii_of_string s))
  | Obj props => if positive (get "length" props) then None else Some []
  | _ => Some []
  end.

End JS.

Import JS.

Declare Scope js_scope.
Delimit Scope js_scope with js.
Notation "o .[ k ]" := (JS.get k o) (at level 1, left associativity, format "o .[ k ]").
Notation "a '||' b" := (JS.or a b) (at level 50, left associativity) : js_scope.

(* ================================================================== *)
(** * Exceptions and state *)
(* ================================================================== *)

(** What a call can throw: a [SqliteError] of the driver, by its code,
    or a [TypeError] of the runtime. *)
Inductive Error :=
| SQLITE_CONSTRAINT_NOTNULL (column : string)
| SQLITE_CONSTRAINT_PRIMARYKEY (column : string)
| SQLITE_CONSTRAINT_FOREIGNKEY
| TypeError (message : string).

(** [err.message] *)
Definition message_of (e : Error) : string :=
  match e with
  | SQLITE_CONSTRAINT_NOTNULL c => ("NOT NULL constraint failed: " ++ c)%string
  | SQLITE_CONSTRAINT_PRIMARYKEY c => ("UNIQUE constraint failed: " ++ c)%string
  | SQLITE_CONSTRAINT_FOREIGNKEY => "FOREIGN KEY constraint failed"
  | TypeError m => m
  end.

Inductive outcome (A : Type) :=
| Returns (a : A)
| Throws (e : Error).
Arguments Returns {A} a.
Arguments Throws {A} e.

(** A call runs against a state [S], leaves a state behind and either
    returns or throws; what was written before a throw stays written. *)
Definition ST (S A : Type) : Type := S -> S * outcome A.

Definition ret {S A} (a : A) : ST S A := fun s => (s, Returns a).
Definition throw {S A} (e : Error) : ST S A := fun s => (s, Throws e).
Definition bind {S A B} (m : ST S A) (k : A -> ST S B) : ST S B :=
  fun s =>
    match m s with
    | (s', Returns a) => k a s'
    | (s', Throws e) => (s', Throws e)
    end.

(** [try { body } catch (err) { handler(err) }] *)
Definition try_catch {S A} (body : ST S A) (handler : Error -> ST S A) : ST S A :=
  fun s =>
    match body s with
    | (s', Returns a) => (s', Returns a)
    | (s', Throws e) => handler e s'
    end.

Declare Scope st_scope.
Delimit Scope st_scope with st.
Notation "x <- m ;; k" := (bind m (fun x => k))
  (at level 61, m at next level, right associativity) : st_scope.
Notation "m ;; k" := (bind m (fun _ => k))
  (at level 61, right associativity) : st_scope.

Definition returned {A} (o : outcome A) : bool :=
  match o with Returns _ => true | Throws _ => false end.

(* ================================================================== *)
(** * The store: schema and statements *)
(* ================================================================== *)

Module Store.

(** ** Bound parameters

    [stmt.run(...)] binds [null] and [undefined] as NULL, a string as
    TEXT and a number as REAL; a boolean, an array or an object is a
    TypeError of the driver.  The column's affinity then decides what is
    stored: an INTEGER column stores an integral REAL as that integer
    and a TEXT column stores a string as it is; but a TEXT column also
    turns a number into its decimal text ([5] into ['5.0']), and an
    INTEGER column turns a numeric string into a number.

    [TEXT] and [INTEGER] read what is stored for a parameter of the
    column's type, and NULL for any other; [text_parameter] and
    [integer_parameter] say which parameters those are, and
    [stored_text] is the key a parameter of any type leaves in a TEXT
    column.  The TEXT columns that hold [JSON.stringify(v)] are
    represented by the value [v] whose text they hold. *)

Definition TEXT (v : value) : option string :=
  match v with Str s => Some s | _ => None end.

Definition INTEGER (v : value) : option Z :=
  match v with Num n => Some n | _ => None end.

(** [Number.MAX_SAFE_INTEGER]: up to it, an integer of an INTEGER
    column and the number [stmt.get] returns for it are the same. *)
Definition MAX_SAFE_INTEGER : Z := 2 ^ 53 - 1.

(** The parameters a TEXT column stores as [TEXT] reads them: a string,
    [null] or [undefined]. *)
Definition text_parameter (v : value) : bool :=
  match v with
  | Str _ | null | undefined => true
  | _ => false
  end.

(** The parameters an INTEGER (or REAL) column stores as [INTEGER]
    reads them: a safe integer, [null] or [undefined]. *)
Definition integer_parameter (v : value) : bool :=
  match v with
  | Num n => Z.abs n <=? MAX_SAFE_INTEGER
  | null | undefined => true
  | _ => false
  end.

(** The key a parameter leaves in a TEXT column, whatever its type:
    the string itself, or the text [real_to_text n] that SQLite makes of
    the REAL a number [n] is bound as; nothing for a parameter bound as
    NULL or not bound at all.  The conversion is SQLite's and is left
    open: a theorem about a key that is not stored assumes so for every
    [real_to_text]. *)
Definition stored_text (real_to_text : Z -> string) (v : value) : option string :=
  match v with
  | Str s => Some s
  | Num n => Some (real_to_text n)
  | _ => None
  end.

Definition JSON_stringify (v : value) : option value := Some v.

(** [COALESCE(x, d)] *)
Definition COALESCE (x : option Z) (d : Z) : Z :=
  match x with Some v => v | None => d end.

(** [x + y] in SQL: NULL is absorbing. *)
Definition sql_add (x : option Z) (y : Z) : option Z := option_map (fun v => v + y) x.

(** [(strftime('%s', 'now') * 1000)] at wall-clock time [now] (ms). *)
Definition strftime_ms (now : Z) : Z := (now / 1000) * 1000.

(** Equality of two keys in a uniqueness or reference check: NULL never
    equals anything. *)
Definition key_eqb (a b : option string) : bool :=
  match a, b with
  | Some x, Some y => String.eqb x y
  | _, _ => false
  end.

(** ** Rows: the columns the statements write, with their defaults *)

Module Conversation.
Record row := mk {
  id : option string;                        (* TEXT PRIMARY KEY *)
  platform : option string;                  (* TEXT NOT NULL *)
  platform_conversation_id : option string;
  title : option string;
  started_at : option Z;                     (* INTEGER NOT NULL *)
  last_activity : option Z;                  (* INTEGER NOT NULL *)
  message_count : option Z;                  (* DEFAULT 0 *)
  total_tokens : option Z;                   (* DEFAULT 0 *)
  total_cost : option Z;                     (* DEFAULT 0.0 *)
  model_used : option string;
  status : option string;                    (* DEFAULT 'active' *)
  metadata : option value;                   (* JSON text *)
  created_at : option Z;
  updated_at : option Z
}.
End Conversation.

Module Message.
Record row := mk {
  id : option string;                        (* TEXT PRIMARY KEY *)
  conversation_id : option string;           (* TEXT NOT NULL, REFERENCES conversations(id) *)
  timestamp : option Z;                      (* INTEGER NOT NULL *)
  role : option string;                      (* TEXT NOT NULL *)
  visible_content : option string;           (* TEXT NOT NULL *)
  visible_to_user : option Z;
  message_position : option Z;
  is_edited : option Z;
  is_regenerated : option Z;
  tokens_prompt : option Z;
  tokens_completion : option Z;
  tokens_total : option Z;
  time_to_first_token_ms : option Z;
  total_generation_time_ms : option Z;
  attachments : option value;                (* JSON text *)
  created_at : option Z
}.
End Message.

Module ApiCapture.
Record row := mk {
  id : option string;                        (* TEXT PRIMARY KEY *)
  message_id : option string;                (* TEXT NOT NULL, REFERENCES messages(id) *)
  timestamp : option Z;                      (* INTEGER NOT NULL *)
  request_url : option string;               (* TEXT NOT NULL *)
  request_method : option string;
  request_headers : option value;
  request_body : option value;
  response_status : option Z;
  response_headers : option value;
  response_body : option value;
  raw_response : option string;
  model : option string;
  temperature : option Z;
  max_tokens : option Z;
  is_streaming : option Z;
  platform : option string;
  created_at : option Z
}.
End ApiCapture.

Module SystemPrompt.
Record row := mk {
  id : option string;                        (* TEXT PRIMARY KEY *)
  platform : option string;                  (* TEXT NOT NULL *)
  prompt_text : option string;               (* TEXT NOT NULL *)
  prompt_hash : option string;               (* TEXT UNIQUE NOT NULL *)
  first_seen : option Z;                     (* INTEGER NOT NULL *)
  last_seen : option Z;                      (* INTEGER NOT NULL *)
  occurrence_count : option Z;               (* DEFAULT 1 *)
  conversation_ids : option value;           (* JSON text *)
  created_at : option Z;
  updated_at : option Z
}.
End SystemPrompt.

Module StreamingChunk.
Record row := mk {
  id : option string;                        (* TEXT PRIMARY KEY *)
  message_id : option string;                (* TEXT NOT NULL, REFERENCES messages(id) *)
  api_capture_id : option string;            (* REFERENCES api_captures(id) *)
  chunk_index : option Z;                    (* INTEGER NOT NULL *)
  timestamp : option Z;                      (* INTEGER NOT NULL *)
  delta_time_ms : option Z;
  content : option string
}.
End StreamingChunk.

(** ** The database

    Tables are lists of rows in insertion order.  [foreign_keys] is the
    connection's [PRAGMA foreign_keys]; [init] never sets it, so it keeps
    the default of the SQLite build that better-sqlite3 bundles
    ([SQLITE_DEFAULT_FOREIGN_KEYS=1]). *)

Record Database := mkDatabase {
  conversations : list Conversation.row;
  messages : list Message.row;
  api_captures : list ApiCapture.row;
  system_prompts : list SystemPrompt.row;
  streaming_chunks : list StreamingChunk.row;
  foreign_keys : bool
}.

Definition SQLITE_DEFAULT_FOREIGN_KEYS : bool := true.

(** [init()] on a fresh file: the schema creates the empty tables. *)
Definition init : Database :=
  mkDatabase [] [] [] [] [] SQLITE_DEFAULT_FOREIGN_KEYS.

(** A statement runs against the database; one that throws leaves the
    database as it found it. *)
Definition M (A : Type) : Type := ST Database A.

(** Constraint checks of one statement, in order; the first that fails
    aborts the statement. *)
Definition not_null {A} (column : string) (x : option A) : option Error :=
  match x with Some _ => None | None => Some (SQLITE_CONSTRAINT_NOTNULL column) end.

Fixpoint first_error (checks : list (option Error)) : option Error :=
  match checks with
  | [] => None
  | Some e :: _ => Some e
  | None :: rest => first_error rest
  end.

(** [UPDATE t SET ... WHERE p] *)
Definition update_where {R} (p : R -> bool) (f : R -> R) (t : list R) : list R :=
  map (fun r => if p r then f r else r) t.

(** [SELECT * FROM t WHERE p] with [stmt.get]: the first matching row. *)
Definition select_first {R} (p : R -> bool) (t : list R) : option R := find p t.


Definition with_conversations (t : list Conversation.row) (db : Database) : Database :=
  mkDatabase t (messages db) (api_captures db) (system_prompts db)
             (streaming_chunks db) (foreign_keys db).
Definition with_messages (t : list Message.row) (db : Database) : Database :=
  mkDatabase (conversations db) t (api_captures db) (system_prompts db)
             (streaming_chunks db) (foreign_keys db).
Definition with_api_captures (t : list ApiCapture.row) (db : Database) : Database :=
  mkDatabase (conversations db) (messages db) t (system_prompts db)
             (streaming_chunks db) (foreign_keys db).
Definition with_system_prompts (t : list SystemPrompt.row) (db : Database) : Database :=
  mkDatabase (conversations db) (messages db) (api_captures db) t
             (streaming_chunks db) (foreign_keys db).
Definition with_streaming_chunks (t : list StreamingChunk.row) (db : Database) : Database :=
  mkDatabase (conversations db) (messages db) (api_captures db) (system_prompts db)
             t (foreign_keys db).

(** A reference to [parent(id)] holds when enforcement is off, or some
    parent row carries the key. *)
Definition references {R} (db : Database) (parent : list R) (pk : R -> option string)
    (k : option string) : bool :=
  negb (foreign_keys db) || existsb (fun r => key_eqb (pk r) k) parent.

(* ------------------------------------------------------------------ *)
(** ** conversations *)

(** The [DO UPDATE SET] of the conversation upsert: the four assigned
    columns come from the excluded row. *)
Definition conversation_do_update (excluded c : Conversation.row) : Conversation.row :=
  {| Conversation.id := Conversation.id c;
     Conversation.platform := Conversation.platform c;
     Conversation.platform_conversation_id := Conversation.platform_conversation_id c;
     Conversation.title := Conversation.title c;
     Conversation.started_at := Conversation.started_at c;
     Conversation.last_activity := Conversation.last_activity excluded;
     Conversation.message_count := Conversation.message_count excluded;
     Conversation.total_tokens := Conversation.total_tokens excluded;
     Conversation.total_cost := Conversation.total_cost c;
     Conversation.model_used := Conversation.model_used c;
     Conversation.status := Conversation.status c;
     Conversation.metadata := Conversation.metadata excluded;
     Conversation.created_at := Conversation.created_at c;
     Conversation.updated_at := Conversation.updated_at c |}.

(** [INSERT INTO conversations (...) VALUES (...) ON CONFLICT(id) DO UPDATE
    SET last_activity = excluded.last_activity, message_count = ...,
    total_tokens = ..., metadata = ...].  The NOT NULL constraints are
    checked on the proposed row before the conflict is looked for: the
    upsert clause only takes over uniqueness conflicts. *)
Definition conversations_upsert (excluded : Conversation.row) : M unit :=
  fun db =>
    match first_error
            [ not_null "conversations.platform" (Conversation.platform excluded);
              not_null "conversations.started_at" (Conversation.started_at excluded);
              not_null "conversations.last_activity" (Conversation.last_activity excluded) ]
    with
    | Some e => (db, Throws e)
    | None =>
        let conflict c := key_eqb (Conversation.id c) (Conversation.id excluded) in
        if existsb conflict (conversations db)
        then (with_conversations
                (update_where conflict (conversation_do_update excluded) (conversations db)) db,
              Returns tt)
        else (with_conversations (conversations db ++ [excluded]) db, Returns tt)
    end.

(** [upsertConversation(data)] at wall-clock time [now]. *)
Definition upsertConversation (now : Z) (data : object) : M unit :=
  conversations_upsert
    {| Conversation.id := TEXT data.["id"];
       Conversation.platform := TEXT data.["platform"];
       Conversation.platform_conversation_id :=
         TEXT (data.["platform_conversation_id"] || data.["conversation_id"] || null)%js;
       Conversation.started_at := INTEGER data.["started_at"];
       Conversation.last_activity := INTEGER data.["last_activity"];
       Conversation.title := TEXT (data.["title"] || null)%js;
       Conversation.message_count := INTEGER (data.["message_count"] || Num 0)%js;
       Conversation.total_tokens := INTEGER (data.["total_tokens"] || Num 0)%js;
       Conversation.model_used := TEXT (data.["model_used"] || null)%js;
       Conversation.metadata := JSON_stringify (data.["metadata"] || Obj [])%js;
       (* column defaults *)
       Conversation.total_cost := Some 0;
       Conversation.status := Some "active";
       Conversation.created_at := Some (strftime_ms now);
       Conversation.updated_at := Some (strftime_ms now) |}.

(** The calls of [upsertConversation] whose parameters have the type of
    their column. *)
Definition typed_conversation (data : object) : bool :=
  text_parameter data.["id"]
  && text_parameter data.["platform"]
  && text_parameter (data.["platform_conversation_id"] || data.["conversation_id"] || null)%js
  && integer_parameter data.["started_at"]
  && integer_parameter data.["last_activity"]
  && text_parameter (data.["title"] || null)%js
  && integer_parameter (data.["message_count"] || Num 0)%js
  && integer_parameter (data.["total_tokens"] || Num 0)%js
  && text_parameter (data.["model_used"] || null)%js.

(** The columns of a conversation row that the upsert's [DO UPDATE]
    does not assign. *)
Definition same_unassigned_columns (c c' : Conversation.row) : Prop :=
  Conversation.id c' = Conversation.id c
  /\ Conversation.platform c' = Conversation.platform c
  /\ Conversation.platform_conversation_id c' = Conversation.platform_conversation_id c
  /\ Conversation.title c' = Conversation.title c
  /\ Conversation.started_at c' = Conversation.started_at c
  /\ Conversation.total_cost c' = Conversation.total_cost c
  /\ Conversation.model_used c' = Conversation.model_used c
  /\ Conversation.status c' = Conversation.status c
  /\ Conversation.created_at c' = Conversation.created_at c
  /\ Conversation.updated_at c' = Conversation.updated_at c.

(** [getConversation(id)] *)
Definition getConversation (id : string) (db : Database) : option Conversation.row :=
  select_first (fun c => key_eqb (Conversation.id c) (Some id)) (conversations db).

(* ------------------------------------------------------------------ *)
(** ** messages *)

(** The [SET] of trigger [update_conversation_stats]. *)
Definition conversation_stats_set (now : Z) (NEW : Message.row) (c : Conversation.row)
    : Conversation.row :=
  {| Conversation.id := Conversation.id c;
     Conversation.platform := Conversation.platform c;
     Conversation.platform_conversation_id := Conversation.platform_conversation_id c;
     Conversation.title := Conversation.title c;
     Conversation.started_at := Conversation.started_at c;
     Conversation.last_activity := Message.timestamp NEW;
     Conversation.message_count := sql_add (Conversation.message_count c) 1;
     Conversation.total_tokens :=
       sql_add (Conversation.total_tokens c) (COALESCE (Message.tokens_total NEW) 0);
     Conversation.total_cost := Conversation.total_cost c;
     Conversation.model_used := Conversation.model_used c;
     Conversation.status := Conversation.status c;
     Conversation.metadata := Conversation.metadata c;
     Conversation.created_at := Conversation.created_at c;
     Conversation.updated_at := Some (strftime_ms now) |}.

(** [CREATE TRIGGER update_conversation_stats AFTER INSERT ON messages]:
    [UPDATE conversations SET ... WHERE id = NEW.conversation_id]. *)
Definition update_conversation_stats (now : Z) (NEW : Message.row)
    (t : list Conversation.row) : list Conversation.row :=
  update_where (fun c => key_eqb (Conversation.id c) (Message.conversation_id NEW))
               (conversation_stats_set now NEW) t.

(** [INSERT INTO messages (...) VALUES (...)]: the row insert and the
    trigger run inside the one statement. *)
Definition messages_insert (now : Z) (NEW : Message.row) : M unit :=
  fun db =>
    match first_error
            [ not_null "messages.conversation_id" (Message.conversation_id NEW);
              not_null "messages.timestamp" (Message.timestamp NEW);
              not_null "messages.role" (Message.role NEW);
              not_null "messages.visible_content" (Message.visible_content NEW) ]
    with
    | Some e => (db, Throws e)
    | None =>
        if existsb (fun m => key_eqb (Message.id m) (Message.id NEW)) (messages db)
        then (db, Throws (SQLITE_CONSTRAINT_PRIMARYKEY "messages.id"))
        else if references db (conversations db) Conversation.id (Message.conversation_id NEW)
        then (with_conversations (update_conversation_stats now NEW (conversations db))
                (with_messages (messages db ++ [NEW]) db),
              Returns tt)
        else (db, Throws SQLITE_CONSTRAINT_FOREIGNKEY)
    end.

(** The values [insertMessage(data)] binds, with the column default. *)
Definition message_values (now : Z) (data : object) : Message.row :=
    {| Message.id := TEXT data.["id"];
       Message.conversation_id := TEXT data.["conversation_id"];
       Message.timestamp := INTEGER data.["timestamp"];
       Message.role := TEXT data.["role"];
       Message.visible_content := TEXT (data.["content"] || data.["visible_content"])%js;
       Message.visible_to_user := INTEGER (flag (not_false data.["visible_to_user"]));
       Message.message_position := INTEGER (data.["message_position"] || null)%js;
       Message.is_edited := INTEGER (flag (truthy (data.["edited"] || data.["is_edited"])%js));
       Message.is_regenerated :=
         INTEGER (flag (truthy (data.["regenerated"] || data.["is_regenerated"])%js));
       Message.tokens_prompt := INTEGER (data.["tokens_prompt"] || null)%js;
       Message.tokens_completion := INTEGER (data.["tokens_completion"] || null)%js;
       Message.tokens_total := INTEGER (data.["tokens_total"] || null)%js;
       Message.time_to_first_token_ms := INTEGER (data.["time_to_first_token_ms"] || null)%js;
       Message.total_generation_time_ms :=
         INTEGER (data.["total_generation_time_ms"] || null)%js;
       Message.attachments := JSON_stringify (data.["attachments"] || Arr [])%js;
       (* column default *)
       Message.created_at := Some (strftime_ms now) |}.

(** [insertMessage(data)] *)
Definition insertMessage (now : Z) (data : object) : M unit :=
  messages_insert now (message_values now data).

(** The calls of [insertMessage] whose parameters have the type of
    their column (the three flags are numbers whatever [data] holds). *)
Definition typed_message (data : object) : bool :=
  text_parameter data.["id"]
  && text_parameter data.["conversation_id"]
  && integer_parameter data.["timestamp"]
  && text_parameter data.["role"]
  && text_parameter (data.["content"] || data.["visible_content"])%js
  && integer_parameter (data.["message_position"] || null)%js
  && integer_parameter (data.["tokens_prompt"] || null)%js
  && integer_parameter (data.["tokens_completion"] || null)%js
  && integer_parameter (data.["tokens_total"] || null)%js
  && integer_parameter (data.["time_to_first_token_ms"] || null)%js
  && integer_parameter (data.["total_generation_time_ms"] || null)%js.

(** The most a sequence of [insertMessage] calls can move
    [total_tokens], up or down. *)
Definition tokens_bound (calls : list (Z * object)) : Z :=
  fold_right
    (fun call bound =>
       Z.abs (COALESCE (INTEGER ((snd call).["tokens_total"] || null)%js) 0) + bound)
    0 calls.

(** [getMessages(conversationId)], before the [ORDER BY]. *)
Definition messages_of (conversationId : string) (db : Database) : list Message.row :=
  filter (fun m => key_eqb (Message.conversation_id m) (Some conversationId)) (messages db).

(* ------------------------------------------------------------------ *)
(** ** api_captures *)

(** [INSERT INTO api_captures (...) VALUES (...)] *)
Definition api_captures_insert (NEW : ApiCapture.row) : M unit :=
  fun db =>
    match first_error
            [ not_null "api_captures.message_id" (ApiCapture.message_id NEW);
              not_null "api_captures.timestamp" (ApiCapture.timestamp NEW);
              not_null "api_captures.request_url" (ApiCapture.request_url NEW) ]
    with
    | Some e => (db, Throws e)
    | None =>
        if existsb (fun c => key_eqb (ApiCapture.id c) (ApiCapture.id NEW)) (api_captures db)
        then (db, Throws (SQLITE_CONSTRAINT_PRIMARYKEY "api_captures.id"))
        else if references db (messages db) Message.id (ApiCapture.message_id NEW)
        then (with_api_captures (api_captures db ++ [NEW]) db, Returns tt)
        else (db, Throws SQLITE_CONSTRAINT_FOREIGNKEY)
    end.

(** [insertApiCapture(data)] *)
Definition insertApiCapture (now : Z) (data : object) : M unit :=
  api_captures_insert
    {| ApiCapture.id := TEXT data.["id"];
       ApiCapture.message_id := TEXT data.["message_id"];
       ApiCapture.timestamp := INTEGER data.["timestamp"];
       ApiCapture.request_url := TEXT (data.["request_url"] || null)%js;
       ApiCapture.request_method := TEXT (data.["request_method"] || null)%js;
       ApiCapture.request_headers := JSON_stringify (data.["request_headers"] || Obj [])%js;
       ApiCapture.request_body := JSON_stringify (data.["request_body"] || Obj [])%js;
       ApiCapture.response_status := INTEGER (data.["response_status"] || null)%js;
       ApiCapture.response_headers := JSON_stringify (data.["response_headers"] || Obj [])%js;
       ApiCapture.response_body := JSON_stringify (data.["response_body"] || Obj [])%js;
       ApiCapture.raw_response := TEXT (data.["raw_response"] || null)%js;
       ApiCapture.model := TEXT (data.["model"] || null)%js;
       ApiCapture.temperature := INTEGER (data.["temperature"] || null)%js;
       ApiCapture.max_tokens := INTEGER (data.["max_tokens"] || null)%js;
       ApiCapture.is_streaming :=
         INTEGER (flag (truthy (data.["stream"] || data.["is_streaming"])%js));
       ApiCapture.platform := TEXT (data.["platform"] || null)%js;
       (* column default *)
       ApiCapture.created_at := Some (strftime_ms now) |}.

(** The calls of [insertApiCapture] whose parameters have the type of
    their column. *)
Definition typed_capture (data : object) : bool :=
  text_parameter data.["id"]
  && text_parameter data.["message_id"]
  && integer_parameter data.["timestamp"]
  && text_parameter (data.["request_url"] || null)%js
  && text_parameter (data.["request_method"] || null)%js
  && integer_parameter (data.["response_status"] || null)%js
  && text_parameter (data.["raw_response"] || null)%js
  && text_parameter (data.["model"] || null)%js
  && integer_parameter (data.["temperature"] || null)%js
  && integer_parameter (data.["max_tokens"] || null)%js
  && text_parameter (data.["platform"] || null)%js.

(** [getApiCapture(messageId)] *)
Definition getApiCapture (messageId : string) (db : Database) : option ApiCapture.row :=
  select_first (fun c => key_eqb (ApiCapture.message_id c) (Some messageId)) (api_captures db).

(* ------------------------------------------------------------------ *)
(** ** system_prompts *)

(** [a != b] in SQL: NULL when either side is NULL, which a WHERE takes
    as false. *)
Definition key_neqb (a b : option string) : bool :=
  match a, b with
  | Some x, Some y => negb (String.eqb x y)
  | _, _ => false
  end.

(** The [DO UPDATE SET] of the prompt upsert. *)
Definition system_prompt_do_update (excluded r : SystemPrompt.row) : SystemPrompt.row :=
  {| SystemPrompt.id := SystemPrompt.id r;
     SystemPrompt.platform := SystemPrompt.platform r;
     SystemPrompt.prompt_text := SystemPrompt.prompt_text r;
     SystemPrompt.prompt_hash := SystemPrompt.prompt_hash r;
     SystemPrompt.first_seen := SystemPrompt.first_seen r;
     SystemPrompt.last_seen := SystemPrompt.last_seen excluded;
     SystemPrompt.occurrence_count := sql_add (SystemPrompt.occurrence_count r) 1;
     SystemPrompt.conversation_ids := SystemPrompt.conversation_ids r;
     SystemPrompt.created_at := SystemPrompt.created_at r;
     SystemPrompt.updated_at := SystemPrompt.updated_at r |}.

(** The [SET] of trigger [update_system_prompt_occurrence]. *)
Definition system_prompt_occurrence_set (now : Z) (NEW r : SystemPrompt.row)
    : SystemPrompt.row :=
  {| SystemPrompt.id := SystemPrompt.id r;
     SystemPrompt.platform := SystemPrompt.platform r;
     SystemPrompt.prompt_text := SystemPrompt.prompt_text r;
     SystemPrompt.prompt_hash := SystemPrompt.prompt_hash r;
     SystemPrompt.first_seen := SystemPrompt.first_seen r;
     SystemPrompt.last_seen := SystemPrompt.last_seen NEW;
     SystemPrompt.occurrence_count := sql_add (SystemPrompt.occurrence_count r) 1;
     SystemPrompt.conversation_ids := SystemPrompt.conversation_ids r;
     SystemPrompt.created_at := SystemPrompt.created_at r;
     SystemPrompt.updated_at := Some (strftime_ms now) |}.

(** [CREATE TRIGGER update_system_prompt_occurrence AFTER INSERT ON
    system_prompts]: [UPDATE system_prompts SET ... WHERE prompt_hash =
    NEW.prompt_hash AND id != NEW.id]. *)
Definition update_system_prompt_occurrence (now : Z) (NEW : SystemPrompt.row)
    (t : list SystemPrompt.row) : list SystemPrompt.row :=
  update_where
    (fun r => key_eqb (SystemPrompt.prompt_hash r) (SystemPrompt.prompt_hash NEW)
              && key_neqb (SystemPrompt.id r) (SystemPrompt.id NEW))
    (system_prompt_occurrence_set now NEW) t.

(** [INSERT INTO system_prompts (...) VALUES (...) ON CONFLICT(prompt_hash)
    DO UPDATE SET last_seen = excluded.last_seen, occurrence_count =
    occurrence_count + 1].  The conflict target is looked at before the
    primary key; the AFTER INSERT trigger fires only when a row was
    inserted. *)
Definition system_prompts_upsert (now : Z) (excluded : SystemPrompt.row) : M unit :=
  fun db =>
    match first_error
            [ not_null "system_prompts.platform" (SystemPrompt.platform excluded);
              not_null "system_prompts.prompt_text" (SystemPrompt.prompt_text excluded);
              not_null "system_prompts.prompt_hash" (SystemPrompt.prompt_hash excluded);
              not_null "system_prompts.first_seen" (SystemPrompt.first_seen excluded);
              not_null "system_prompts.last_seen" (SystemPrompt.last_seen excluded) ]
    with
    | Some e => (db, Throws e)
    | None =>
        let conflict r :=
          key_eqb (SystemPrompt.prompt_hash r) (SystemPrompt.prompt_hash excluded) in
        if existsb conflict (system_prompts db)
        then (with_system_prompts
                (update_where conflict (system_prompt_do_update excluded) (system_prompts db))
                db,
              Returns tt)
        else if existsb (fun r => key_eqb (SystemPrompt.id r) (SystemPrompt.id excluded))
                        (system_prompts db)
        then (db, Throws (SQLITE_CONSTRAINT_PRIMARYKEY "system_prompts.id"))
        else (with_system_prompts
                (update_system_prompt_occurrence now excluded
                   (system_prompts db ++ [excluded]))
                db,
              Returns tt)
    end.

Section Hash.

(** [crypto.createHash('sha256').update(s).digest('hex')] *)
Variable sha256 : string -> string.

(** The values [upsertSystemPrompt(data)] binds for a prompt text, at
wall-clock time [now], where [crypto.randomUUID()] yields [uuid]. *)
Definition system_prompt_values (now : Z) (uuid : string) (data : object)
    (prompt_text : string) : SystemPrompt.row :=
  let hash := sha256 prompt_text in
  let id := (data.["id"] || Str uuid)%js in
  {| SystemPrompt.id := TEXT id;
     SystemPrompt.platform := TEXT data.["platform"];
     SystemPrompt.prompt_text := TEXT (Str prompt_text);
     SystemPrompt.first_seen := INTEGER (data.["first_seen"] || Num now)%js;
     SystemPrompt.last_seen := INTEGER (data.["last_seen"] || Num now)%js;
     SystemPrompt.occurrence_count := INTEGER (Num 1);
     SystemPrompt.prompt_hash := Some hash;
     SystemPrompt.conversation_ids :=
       JSON_stringify (data.["conversation_ids"] || Arr [])%js;
     (* column defaults *)
     SystemPrompt.created_at := Some (strftime_ms now);
     SystemPrompt.updated_at := Some (strftime_ms now) |}.

(** [upsertSystemPrompt(data)].  Hashing anything but a string throws
    (a TypeError whose text, which goes on to describe the value
    received, is cut short here). *)
Definition upsertSystemPrompt (now : Z) (uuid : string) (data : object) : M unit :=
  match data.["prompt_text"] with
  | Str prompt_text =>
      system_prompts_upsert now (system_prompt_values now uuid data prompt_text)
  | _ => throw (TypeError "The data argument must be of type string")
  end.

(** One call of a sequence: the time of the call, the UUID it would
draw, and its argument. *)
Definition upsert_call (call : Z * string * object) : M unit :=
  let '(now, uuid, data) := call in upsertSystemPrompt now uuid data.

(** A call observes [text] when [text] is its prompt, it supplies what
the NOT NULL columns need (a platform, and times that are numbers where
it gives them), and its id and its times have the type of their
column. *)
Definition observes (text : string) (call : Z * string * object) : Prop :=
  let '(now, uuid, data) := call in
  data.["prompt_text"] = Str text
  /\ TEXT data.["platform"] <> None
  /\ INTEGER (data.["first_seen"] || Num now)%js <> None
  /\ INTEGER (data.["last_seen"] || Num now)%js <> None
  /\ text_parameter (data.["id"] || Str uuid)%js = true
  /\ integer_parameter (data.["first_seen"] || Num now)%js = true
  /\ integer_parameter (data.["last_seen"] || Num now)%js = true.

(** The row such a call proposes. *)
Definition proposes (text : string) (call : Z * string * object) : SystemPrompt.row :=
  let '(now, uuid, data) := call in system_prompt_values now uuid data text.

(** The rows [getSystemPrompts] would list for one hash. *)
Definition prompts_with_hash (hash : string) (db : Database) : list SystemPrompt.row :=
  filter (fun r => key_eqb (SystemPrompt.prompt_hash r) (Some hash)) (system_prompts db).

End Hash.

(* ------------------------------------------------------------------ *)
(** ** streaming_chunks *)

(** [INSERT INTO streaming_chunks (...) VALUES (...)] *)
Definition streaming_chunks_insert (NEW : StreamingChunk.row) : M unit :=
  fun db =>
    match first_error
            [ not_null "streaming_chunks.message_id" (StreamingChunk.message_id NEW);
              not_null "streaming_chunks.chunk_index" (StreamingChunk.chunk_index NEW);
              not_null "streaming_chunks.timestamp" (StreamingChunk.timestamp NEW) ]
    with
    | Some e => (db, Throws e)
    | None =>
        if existsb (fun c => key_eqb (StreamingChunk.id c) (StreamingChunk.id NEW))
                   (streaming_chunks db)
        then (db, Throws (SQLITE_CONSTRAINT_PRIMARYKEY "streaming_chunks.id"))
        else if references db (messages db) Message.id (StreamingChunk.message_id NEW)
        then (with_streaming_chunks (streaming_chunks db ++ [NEW]) db, Returns tt)
        else (db, Throws SQLITE_CONSTRAINT_FOREIGNKEY)
    end.

(** [insertStreamingChunk(data)] *)
Definition insertStreamingChunk (data : object) : M unit :=
  streaming_chunks_insert
    {| StreamingChunk.id := TEXT data.["id"];
       StreamingChunk.message_id := TEXT data.["message_id"];
       StreamingChunk.chunk_index := INTEGER data.["chunk_index"];
       StreamingChunk.timestamp := INTEGER data.["timestamp"];
       StreamingChunk.content := TEXT (data.["content"] || null)%js;
       StreamingChunk.delta_time_ms := INTEGER (data.["delta_time_ms"] || null)%js;
       StreamingChunk.api_capture_id := None |}.

(** A caller that issues the calls [ops] one after the other and catches
    what each throws: the database after the last call and the outcome
    of each. *)
Fixpoint run_calls {A} (ops : list (M A)) (db : Database) : Database * list (outcome A) :=
  match ops with
  | [] => (db, [])
  | op :: rest =>
      let '(db1, o) := op db in
      let '(db2, os) := run_calls rest db1 in
      (db2, o :: os)
  end.

(** The calls of a sequence that returned. *)
Fixpoint accepted {A B} (calls : list A) (outs : list (outcome B)) : list A :=
  match calls, outs with
  | call :: calls, o :: outs =>
      if returned o then call :: accepted calls outs else accepted calls outs
  | _, _ => []
  end.

(** [SUM(x)] with [COALESCE(x, 0)] for each row. *)
Definition sum_of (xs : list (option Z)) : Z :=
  fold_right (fun x acc => COALESCE x 0 + acc) 0 xs.

(* ------------------------------------------------------------------ *)
(** ** Calls of the store *)

(** A call of one of the five operations that write, with what it reads
    from the runtime: the clock, and the UUID it would draw. *)
Inductive Call :=
| UpsertConversation (now : Z) (data : object)
| InsertMessage (now : Z) (data : object)
| InsertApiCapture (now : Z) (data : object)
| UpsertSystemPrompt (now : Z) (uuid : string) (data : object)
| InsertStreamingChunk (data : object).

Definition call (sha256 : string -> string) (c : Call) : M unit :=
  match c with
  | UpsertConversation now data => upsertConversation now data
  | InsertMessage now data => insertMessage now data
  | InsertApiCapture now data => insertApiCapture now data
  | UpsertSystemPrompt now uuid data => upsertSystemPrompt sha256 now uuid data
  | InsertStreamingChunk data => insertStreamingChunk data
  end.

(* ------------------------------------------------------------------ *)
(** ** What the schema's constraints say of a database *)

(** [NOT NULL]: the columns declared so hold a value in every row. *)
Definition not_null_columns (db : Database) : Prop :=
  Forall (fun c => Conversation.platform c <> None
                   /\ Conversation.started_at c <> None
                   /\ Conversation.last_activity c <> None)
         (conversations db)
  /\ Forall (fun m => Message.conversation_id m <> None
                      /\ Message.timestamp m <> None
                      /\ Message.role m <> None
                      /\ Message.visible_content m <> None)
            (messages db)
  /\ Forall (fun c => ApiCapture.message_id c <> None
                      /\ ApiCapture.timestamp c <> None
                      /\ ApiCapture.request_url c <> None)
            (api_captures db)
  /\ Forall (fun p => SystemPrompt.platform p <> None
                      /\ SystemPrompt.prompt_text p <> None
                      /\ SystemPrompt.prompt_hash p <> None
                      /\ SystemPrompt.first_seen p <> None
                      /\ SystemPrompt.last_seen p <> None)
            (system_prompts db)
  /\ Forall (fun s => StreamingChunk.message_id s <> None
                      /\ StreamingChunk.chunk_index s <> None
                      /\ StreamingChunk.timestamp s <> None)
            (streaming_chunks db).

(** The keys a table holds in a column, NULLs apart. *)
Definition keys {R} (key : R -> option string) (t : list R) : list string :=
  flat_map (fun r => match key r with Some k => [k] | None => [] end) t.

(** [PRIMARY KEY] on the five [id] columns and [UNIQUE] on
    [system_prompts.prompt_hash]: no table holds a key twice. *)
Definition unique_keys (db : Database) : Prop :=
  NoDup (keys Conversation.id (conversations db))
  /\ NoDup (keys Message.id (messages db))
  /\ NoDup (keys ApiCapture.id (api_captures db))
  /\ NoDup (keys SystemPrompt.id (system_prompts db))
  /\ NoDup (keys SystemPrompt.prompt_hash (system_prompts db))
  /\ NoDup (keys StreamingChunk.id (streaming_chunks db)).

(** Some row of [parent] carries the key [k]. *)
Definition stored {R} (parent : list R) (pk : R -> option string) (k : option string) : Prop :=
  existsb (fun r => key_eqb (pk r) k) parent = true.

(** The four [REFERENCES] clauses: every message has its conversation,
    every capture and every chunk its message, and a chunk that names a
    capture has it. *)
Definition referential_integrity (db : Database) : Prop :=
  Forall (fun m => stored (conversations db) Conversation.id (Message.conversation_id m))
         (messages db)
  /\ Forall (fun c => stored (messages db) Message.id (ApiCapture.message_id c))
            (api_captures db)
  /\ Forall (fun s => stored (messages db) Message.id (StreamingChunk.message_id s)
                      /\ (StreamingChunk.api_capture_id s = None
                          \/ stored (api_captures db) ApiCapture.id
                                    (StreamingChunk.api_capture_id s)))
            (streaming_chunks db).

End Store.

(** [ws.readyState] *)
Inductive ReadyState := CONNECTING | OPEN | CLOSING | CLOSED.

(* ================================================================== *)
(** * The ingestion server *)
(* ================================================================== *)

Module Server.

Import Store.

(** The server's end of one connection: its state and the frames handed
    to [ws.send], oldest first (each frame is the [JSON.stringify] of the
    object recorded here). *)
Record WebSocket := mkWebSocket {
  readyState : ReadyState;
  sent : list object
}.

Record World := mkWorld {
  database : Database;
  ws : WebSocket
}.

(** What one dispatch reads from its environment: [Date.now()] and the
    successive results of [crypto.randomUUID()]. *)
Record Runtime := mkRuntime {
  Date_now : Z;
  randomUUID : nat -> string
}.

(** [this.database.f(...)] *)
Definition db {A} (m : Store.M A) : ST World A :=
  fun w =>
    let '(d, o) := m (database w) in
    (mkWorld d (ws w), o).

(** [send(ws, message)] *)
Definition send (message : object) : ST World unit :=
  fun w =>
    match readyState (ws w) with
    | OPEN => (mkWorld (database w) (mkWebSocket OPEN (sent (ws w) ++ [message])), Returns tt)
    | _ => (w, Returns tt)
    end.

(** [sendError(ws, error)] *)
Definition sendError (rt : Runtime) (error : string) : ST World unit :=
  send [("type", Str "error"); ("error", Str error); ("timestamp", Num (Date_now rt))].

(** Reading the properties of [data], [property] first: [undefined]
    and [null] have none and the first read throws; a primitive or an
    array has none of the properties the handlers read. *)
Definition properties {S} (property : string) (data : value) : ST S object :=
  match data with
  | Obj props => ret props
  | undefined =>
      throw (TypeError ("Cannot read properties of undefined (reading '" ++ property ++ "')"))
  | null =>
      throw (TypeError ("Cannot read properties of null (reading '" ++ property ++ "')"))
  | _ => ret []
  end.

(** A computation is silent when it leaves the connection as it is. *)
Definition silent {A} (m : ST World A) : Prop := forall w, ws (fst (m w)) = ws w.

(** [a === 'literal'] *)
Definition strict_eq (a : value) (literal : string) : bool :=
  match a with Str s => String.eqb s literal | _ => false end.

(** The methods of [this] that [handleMessage] calls with the data of
    an envelope. *)
Record Methods := mkMethods {
  this_handleConversation : value -> ST World unit;
  this_handleUserMessage : value -> ST World unit;
  this_handleApiCapture : value -> ST World unit;
  this_handleSystemPrompt : value -> ST World unit;
  this_handleStreamingChunk : value -> ST World unit
}.

(** Methods that leave the connection as it is, whatever else they
    do. *)
Definition quiet (this : Methods) : Prop :=
  forall data,
    silent (this_handleConversation this data)
    /\ silent (this_handleUserMessage this data)
    /\ silent (this_handleApiCapture this data)
    /\ silent (this_handleSystemPrompt this data)
    /\ silent (this_handleStreamingChunk this data).

Section Switch.

Variable rt : Runtime.
Variable this : Methods.

Let now := Date_now rt.

(** The [switch (message.type)] of [handleMessage]. *)
Definition dispatch_on (message : object) : ST World unit :=
  let type := message.["type"] in
  if strict_eq type "conversation" then this_handleConversation this message.["data"]
  else if strict_eq type "message" then this_handleUserMessage this message.["data"]
  else if strict_eq type "api_capture" then this_handleApiCapture this message.["data"]
  else if strict_eq type "system_prompt" then this_handleSystemPrompt this message.["data"]
  else if strict_eq type "streaming_chunk"
  then this_handleStreamingChunk this message.["data"]
  else if strict_eq type "ping" then send [("type", Str "pong"); ("timestamp", Num now)]
  else (* console.warn('Unknown message type:', message.type) *) ret tt.

(** The acknowledgment of [message]. *)
Definition ack (message : object) : object :=
  [("type", Str "ack"); ("messageId", message.["id"]); ("timestamp", Num now)].

(** [handleMessage(message, ws)] *)
Definition handleMessage_on (message : value) : ST World unit :=
  try_catch
    (message <- properties "type" message ;;
     dispatch_on message ;;
     (* Send acknowledgment *)
     send (ack message))%st
    (fun err => sendError rt (message_of err)).

(** The part of [handleMessage] before the acknowledgment: the envelope
that was dispatched, when the dispatch returned. *)
Definition dispatched_on (message : value) : ST World object :=
  (message <- properties "type" message ;;
   dispatch_on message ;;
   ret message)%st.

(** What the [switch] itself sends for an envelope. *)
Definition replies (message : object) : list object :=
  if strict_eq message.["type"] "ping"
  then [[("type", Str "pong"); ("timestamp", Num now)]]
  else [].

(** The error notification for [err]. *)
Definition error_notification (err : Error) : object :=
  [("type", Str "error"); ("error", Str (message_of err)); ("timestamp", Num now)].

End Switch.

Section Handlers.

Variable sha256 : string -> string.
Variable rt : Runtime.

Let now := Date_now rt.
Let uuid := randomUUID rt.

(** [handleConversation(data)] *)
Definition handleConversation (data : value) : ST World unit :=
  (data <- properties "id" data ;;
   let conversationData :=
     [ ("id", data.["id"] || Str (uuid 0));
       ("platform", data.["platform"]);
       ("conversation_id", data.["conversation_id"]);
       ("started_at", data.["started_at"] || Num now);
       ("last_activity", data.["last_activity"] || Num now);
       ("title", data.["title"]);
       ("message_count", data.["message_count"] || Num 0);
       ("total_tokens", data.["total_tokens"] || Num 0);
       ("model_used", data.["model_used"]);
       ("metadata", data.["metadata"]) ]%js in
   db (upsertConversation now conversationData))%st.

(** [handleUserMessage(data)] *)
Definition handleUserMessage (data : value) : ST World unit :=
  (data <- properties "id" data ;;
   let messageData :=
     [ ("id", data.["id"] || Str (uuid 0));
       ("conversation_id", data.["conversation_id"]);
       ("timestamp", data.["timestamp"] || Num now);
       ("role", data.["role"]);
       ("content", data.["content"]);
       ("visible_to_user", data.["visible_to_user"]);
       ("message_position", data.["message_position"]);
       ("edited", data.["edited"]);
       ("regenerated", data.["regenerated"]);
       ("tokens_prompt", data.["tokens_prompt"]);
       ("tokens_completion", data.["tokens_completion"]);
       ("tokens_total", data.["tokens_total"]);
       ("time_to_first_token_ms", data.["time_to_first_token_ms"]);
       ("total_generation_time_ms", data.["total_generation_time_ms"]);
       ("attachments", data.["attachments"]) ]%js in
   db (insertMessage now messageData) ;;
   (* Update conversation *)
   db (upsertConversation now
         [ ("id", data.["conversation_id"]);
           ("platform", data.["platform"]);
           ("last_activity", Num now);
           ("message_count", JS.succ (data.["message_position"] || Num 0)) ]%js))%st.

(** The [for (const prompt of data.system_prompts)] of the capture
    handler; the [i]-th upsert draws the [i]-th UUID. *)
Fixpoint store_system_prompts (data : object) (i : nat) (prompts : list value)
    : ST World unit :=
  match prompts with
  | [] => ret tt
  | prompt :: rest =>
      (db (upsertSystemPrompt sha256 now (uuid i)
             [ ("platform", data.["platform"] || Str "unknown");
               ("prompt_text", prompt);
               ("first_seen", Num now);
               ("last_seen", Num now) ]%js) ;;
       store_system_prompts data (S i) rest)%st
  end.

(** [handleApiCapture(data)] *)
Definition handleApiCapture (data : value) : ST World unit :=
  (data <- properties "id" data ;;
   let captureData :=
     [ ("id", data.["id"] || Str (uuid 0));
       ("message_id", data.["message_id"]);
       ("timestamp", data.["timestamp"] || Num now);
       ("request_url", data.["request_url"]);
       ("request_method", data.["request_method"]);
       ("request_headers", data.["request_headers"]);
       ("request_body", data.["request_body"]);
       ("response_status", data.["response_status"]);
       ("response_headers", data.["response_headers"]);
       ("response_body", data.["response_body"]);
       ("raw_response", data.["raw_response"]);
       ("model", data.["model"]);
       ("system_prompts", data.["system_prompts"]);
       ("temperature", data.["temperature"]);
       ("max_tokens", data.["max_tokens"]);
       ("stream", data.["stream"]) ]%js in
   db (insertApiCapture now captureData) ;;
   (* Extract and store system prompts *)
   match JS.items_of data.["system_prompts"] with
   | Some prompts => store_system_prompts data 1 prompts
   | None => throw (TypeError "data.system_prompts is not iterable")
   end)%st.

(** [handleSystemPrompt(data)] *)
Definition handleSystemPrompt (data : value) : ST World unit :=
  (data <- properties "platform" data ;;
   db (upsertSystemPrompt sha256 now (uuid 0)
         [ ("platform", data.["platform"]);
           ("prompt_text", data.["prompt_text"]);
           ("first_seen", data.["first_seen"] || Num now);
           ("last_seen", data.["last_seen"] || Num now);
           ("context", data.["context"]) ]%js))%st.

(** [handleStreamingChunk(data)] *)
Definition handleStreamingChunk (data : value) : ST World unit :=
  (data <- properties "id" data ;;
   let chunkData :=
     [ ("id", data.["id"] || Str (uuid 0));
       ("message_id", data.["message_id"]);
       ("chunk_index", data.["chunk_index"]);
       ("timestamp", data.["timestamp"] || Num now);
       ("content", data.["content"]);
       ("delta_time_ms", data.["delta_time_ms"]) ]%js in
   db (insertStreamingChunk chunkData))%st.

(** The server's own methods. *)
Definition methods : Methods :=
  mkMethods handleConversation handleUserMessage handleApiCapture handleSystemPrompt
            handleStreamingChunk.

(** [handleMessage(message, ws)] of the server, its [switch], and the
    part before the acknowledgment. *)
Definition dispatch : object -> ST World unit := dispatch_on rt methods.
Definition handleMessage : value -> ST World unit := handleMessage_on rt methods.
Definition dispatched : value -> ST World object := dispatched_on rt methods.

End Handlers.

Section Connection.

Variable sha256 : string -> string.
Variable rt : Runtime.

(** [JSON.parse] (left: the SyntaxError's message). *)
Variable JSON_parse : string -> string + value.

(** [ws.on('message', (data) => ...)] of [start()]: the [catch] takes
the SyntaxError of [JSON.parse] and whatever [handleMessage] throws. *)
Definition on_message (data : string) : ST World unit :=
  match JSON_parse data with
  | inr message =>
      try_catch (handleMessage sha256 rt message) (fun _ => sendError rt "Invalid JSON")
  | inl _ => sendError rt "Invalid JSON"
  end.

End Connection.

(** The database a computation leaves and its outcome depend on the
    database alone, not on the connection. *)
Definition blind {A} (m : ST World A) : Prop :=
  forall w1 w2, database w1 = database w2 ->
    database (fst (m w1)) = database (fst (m w2)) /\ snd (m w1) = snd (m w2).

(** On a connection that is not open a computation sends nothing. *)
Definition mute {A} (m : ST World A) : Prop :=
  forall w, readyState (ws w) <> OPEN -> ws (fst (m w)) = ws w.

(** The envelope types whose [case] calls a handler of the store. *)
Definition stores (type : value) : bool :=
  strict_eq type "conversation" || strict_eq type "message"
  || strict_eq type "api_capture" || strict_eq type "system_prompt"
  || strict_eq type "streaming_chunk".

End Server.

(* ================================================================== *)
(** * The native messaging host *)
(* ================================================================== *)

Module Host.

(** ** Buffers *)

(** [Buffer.alloc(size)] *)
Definition alloc (size : nat) : list byte := repeat x00 size.

(** [source.copy(target, targetStart)]: the bytes of [source] overwrite
    [target] from [targetStart] on, as far as they fit. *)
Definition copy (source target : list byte) (targetStart : nat) : list byte :=
  (firstn targetStart target
   ++ firstn (List.length target - targetStart) source
   ++ skipn (targetStart + List.length source) target)%list.

Definition byte_of_N (n : N) : byte :=
  match Byte.of_N (n mod 256) with Some b => b | None => x00 end.

(** [header.writeUInt32LE(value, 0)] on a fresh 4-byte buffer; a value
    that does not fit 32 bits is a RangeError. *)
Definition writeUInt32LE (value : N) : option (list byte) :=
  if (value <? 2 ^ 32)%N
  then Some [ byte_of_N value;
              byte_of_N (N.shiftr value 8);
              byte_of_N (N.shiftr value 16);
              byte_of_N (N.shiftr value 24) ]
  else None.

(** [buffer.readUInt32LE(0)] *)
Definition readUInt32LE (buffer : list byte) : N :=
  match buffer with
  | b0 :: b1 :: b2 :: b3 :: _ =>
      (Byte.to_N b0 + N.shiftl (Byte.to_N b1) 8
       + N.shiftl (Byte.to_N b2) 16 + N.shiftl (Byte.to_N b3) 24)%N
  | _ => 0%N
  end.

(** [haystack.includes(needle)] *)
Fixpoint includes (needle haystack : string) : bool :=
  String.prefix needle haystack
  || match haystack with
     | EmptyString => false
     | String _ rest => includes needle rest
     end.

(** ** stdin *)

(** The largest [size] that [stream.read(size)] takes (1 GiB): for a
    larger one it throws a RangeError, [ERR_OUT_OF_RANGE]. *)
Definition MAX_HWM : N := 2 ^ 30.

(** What [process.stdin.read(size)] yields. *)
Inductive Read :=
| Chunk (chunk buffered : list byte)   (* a buffer, and what the stream keeps *)
| Null
| OutOfRange.                          (* the RangeError *)

(** [process.stdin.read(size)] on a stream that has not ended: a
    RangeError for a [size] above [MAX_HWM]; [null] unless [size] bytes
    are buffered, and [null] for a [size] of 0; otherwise the first
    [size] bytes, which leave the stream's buffer. *)
Definition stdin_read (size : nat) (buffered : list byte) : Read :=
  if (MAX_HWM <? N.of_nat size)%N then OutOfRange
  else match size with
       | O => Null
       | _ => if (List.length buffered <? size)%nat then Null
              else Chunk (firstn size buffered) (skipn size buffered)
       end.

(** The callback a pending [readMessageFromChrome] left on
    ['readable'], with the variables it closes over. *)
Inductive Reader :=
| readHeader_at (headerBuffer : list byte) (headerRead : nat)
| readChunk_at (length : nat) (messageBuffer : list byte) (messageRead : nat).

(** How the promise of a [readMessageFromChrome] settles. *)
Inductive Settlement :=
| Resolved (message : value)
| Rejected (err : string)              (* [reject(new Error(err))] *)
| Rejected_RangeError.                 (* rejected with what [stdin.read] threw *)

(** How far a read has come: the promise is settled, a callback waits
    for ['readable'], or [stdin.read] has thrown. *)
Inductive Progress :=
| Settled (s : Settlement) (buffered : list byte)
| Pending (r : Reader) (buffered : list byte)
| Thrown (buffered : list byte).

Section Runtime.

(** [JSON.stringify], [JSON.parse] (left: the message of what it
    throws), [Buffer.from(string)] and [buffer.toString()] (UTF-8).
    [readChunk] has [toString()] and the parse in one [try], so
    [JSON_parse (Buffer_toString b)] is left also for a buffer too long
    to be a string, with the message of that error. *)
Variable JSON_stringify : value -> string.
Variable JSON_parse : string -> string + value.
Variable Buffer_from : string -> list byte.
Variable Buffer_toString : list byte -> string.

(** ** Reading a frame: [readMessageFromChrome] *)

(** The [try { resolve(JSON.parse(messageBuffer.toString())) } catch]
of [readChunk], once the payload is complete. *)
Definition settle (messageBuffer : list byte) : Settlement :=
  match JSON_parse (Buffer_toString messageBuffer) with
  | inr message => Resolved message
  | inl err => Rejected ("Invalid JSON: " ++ err)%string
  end.

(** [readChunk] inside [readMessage(length)] *)
Definition readChunk (length : nat) (messageBuffer : list byte) (messageRead : nat)
    (buffered : list byte) : Progress :=
  match stdin_read (length - messageRead) buffered with
  | Chunk chunk buffered =>
      let messageBuffer := copy chunk messageBuffer messageRead in
      let messageRead := (messageRead + List.length chunk)%nat in
      if (messageRead =? length)%nat then Settled (settle messageBuffer) buffered
      else Pending (readChunk_at length messageBuffer messageRead) buffered
  | Null => Pending (readChunk_at length messageBuffer messageRead) buffered
  | OutOfRange => Thrown buffered
  end.

(** [readMessage(length)] *)
Definition readMessage (length : nat) (buffered : list byte) : Progress :=
  readChunk length (alloc length) 0 buffered.

(** [readHeader] *)
Definition readHeader (headerBuffer : list byte) (headerRead : nat)
    (buffered : list byte) : Progress :=
  match stdin_read (4 - headerRead) buffered with
  | Chunk chunk buffered =>
      let headerBuffer := copy chunk headerBuffer headerRead in
      let headerRead := (headerRead + List.length chunk)%nat in
      if (headerRead =? 4)%nat then
        let messageLength := readUInt32LE headerBuffer in
        readMessage (N.to_nat messageLength) buffered
      else Pending (readHeader_at headerBuffer headerRead) buffered
  | Null => Pending (readHeader_at headerBuffer headerRead) buffered
  | OutOfRange => Thrown buffered
  end.

(** [readMessageFromChrome()] up to its first wait: [readHeader()] runs
    in the executor of the promise, so what it throws rejects the
    promise. *)
Definition readMessageFromChrome (buffered : list byte) : Progress :=
  match readHeader (alloc 4) 0 buffered with
  | Thrown buffered => Settled Rejected_RangeError buffered
  | progress => progress
  end.

(** The ['readable'] event runs the callback that was left waiting;
    what the callback throws there, nothing catches. *)
Definition on_readable (r : Reader) (buffered : list byte) : Progress :=
  match r with
  | readHeader_at headerBuffer headerRead => readHeader headerBuffer headerRead buffered
  | readChunk_at length messageBuffer messageRead =>
      readChunk length messageBuffer messageRead buffered
  end.

(** ** Writing a frame: [sendMessageToChrome] *)

(** The header and the payload as [sendMessageToChrome] writes them;
nothing when the length does not fit the header (the RangeError is
caught and logged). *)
Definition frame_of (buffer : list byte) : list byte :=
  match writeUInt32LE (N.of_nat (List.length buffer)) with
  | Some header => header ++ buffer
  | None => []
  end.

(** The bytes [sendMessageToChrome(message)] writes to stdout. *)
Definition sendMessageToChrome_bytes (message : value) : list byte :=
  let json := JSON_stringify message in
  let buffer := Buffer_from json in
  frame_of buffer.

(** A message is JSON-serializable when its JSON text, as UTF-8, is
between 1 byte and what one read of the stream can take, and parses back
to the message. *)
Definition serializable (message : value) : Prop :=
  let buffer := Buffer_from (JSON_stringify message) in
  (0 < N.of_nat (List.length buffer) <= MAX_HWM)%N
  /\ JSON_parse (Buffer_toString buffer) = inr message.

(** The bytes of the stream a waiting reader has yet to account for:
what is buffered, after the header it has already taken. *)
Definition header_of (length : nat) : list byte :=
  match writeUInt32LE (N.of_nat length) with Some header => header | None => [] end.

Definition unread (r : Reader) (buffered : list byte) : list byte :=
  match r with
  | readHeader_at _ _ => buffered
  | readChunk_at length _ _ => header_of length ++ buffered
  end.

(** The readers that wait between two reads: [stdin.read] hands over
all the bytes asked for or none, so a waiting reader holds no part of a
header or of a payload. *)
Definition between_reads (r : Reader) : Prop :=
  r = readHeader_at (alloc 4) 0
  \/ exists length, r = readChunk_at length (alloc length) 0
                    /\ (N.of_nat length <= MAX_HWM)%N.

(** ** The host object and what it acts on *)

Record Config := mkConfig {
  config_reconnectInterval : option Z;
  config_maxReconnectAttempts : option Z
}.

(** [config.k || d] on a number *)
Definition or_default (x : option Z) (d : Z) : Z :=
  match x with
  | Some 0 | None => d
  | Some n => n
  end.

Record World := mkWorld {
  (* this.* *)
  ws : option ReadyState;            (* [null], or the socket and its state *)
  reconnectInterval : Z;
  maxReconnectAttempts : Z;
  reconnectAttempts : Z;
  messageQueue : list value;
  (* what the host did to its environment *)
  to_desktop : list string;          (* frames handed to [ws.send], oldest first *)
  stdout : list byte;                (* bytes written to [process.stdout] *)
  timers : list Z;                   (* pending [setTimeout] reconnects, by delay *)
  connections : nat;                 (* how often [new WebSocket(...)] ran *)
  (* stdin: the bytes that arrived and no read has taken yet *)
  buffered : list byte;
  (* [start()]: the socket, by its number, whose open its [await] waits
     for; the callback its read loop left on ['readable'], [None] before
     the loop has begun and once it broke *)
  awaited : option nat;
  reader : option Reader
}.

(** [new NativeMessagingHost(config)]: no socket yet, and nothing reads
    stdin before [start()] reaches its loop. *)
Definition constructor (config : Config) : World :=
  mkWorld None
          (or_default (config_reconnectInterval config) 5000)
          (or_default (config_maxReconnectAttempts config) 10)
          0 [] [] [] [] 0 [] None None.

Definition set_ws (x : option ReadyState) (w : World) : World :=
  mkWorld x (reconnectInterval w) (maxReconnectAttempts w) (reconnectAttempts w)
          (messageQueue w) (to_desktop w) (stdout w) (timers w) (connections w)
          (buffered w) (awaited w) (reader w).
Definition set_reconnectAttempts (x : Z) (w : World) : World :=
  mkWorld (ws w) (reconnectInterval w) (maxReconnectAttempts w) x
          (messageQueue w) (to_desktop w) (stdout w) (timers w) (connections w)
          (buffered w) (awaited w) (reader w).
Definition set_messageQueue (x : list value) (w : World) : World :=
  mkWorld (ws w) (reconnectInterval w) (maxReconnectAttempts w) (reconnectAttempts w)
          x (to_desktop w) (stdout w) (timers w) (connections w)
          (buffered w) (awaited w) (reader w).
Definition set_to_desktop (x : list string) (w : World) : World :=
  mkWorld (ws w) (reconnectInterval w) (maxReconnectAttempts w) (reconnectAttempts w)
          (messageQueue w) x (stdout w) (timers w) (connections w)
          (buffered w) (awaited w) (reader w).
Definition set_stdout (x : list byte) (w : World) : World :=
  mkWorld (ws w) (reconnectInterval w) (maxReconnectAttempts w) (reconnectAttempts w)
          (messageQueue w) (to_desktop w) x (timers w) (connections w)
          (buffered w) (awaited w) (reader w).
Definition set_timers (x : list Z) (w : World) : World :=
  mkWorld (ws w) (reconnectInterval w) (maxReconnectAttempts w) (reconnectAttempts w)
          (messageQueue w) (to_desktop w) (stdout w) x (connections w)
          (buffered w) (awaited w) (reader w).
Definition set_connections (x : nat) (w : World) : World :=
  mkWorld (ws w) (reconnectInterval w) (maxReconnectAttempts w) (reconnectAttempts w)
          (messageQueue w) (to_desktop w) (stdout w) (timers w) x
          (buffered w) (awaited w) (reader w).
Definition set_stdin (b : list byte) (r : option Reader) (w : World) : World :=
  mkWorld (ws w) (reconnectInterval w) (maxReconnectAttempts w) (reconnectAttempts w)
          (messageQueue w) (to_desktop w) (stdout w) (timers w) (connections w)
          b (awaited w) r.
Definition set_awaited (x : option nat) (w : World) : World :=
  mkWorld (ws w) (reconnectInterval w) (maxReconnectAttempts w) (reconnectAttempts w)
          (messageQueue w) (to_desktop w) (stdout w) (timers w) (connections w)
          (buffered w) x (reader w).

(** [this.ws.send(data)] on an open socket *)
Definition ws_send (data : string) (w : World) : World :=
  set_to_desktop (to_desktop w ++ [data]) w.

(** [sendMessageToChrome(message)] *)
Definition sendMessageToChrome (message : value) (w : World) : World :=
  set_stdout (stdout w ++ sendMessageToChrome_bytes message) w.

(** [sendMessageToDesktopApp(message)] *)
Definition sendMessageToDesktopApp (message : value) (w : World) : World :=
  match ws w with
  | Some OPEN => ws_send (JSON_stringify message) w
  | _ =>
      (* Queue message for later *)
      set_messageQueue (messageQueue w ++ [message]) w
  end.

(** [connectToDesktopApp()]: [this.ws = new WebSocket(this.wsUrl)] *)
Definition connectToDesktopApp (w : World) : World :=
  set_connections (S (connections w)) (set_ws (Some CONNECTING) w).

(** The [while (this.messageQueue.length > 0)] of the open handler,
    by the queue it still has to shift. *)
Fixpoint send_queued (queue : list value) (w : World) : World :=
  match queue with
  | [] => set_messageQueue [] w
  | msg :: rest => send_queued rest (ws_send (JSON_stringify msg) (set_messageQueue rest w))
  end.

(** [ws.on('open', ...)], up to its [resolve()] *)
Definition on_open (w : World) : World :=
  let w := set_ws (Some OPEN) w in
  let w := set_reconnectAttempts 0 w in
  (* Send queued messages *)
  send_queued (messageQueue w) w.

(** [start()] up to its [await this.connectToDesktopApp()]: it makes
    the first socket and waits for the promise of that call, which only
    the open handler of that socket resolves.  (The promise is rejected
    when [new WebSocket] throws, which it does not for the URL of the
    model, a well-formed one like the default.) *)
Definition start (w : World) : World :=
  let w := connectToDesktopApp w in
  set_awaited (Some (connections w)) w.

(** [resolve()] at the end of the open handler settles the promise of
    the call that made the socket.  When [start()] awaits that promise
    it goes on to its [while (true)]: the first
    [readMessageFromChrome()] finds the stream not yet reading, so
    [stdin.read] yields [null] and [readHeader] waits for ['readable'].
    The promise of a later call, made by a reconnect timer, wakes
    nobody. *)
Definition resolve (w : World) : World :=
  match awaited w with
  | Some socket =>
      if (socket =? connections w)%nat
      then set_awaited None (set_stdin (buffered w) (Some (readHeader_at (alloc 4) 0)) w)
      else w
  | None => w
  end.

(** [ws.on('message', (data) => ...)] *)
Definition on_message (data : string) (w : World) : World :=
  match JSON_parse data with
  | inr message => sendMessageToChrome message w
  | inl _ => w
  end.

(** [ws.on('error', ...)]: logs. *)
Definition on_error (w : World) : World := w.

(** [ws.on('close', ...)] *)
Definition on_close (w : World) : World :=
  let w := set_ws None w in
  (* Attempt to reconnect *)
  if reconnectAttempts w <? maxReconnectAttempts w then
    let w := set_reconnectAttempts (reconnectAttempts w + 1) w in
    set_timers (timers w ++ [reconnectInterval w]) w
  else w.

(** A reconnect timer fires: [this.connectToDesktopApp().catch(() => {})] *)
Definition on_timeout (w : World) : World :=
  connectToDesktopApp (set_timers (tl (timers w)) w).

(** ** The read loop of [start()]

    [pump] runs the loop from a ['readable'] event until the next
    read has to wait: every frame that settles is handed to
    [sendMessageToDesktopApp] or logged, and the next
    [readMessageFromChrome] starts on what is left in the stream.
    An error whose message includes [EOF] ends the loop; the message
    of the RangeError (the argument's name, the bound and the size)
    does not.  A callback that throws takes the loop with it.  Each
    frame that settles takes at least one byte, so [fuel] above the
    number of buffered bytes is never used up.  The [this.ws.close()]
    that follows the loop shows in the model when the socket's [Close]
    event arrives. *)
Definition breaks (s : Settlement) : bool :=
  match s with
  | Rejected err => includes "EOF" err
  | Resolved _ | Rejected_RangeError => false
  end.

Fixpoint pump (fuel : nat) (p : Progress)
    : list Settlement * option Reader * list byte :=
  match p with
  | Pending r buffered => ([], Some r, buffered)
  | Thrown buffered => ([], None, buffered)
  | Settled s buffered =>
      if breaks s then ([s], None, buffered)
      else match fuel with
           | O => ([s], Some (readHeader_at (alloc 4) 0), buffered)
           | S fuel =>
               let '(ss, r, buffered) := pump fuel (readMessageFromChrome buffered) in
               (s :: ss, r, buffered)
           end
  end.

(** What the loop body does with one settled read. *)
Definition deliver (s : Settlement) (w : World) : World :=
  match s with
  | Resolved message => sendMessageToDesktopApp message w
  | Rejected _ | Rejected_RangeError => w
  end.

(** Bytes arrive on stdin and the stream emits ['readable'], which runs
    the callback left waiting; while none waits the bytes stay where
    they are.  (With no bytes in [chunk]: ['readable'] for bytes that
    were there before the callback waited.) *)
Definition on_stdin (chunk : list byte) (w : World) : World :=
  let buffered := buffered w ++ chunk in
  match reader w with
  | None => set_stdin buffered None w
  | Some r =>
      let '(ss, r, rest) := pump (List.length buffered) (on_readable r buffered) in
      set_stdin rest r (fold_left (fun w s => deliver s w) ss w)
  end.

(** The frames the loop has read once [chunks] have arrived, from a
    fresh [readMessageFromChrome]. *)
Fixpoint decode (r : option Reader) (buffered : list byte) (chunks : list (list byte))
    : list Settlement :=
  match chunks with
  | [] => []
  | chunk :: chunks =>
      let buffered := buffered ++ chunk in
      match r with
      | None => []
      | Some r =>
          let '(ss, r, rest) := pump (List.length buffered) (on_readable r buffered) in
          ss ++ decode r rest chunks
      end
  end.

(** ** Events *)

Inductive Event :=
| Connect                      (* an explicit call of [connectToDesktopApp()] *)
| Timeout                      (* a pending reconnect timer fires *)
| Open | Close | Error         (* the socket's events *)
| Message (data : string)
| Submit (message : value)     (* [sendMessageToDesktopApp(message)] *)
| Stdin (chunk : list byte).

(** Bytes on stdin end the process when the callback they wake throws:
    the RangeError of [stdin.read] leaves the listener uncaught. *)
Definition fatal (chunk : list byte) (w : World) : bool :=
  match reader w with
  | Some r =>
      match on_readable r (buffered w ++ chunk) with
      | Thrown _ => true
      | _ => false
      end
  | None => false
  end.

(** One event, when it can happen: a socket event needs the socket in
    the right state, a timeout needs a pending timer.  There is no
    state after an event that ends the process. *)
Definition step (e : Event) (w : World) : option World :=
  match e with
  | Connect => match ws w with None => Some (connectToDesktopApp w) | Some _ => None end
  | Timeout => match timers w with [] => None | _ :: _ => Some (on_timeout w) end
  | Open => match ws w with Some CONNECTING => Some (resolve (on_open w)) | _ => None end
  | Close => match ws w with Some _ => Some (on_close w) | None => None end
  | Error => match ws w with Some _ => Some (on_error w) | None => None end
  | Message data => match ws w with Some OPEN => Some (on_message data w) | _ => None end
  | Submit message => Some (sendMessageToDesktopApp message w)
  | Stdin chunk => if fatal chunk w then None else Some (on_stdin chunk w)
  end.

(** A run of events from a state of the host:
    [start (constructor config)] for a host that was started, and
    [constructor config] for one whose methods are called directly. *)
Fixpoint run (events : list Event) (w : World) : option World :=
  match events with
  | [] => Some w
  | e :: events =>
      match step e w with
      | Some w => run events w
      | None => None
      end
  end.

Definition is_connect (e : Event) : bool :=
  match e with Connect => true | _ => false end.

(** ** What a run takes on for the desktop app *)

(** The messages among settled reads. *)
Definition resolved (ss : list Settlement) : list value :=
  flat_map (fun s => match s with Resolved message => [message] | _ => [] end) ss.

(** The messages an event hands to [sendMessageToDesktopApp]: the one
submitted, or the frames the read loop resolves when a chunk arrives. *)
Definition offers (e : Event) (w : World) : list value :=
  match e with
  | Submit message => [message]
  | Stdin chunk => resolved (decode (reader w) (buffered w) [chunk])
  | _ => []
  end.

Fixpoint offered (events : list Event) (w : World) : list value :=
  match events with
  | [] => []
  | e :: events =>
      offers e w ++ match step e w with Some w => offered events w | None => [] end
  end.

(** Everything the host holds or has passed on for the desktop app,
oldest first: the frames handed to the socket, then the queue. *)
Definition outbound (w : World) : list string :=
  to_desktop w ++ map JSON_stringify (messageQueue w).

(** The reconnects the host can still start on its own: the timers
pending and what is left of the attempts. *)
Definition reconnects_left (w : World) : nat :=
  (List.length (timers w) + Z.to_nat (maxReconnectAttempts w - reconnectAttempts w))%nat.

(** While the socket is open the queue is empty. *)
Definition drained (w : World) : Prop := ws w = Some OPEN -> messageQueue w = [].

(** The replies of the desktop app, among [events], that parse. *)
Definition received (events : list Event) : list value :=
  flat_map (fun e =>
              match e with
              | Message data =>
                  match JSON_parse data with inr message => [message] | inl _ => [] end
              | _ => []
              end) events.

(** The events of a connection that never opens and that nobody
reconnects by hand. *)
Definition unattended (e : Event) : bool :=
  match e with Connect | Open => false | _ => true end.

End Runtime.

End Host.

(* ================================================================== *)
(** * A runtime for concrete runs *)
(* ================================================================== *)

(** [JSON.stringify] and [JSON.parse] on the literals [null], [true] and
    [false], and UTF-8 on ASCII text: enough of the runtime to run the
    host on concrete frames.  [JSON_stringify] agrees with
    [JSON.stringify] on the three literals, the only messages of the runs
    below; [JSON_parse] agrees with [JSON.parse] on a literal preceded by
    spaces and reports every other text as a syntax error, under a text
    of its own: no run below depends on the text of the error. *)
Module Literals.

Definition JSON_stringify (v : value) : string :=
  match v with
  | Bool true => "true"
  | Bool false => "false"
  | _ => "null"
  end.

(** Leading spaces are insignificant whitespace. *)
Fixpoint skip_spaces (text : string) : string :=
  match text with
  | String " "%char rest => skip_spaces rest
  | _ => text
  end.

Definition JSON_parse (text : string) : string + value :=
  let text := skip_spaces text in
  if String.eqb text "null" then inr null
  else if String.eqb text "true" then inr (Bool true)
  else if String.eqb text "false" then inr (Bool false)
  else inl "Unexpected token".

Definition Buffer_from (text : string) : list byte := list_byte_of_string text.

Definition Buffer_toString (buffer : list byte) : string := string_of_list_byte buffer.

(** The host with this runtime. *)
Definition run := Host.run JSON_stringify JSON_parse Buffer_from Buffer_toString.
Definition decode := Host.decode JSON_parse Buffer_toString.
Definition readMessageFromChrome := Host.readMessageFromChrome JSON_parse Buffer_toString.
Definition frame := Host.sendMessageToChrome_bytes JSON_stringify Buffer_from.

End Literals.

(* ================================================================== *)
(** * Properties of the store *)
(* ================================================================== *)

Module StoreProofs.

Import Store.

(** ** SQL helpers *)

Lemma first_error_none_inv (c : option Error) (cs : list (option Error)) :
  first_error (c :: cs) = None -> c = None /\ first_error cs = None.
Proof. destruct c; simpl; intros H; [discriminate | auto]. Qed.

Lemma not_null_some {A} (column : string) (x : option A) :
  not_null column x = None -> exists v, x = Some v.
Proof. destruct x; simpl; intros H; [eauto | discriminate]. Qed.

Lemma select_first_update_where {R} (p : R -> bool) (f : R -> R) (t : list R) :
  (forall r, p (f r) = p r) ->
  select_first p (update_where p f t) = option_map f (select_first p t).
Proof.
  intros Hp. unfold select_first, update_where.
  induction t as [|r t IH]; simpl; [reflexivity|].
  destruct (p r) eqn:E.
  - rewrite Hp, E. reflexivity.
  - rewrite E. exact IH.
Qed.

Lemma select_first_update_other {R} (p q : R -> bool) (f : R -> R) (t : list R) :
  (forall r, q r = true -> p (f r) = p r) ->
  (forall r, q r = true -> p r = true -> f r = r) ->
  select_first p (update_where q f t) = select_first p t.
Proof.
  intros Hp Hf. unfold select_first, update_where.
  induction t as [|r t IH]; simpl; [reflexivity|].
  destruct (q r) eqn:Q.
  - rewrite (Hp _ Q). destruct (p r) eqn:P; [rewrite (Hf _ Q P); reflexivity | exact IH].
  - destruct (p r); [reflexivity | exact IH].
Qed.

Lemma update_where_length {R} (p : R -> bool) (f : R -> R) (t : list R) :
  List.length (update_where p f t) = List.length t.
Proof. apply length_map. Qed.

Lemma update_where_none {R} (p : R -> bool) (f : R -> R) (t : list R) :
  existsb p t = false -> update_where p f t = t.
Proof.
  unfold update_where. induction t as [|r t IH]; simpl; [reflexivity|].
  intros H. apply orb_false_iff in H as [Hr Ht]. rewrite Hr, (IH Ht). reflexivity.
Qed.

Lemma key_eqb_eq (a b : option string) :
  key_eqb a b = true <-> exists k, a = Some k /\ b = Some k.
Proof.
  destruct a as [x|], b as [y|]; simpl; split; intros H;
    try discriminate; try (destruct H as (k & H1 & H2); discriminate).
  - apply String.eqb_eq in H. subst. eauto.
  - destruct H as (k & H1 & H2). inversion H1; inversion H2; subst. apply String.eqb_refl.
Qed.

(** ** [insertMessage]: the insert and the aggregate update are one step *)

(** Either the call throws and the database is untouched, or it returns
    and the database holds the new row together with the updated
    aggregates: no database in between is ever produced. *)
Lemma insertMessage_atomic (now : Z) (data : object) (db : Database) :
  (exists e, insertMessage now data db = (db, Throws e))
  \/ insertMessage now data db =
       (with_conversations
          (update_conversation_stats now (message_values now data) (conversations db))
          (with_messages (messages db ++ [message_values now data]) db),
        Returns tt).
Proof.
  unfold insertMessage, messages_insert.
  destruct (first_error _); [left; eauto|].
  destruct (existsb _ (messages db)); [left; eauto|].
  destruct (references _ _ _ _); [right; reflexivity | left; eauto].
Qed.

(** A call that returns inserted a row with a timestamp. *)
Lemma insertMessage_returns_timestamp (now : Z) (data : object) (db db' : Database) :
  insertMessage now data db = (db', Returns tt) ->
  exists t, INTEGER data.["timestamp"] = Some t.
Proof.
  unfold insertMessage, messages_insert.
  destruct (first_error _) eqn:E; [discriminate|]. intros _.
  apply first_error_none_inv in E as [_ E].
  apply first_error_none_inv in E as [E _].
  apply not_null_some in E. exact E.
Qed.

Lemma sql_add_assoc (x : option Z) (a b : Z) : sql_add (sql_add x a) b = sql_add x (a + b).
Proof. destruct x; simpl; [f_equal; lia | reflexivity]. Qed.

Lemma sql_add_0 (x : option Z) : sql_add x 0 = x.
Proof. destruct x; simpl; [f_equal; lia | reflexivity]. Qed.

Lemma last_cons_default {A} (l : list A) (x d : A) : last (x :: l) d = last l x.
Proof.
  revert x d. induction l as [|y l IH]; intros x d; [reflexivity|].
  change (last (x :: y :: l) d) with (last (y :: l) d). rewrite !IH. reflexivity.
Qed.

(** What one returning insert does to the row of its conversation. *)
Lemma insertMessage_getConversation (now : Z) (data : object) (db db' : Database)
    (C : string) :
  TEXT data.["conversation_id"] = Some C ->
  insertMessage now data db = (db', Returns tt) ->
  getConversation C db' =
    option_map (conversation_stats_set now (message_values now data)) (getConversation C db)
  /\ messages db' = messages db ++ [message_values now data].
Proof.
  intros HC H.
  destruct (insertMessage_atomic now data db) as [[e He] | Hr];
    rewrite H in *; [discriminate|].
  inversion Hr; subst db'; clear Hr. split; [|reflexivity].
  unfold getConversation, update_conversation_stats. simpl.
  change (Message.conversation_id (message_values now data))
    with (TEXT data.["conversation_id"]).
  rewrite HC. apply select_first_update_where. reflexivity.
Qed.

(** C1, counterexample: the seed data of the analytics tests.  The
    conversation is created with [message_count: 4] and
    [total_tokens: 1000]; after the two inserts [msg-1] (50 tokens) and
    [msg-2] (200 tokens), both of which return, its row counts 6 messages
    and 1250 tokens, not 2 and 250. *)
Lemma C1_counterexample_seeded_conversation :
  let conv1 := [ ("id", Str "conv-1"); ("platform", Str "chatgpt");
                 ("started_at", Num 1000); ("last_activity", Num 9000);
                 ("message_count", Num 4); ("total_tokens", Num 1000);
                 ("model_used", Str "gpt-4") ] in
  let msg1 := [ ("id", Str "msg-1"); ("conversation_id", Str "conv-1");
                ("timestamp", Num 1000); ("role", Str "user");
                ("content", Str "Test message");
                ("tokens_prompt", Num 50); ("tokens_total", Num 50) ] in
  let msg2 := [ ("id", Str "msg-2"); ("conversation_id", Str "conv-1");
                ("timestamp", Num 2000); ("role", Str "assistant");
                ("content", Str "Response");
                ("tokens_completion", Num 200); ("tokens_total", Num 200);
                ("total_generation_time_ms", Num 1500) ] in
  let db0 := fst (upsertConversation 9000 conv1 init) in
  let '(db, outs) := run_calls [insertMessage 9001 msg1; insertMessage 9002 msg2] db0 in
  map returned outs = [true; true]
  /\ List.length (messages_of "conv-1" db) = 2%nat
  /\ option_map Conversation.message_count (getConversation "conv-1" db) = Some (Some 6)
  /\ option_map Conversation.total_tokens (getConversation "conv-1" db) = Some (Some 1250)
  /\ option_map Conversation.message_count (getConversation "conv-1" db) <> Some (Some 2)
  /\ option_map Conversation.total_tokens (getConversation "conv-1" db) <> Some (Some 250).
Proof. vm_compute. repeat split; try reflexivity; discriminate. Qed.

Lemma accepted_length {A B} (calls : list A) :
  forall (outs : list (outcome B)),
    (List.length (accepted calls outs) <= List.length calls)%nat.
Proof.
  induction calls as [|call calls IH]; intros outs; [simpl; lia|].
  destruct outs as [|o outs]; [simpl; lia|].
  simpl. specialize (IH outs). destruct (returned o); simpl; lia.
Qed.

Lemma tokens_bound_nonneg (calls : list (Z * object)) : 0 <= tokens_bound calls.
Proof. induction calls as [|call calls IH]; simpl; lia. Qed.

(** The tokens of the rows inserted are within those of the calls. *)
Lemma tokens_accepted_bound (calls : list (Z * object)) :
  forall (outs : list (outcome unit)),
    Z.abs (sum_of (map Message.tokens_total
                     (map (fun call => message_values (fst call) (snd call))
                        (accepted calls outs))))
    <= tokens_bound calls.
Proof.
  induction calls as [|call calls IH]; intros outs; [simpl; lia|].
  pose proof (tokens_bound_nonneg calls) as N.
  destruct outs as [|o outs]; [simpl; lia|].
  specialize (IH outs). simpl accepted. destruct (returned o).
  - cbn [map sum_of fold_right tokens_bound].
    change (Message.tokens_total (message_values (fst call) (snd call)))
      with (INTEGER ((snd call).["tokens_total"] || null)%js).
    fold (sum_of (map Message.tokens_total
                    (map (fun call => message_values (fst call) (snd call))
                       (accepted calls outs)))).
    fold (tokens_bound calls). lia.
  - cbn [tokens_bound fold_right]. fold (tokens_bound calls). lia.
Qed.

(** C1, as amended: message inserts add to the aggregates of their
    conversation.  For every stored conversation [C] and every sequence
    of [insertMessage] calls for [C] whose parameters have the type of
    their column, with aggregates that stay safe integers: the calls
    that return append their rows to [messages] and the calls that throw
    leave no row; afterwards [message_count] is its value before the
    sequence plus the number of inserted rows, [total_tokens] is its
    value before plus the sum of their [tokens_total] (NULL counting 0),
    and [last_activity] is the timestamp of the last inserted row; both
    aggregates are safe integers, so [getConversation] returns them as
    they are stored. *)
Theorem C1_message_inserts_accumulate :
  forall (C : string) (calls : list (Z * object)) (db db' : Database)
         (outs : list (outcome unit)) (c : Conversation.row),
    Forall (fun call => TEXT (snd call).["conversation_id"] = Some C) calls ->
    Forall (fun call => typed_message (snd call) = true) calls ->
    getConversation C db = Some c ->
    Z.abs (COALESCE (Conversation.message_count c) 0) + Z.of_nat (List.length calls)
    <= MAX_SAFE_INTEGER ->
    Z.abs (COALESCE (Conversation.total_tokens c) 0) + tokens_bound calls
    <= MAX_SAFE_INTEGER ->
    run_calls (map (fun call => insertMessage (fst call) (snd call)) calls) db = (db', outs) ->
    let inserted :=
      map (fun call => message_values (fst call) (snd call)) (accepted calls outs) in
    exists c',
      getConversation C db' = Some c'
      /\ messages db' = messages db ++ inserted
      /\ Conversation.message_count c'
         = sql_add (Conversation.message_count c) (Z.of_nat (List.length inserted))
      /\ Conversation.total_tokens c'
         = sql_add (Conversation.total_tokens c) (sum_of (map Message.tokens_total inserted))
      /\ Conversation.last_activity c'
         = last (map Message.timestamp inserted) (Conversation.last_activity c)
      /\ Z.abs (COALESCE (Conversation.message_count c') 0) <= MAX_SAFE_INTEGER
      /\ Z.abs (COALESCE (Conversation.total_tokens c') 0) <= MAX_SAFE_INTEGER.
Proof.
  intros C calls db db' outs c Hall _ Hc Hcount Htokens Hrun. cbv zeta.
  assert (Core : exists c',
             getConversation C db' = Some c'
             /\ messages db'
                = messages db
                  ++ map (fun call => message_values (fst call) (snd call))
                       (accepted calls outs)
             /\ Conversation.message_count c'
                = sql_add (Conversation.message_count c)
                    (Z.of_nat (List.length (accepted calls outs)))
             /\ Conversation.total_tokens c'
                = sql_add (Conversation.total_tokens c)
                    (sum_of (map Message.tokens_total
                               (map (fun call => message_values (fst call) (snd call))
                                  (accepted calls outs))))
             /\ Conversation.last_activity c'
                = last (map Message.timestamp
                          (map (fun call => message_values (fst call) (snd call))
                             (accepted calls outs)))
                       (Conversation.last_activity c)).
  { clear Hcount Htokens. revert db db' outs c Hall Hc Hrun.
    induction calls as [|[now data] calls IH]; intros db db' outs c Hall Hc Hrun.
    - simpl in Hrun. inversion Hrun; subst. simpl.
      exists c. rewrite app_nil_r, !sql_add_0. repeat split; auto.
    - inversion Hall as [|? ? HC Hall']; subst. simpl in HC.
      simpl in Hrun.
      destruct (insertMessage now data db) as [db1 o] eqn:E1.
      destruct (run_calls _ db1) as [db2 os] eqn:E2.
      inversion Hrun; subst db' outs; clear Hrun.
      destruct o as [[]|e].
      + destruct (insertMessage_getConversation _ _ _ _ _ HC E1) as [Hg Hm].
        rewrite Hc in Hg. simpl in Hg.
        destruct (IH _ _ _ _ Hall' Hg E2) as (c' & G & M' & Cn & Tk & La).
        exists c'. simpl accepted. cbn [map List.length sum_of fold_right].
        split; [exact G|]. split.
        { rewrite M', Hm, <- app_assoc. reflexivity. }
        split.
        { rewrite Cn. simpl Conversation.message_count. rewrite sql_add_assoc.
          f_equal. lia. }
        split.
        { rewrite Tk. simpl Conversation.total_tokens. rewrite sql_add_assoc.
          reflexivity. }
        rewrite La. simpl Conversation.last_activity.
        rewrite last_cons_default. reflexivity.
      + destruct (insertMessage_atomic now data db) as [[e' He] | Hr];
          rewrite E1 in *; [|discriminate].
        inversion He; subst db1.
        destruct (IH _ _ _ _ Hall' Hc E2) as (c' & G & M' & Cn & Tk & La).
        exists c'. simpl accepted. auto. }
  destruct Core as (c' & G & M' & Cn & Tk & La).
  exists c'. rewrite length_map.
  split; [exact G|]. split; [exact M'|]. split; [exact Cn|]. split; [exact Tk|].
  split; [exact La|].
  pose proof (accepted_length calls outs) as L.
  pose proof (tokens_accepted_bound calls outs) as T.
  rewrite Cn, Tk.
  destruct (Conversation.message_count c), (Conversation.total_tokens c);
    simpl in *; unfold MAX_SAFE_INTEGER in *; split; lia.
Qed.

(** A run of the amended C1: the scenario of the specification.
    Conversation [c1] is created without counts; three messages with 10,
    20 and 30 tokens at times 100, 101 and 102 give 3 messages, 60 tokens
    and a last activity of 102. *)
Lemma C1_witness_three_messages :
  let c1 := [ ("id", Str "c1"); ("platform", Str "x");
              ("started_at", Num 100); ("last_activity", Num 100) ] in
  let message i t tokens :=
    [ ("id", Str i); ("conversation_id", Str "c1"); ("timestamp", Num t);
      ("role", Str "user"); ("content", Str "hello"); ("tokens_total", Num tokens) ] in
  let calls := [ (100, message "m1" 100 10); (101, message "m2" 101 20);
                 (102, message "m3" 102 30) ] in
  let db := fst (upsertConversation 100 c1 init) in
  exists c',
    getConversation "c1"
      (fst (run_calls (map (fun call => insertMessage (fst call) (snd call)) calls) db))
    = Some c'
    /\ Conversation.message_count c' = Some 3
    /\ Conversation.total_tokens c' = Some 60
    /\ Conversation.last_activity c' = Some 102.
Proof.
  cbv zeta.
  match goal with
  | |- context [run_calls (map ?f ?calls) ?db] =>
      destruct (getConversation "c1" db) as [c|] eqn:Hc;
        [|vm_compute in Hc; discriminate];
      destruct (run_calls (map f calls) db) as [db' outs] eqn:Hrun;
      assert (Hall : Forall (fun call => TEXT (snd call).["conversation_id"] = Some "c1")
                            calls)
        by (repeat constructor);
      assert (Htyped : Forall (fun call => typed_message (snd call) = true) calls)
        by (repeat constructor);
      assert (Hcount : Z.abs (COALESCE (Conversation.message_count c) 0)
                       + Z.of_nat (List.length calls) <= MAX_SAFE_INTEGER)
        by (vm_compute in Hc; inversion Hc; subst c; vm_compute; discriminate);
      assert (Htokens : Z.abs (COALESCE (Conversation.total_tokens c) 0)
                        + tokens_bound calls <= MAX_SAFE_INTEGER)
        by (vm_compute in Hc; inversion Hc; subst c; vm_compute; discriminate);
      destruct (C1_message_inserts_accumulate "c1" calls db db' outs c Hall Htyped Hc
                  Hcount Htokens Hrun)
        as (c' & G & _ & Cn & Tk & La & _)
  end.
  exists c'. simpl fst. split; [exact G|].
  vm_compute in Hc. inversion Hc; subst c; clear Hc.
  vm_compute in Hrun. inversion Hrun; subst db' outs; clear Hrun.
  repeat split; [exact Cn | exact Tk | exact La].
Defined.

(* ------------------------------------------------------------------ *)
(** ** The scenarios of [database.test.js] *)

Example test_should_update_existing_conversation :
  let data := [ ("id", Str "conv-123"); ("platform", Str "chatgpt");
                ("started_at", Num 1000); ("last_activity", Num 1000);
                ("message_count", Num 5) ] in
  let db := fst (run_calls [ upsertConversation 1000 data;
                             upsertConversation 1001 (("message_count", Num 10) :: data) ]
                           init) in
  option_map Conversation.message_count (getConversation "conv-123" db) = Some (Some 10)
  /\ List.length (conversations db) = 1%nat.
Proof. split; reflexivity. Qed.

Example test_should_insert_a_message :
  let db := fst (run_calls
                   [ upsertConversation 1000
                       [ ("id", Str "conv-123"); ("platform", Str "chatgpt");
                         ("started_at", Num 1000); ("last_activity", Num 1000) ];
                     insertMessage 1001
                       [ ("id", Str "msg-123"); ("conversation_id", Str "conv-123");
                         ("timestamp", Num 1001); ("role", Str "user");
                         ("content", Str "Hello, world!"); ("visible_to_user", Bool true);
                         ("message_position", Num 0); ("tokens_total", Num 10) ] ]
                   init) in
  map Message.visible_content (messages_of "conv-123" db) = [Some "Hello, world!"]
  /\ map Message.role (messages_of "conv-123" db) = [Some "user"]
  /\ option_map Conversation.message_count (getConversation "conv-123" db) = Some (Some 1)
  /\ option_map Conversation.total_tokens (getConversation "conv-123" db) = Some (Some 10).
Proof. repeat split; reflexivity. Qed.

Example test_should_insert_API_capture :
  let db := fst (run_calls
                   [ upsertConversation 1000
                       [ ("id", Str "conv-123"); ("platform", Str "chatgpt");
                         ("started_at", Num 1000); ("last_activity", Num 1000) ];
                     insertMessage 1001
                       [ ("id", Str "msg-123"); ("conversation_id", Str "conv-123");
                         ("timestamp", Num 1001); ("role", Str "assistant");
                         ("content", Str "Response") ];
                     insertApiCapture 1002
                       [ ("id", Str "api-123"); ("message_id", Str "msg-123");
                         ("timestamp", Num 1002);
                         ("request_url", Str "https://api.openai.com/v1/chat/completions");
                         ("model", Str "gpt-4");
                         ("system_prompts", Arr [Str "You are helpful"]) ] ]
                   init) in
  option_map ApiCapture.model (getApiCapture "msg-123" db) = Some (Some "gpt-4").
Proof. reflexivity. Qed.

(* ------------------------------------------------------------------ *)
(** ** Foreign keys *)

Lemma init_foreign_keys : foreign_keys init = true.
Proof. reflexivity. Qed.

(** No statement of the store changes the pragma. *)
Lemma foreign_keys_kept (sha256 : string -> string) (now : Z) (uuid : string)
    (data : object) (db : Database) :
  foreign_keys (fst (upsertConversation now data db)) = foreign_keys db
  /\ foreign_keys (fst (insertMessage now data db)) = foreign_keys db
  /\ foreign_keys (fst (insertApiCapture now data db)) = foreign_keys db
  /\ foreign_keys (fst (upsertSystemPrompt sha256 now uuid data db)) = foreign_keys db
  /\ foreign_keys (fst (insertStreamingChunk data db)) = foreign_keys db.
Proof.
  repeat split.
  - unfold upsertConversation, conversations_upsert.
    destruct (first_error _); [reflexivity|]. destruct (existsb _ _); reflexivity.
  - destruct (insertMessage_atomic now data db) as [[e H] | H]; rewrite H; reflexivity.
  - unfold insertApiCapture, api_captures_insert.
    destruct (first_error _); [reflexivity|]. destruct (existsb _ _); [reflexivity|].
    destruct (references _ _ _ _); reflexivity.
  - unfold upsertSystemPrompt. destruct (data.["prompt_text"]); try reflexivity.
    unfold system_prompts_upsert.
    destruct (first_error _); [reflexivity|]. destruct (existsb _ _); [reflexivity|].
    destruct (existsb _ _); reflexivity.
  - unfold insertStreamingChunk, streaming_chunks_insert.
    destruct (first_error _); [reflexivity|]. destruct (existsb _ _); [reflexivity|].
    destruct (references _ _ _ _); reflexivity.
Qed.

Lemma existsb_false_forall {R} (p : R -> bool) (t : list R) :
  (forall r, In r t -> p r = false) -> existsb p t = false.
Proof.
  induction t as [|r t IH]; intros H; simpl; [reflexivity|].
  rewrite (H r (or_introl eq_refl)), IH; [reflexivity|].
  intros r' Hr'. apply H. right. exact Hr'.
Qed.

(** A key read by [TEXT] is the key [stored_text] gives. *)
Lemma TEXT_stored_text (real_to_text : Z -> string) (v : value) (k : string) :
  TEXT v = Some k -> stored_text real_to_text v = Some k.
Proof. destruct v; simpl; intros H; try discriminate. exact H. Qed.

Lemma key_eqb_TEXT (real_to_text : Z -> string) (a : option string) (v : value) :
  key_eqb a (stored_text real_to_text v) = false -> key_eqb a (TEXT v) = false.
Proof.
  destruct (TEXT v) as [k|] eqn:E.
  - rewrite (TEXT_stored_text real_to_text v k E). auto.
  - intros _. destruct a; reflexivity.
Qed.

Lemma stored_TEXT {R} (real_to_text : Z -> string) (parent : list R)
    (pk : R -> option string) (v : value) :
  stored parent pk (TEXT v) -> stored parent pk (stored_text real_to_text v).
Proof.
  destruct (TEXT v) as [k|] eqn:E.
  - rewrite (TEXT_stored_text real_to_text v k E). auto.
  - unfold stored. intros H. exfalso.
    rewrite existsb_false_forall in H; [discriminate|].
    intros r _. destruct (pk r); reflexivity.
Qed.



(* ------------------------------------------------------------------ *)
(** ** [upsertConversation] on a conflict *)

Lemma same_unassigned_columns_refl (c : Conversation.row) : same_unassigned_columns c c.
Proof. repeat split. Qed.

(** C9: the conversation upsert, on a conflict, assigns four columns.
    For every call of [upsertConversation] whose id is the id of a
    stored conversation, whether the call returns or throws, every
    other table is unchanged and the conversation rows correspond one to
    one: a row with another id is unchanged, and the row with the id
    keeps every column but [last_activity], [message_count],
    [total_tokens] and [metadata], in particular [started_at] and
    [platform]. *)
Theorem C9_upsert_conflict_frame :
  forall (now : Z) (data : object) (db db' : Database) (o : outcome unit) (k : string),
    TEXT data.["id"] = Some k ->
    getConversation k db <> None ->
    upsertConversation now data db = (db', o) ->
    messages db' = messages db
    /\ api_captures db' = api_captures db
    /\ system_prompts db' = system_prompts db
    /\ streaming_chunks db' = streaming_chunks db
    /\ Forall2 (fun c c' =>
                  same_unassigned_columns c c'
                  /\ (key_eqb (Conversation.id c) (Some k) = false -> c' = c))
               (conversations db) (conversations db').
Proof.
  intros now data db db' o k Hk Hex H.
  assert (Hrefl : forall t : list Conversation.row,
             Forall2 (fun c c' => same_unassigned_columns c c'
                                  /\ (key_eqb (Conversation.id c) (Some k) = false -> c' = c))
                     t t).
  { induction t; constructor; auto using same_unassigned_columns_refl. }
  unfold upsertConversation, conversations_upsert in H.
  destruct (first_error _).
  { inversion H; subst. repeat split; auto. }
  simpl Conversation.id in H. rewrite Hk in H.
  destruct (existsb _ (conversations db)) eqn:E.
  - inversion H; subst db' o; clear H. simpl. repeat split.
    unfold update_where. clear E Hex.
    induction (conversations db) as [|c t IH]; simpl; constructor; [|exact IH].
    destruct (key_eqb (Conversation.id c) (Some k)) eqn:Ec.
    + split; [repeat split | discriminate].
    + split; [apply same_unassigned_columns_refl | reflexivity].
  - exfalso. apply Hex. unfold getConversation, select_first.
    destruct (find _ _) as [c|] eqn:F; [|reflexivity].
    apply find_some in F as [Hin Hc].
    assert (existsb (fun c => key_eqb (Conversation.id c) (Some k)) (conversations db) = true)
      by (apply existsb_exists; eauto).
    congruence.
Qed.

(** A run of C9: conversation [conv-123] is stored with platform
    [chatgpt] and start time 5; an upsert of the same id with platform
    [claude], start time 99 and ten messages returns, and the row keeps
    its platform and start time and now counts ten messages. *)
Lemma C9_witness_update_existing :
  let first := [ ("id", Str "conv-123"); ("platform", Str "chatgpt");
                 ("started_at", Num 5); ("last_activity", Num 5);
                 ("message_count", Num 5) ] in
  let second := [ ("id", Str "conv-123"); ("platform", Str "claude");
                  ("started_at", Num 99); ("last_activity", Num 99);
                  ("message_count", Num 10) ] in
  let db := fst (upsertConversation 5 first init) in
  let db' := fst (upsertConversation 99 second db) in
  Forall2 (fun c c' =>
             same_unassigned_columns c c'
             /\ (key_eqb (Conversation.id c) (Some "conv-123") = false -> c' = c))
          (conversations db) (conversations db')
  /\ option_map Conversation.platform (getConversation "conv-123" db') = Some (Some "chatgpt")
  /\ option_map Conversation.started_at (getConversation "conv-123" db') = Some (Some 5)
  /\ option_map Conversation.message_count (getConversation "conv-123" db') = Some (Some 10).
Proof.
  cbv zeta. split; [|repeat split; reflexivity].
  match goal with
  | |- Forall2 _ (conversations ?db) (conversations (fst (upsertConversation ?n ?d ?db))) =>
      destruct (upsertConversation n d db) as [db' o] eqn:E;
      destruct (C9_upsert_conflict_frame n d db db' o "conv-123") as (_ & _ & _ & _ & F);
      [reflexivity | vm_compute; discriminate | exact E | exact F]
  end.
Defined.

(* ------------------------------------------------------------------ *)
(** ** [upsertSystemPrompt] counts occurrences *)

Lemma filter_update_where {R} (p : R -> bool) (f : R -> R) (t : list R) :
  (forall r, p (f r) = p r) ->
  filter p (update_where p f t) = map f (filter p t).
Proof.
  intros Hp. unfold update_where.
  induction t as [|r t IH]; simpl; [reflexivity|].
  destruct (p r) eqn:E.
  - rewrite Hp, E. simpl. f_equal. exact IH.
  - rewrite E. exact IH.
Qed.

Lemma filter_nil_existsb {R} (p : R -> bool) (t : list R) :
  filter p t = [] -> existsb p t = false.
Proof.
  induction t as [|r t IH]; simpl; [reflexivity|].
  destruct (p r); [discriminate | exact IH].
Qed.

Lemma existsb_false_filter {R} (p : R -> bool) (t : list R) :
  existsb p t = false -> filter p t = [].
Proof.
  induction t as [|r t IH]; simpl; [reflexivity|].
  destruct (p r); [discriminate | exact IH].
Qed.

Lemma filter_cons_existsb {R} (p : R -> bool) (t : list R) (r : R) (rs : list R) :
  filter p t = r :: rs -> existsb p t = true.
Proof.
  intros H. apply existsb_exists. exists r.
  assert (Hin : In r (filter p t)) by (rewrite H; left; reflexivity).
  apply filter_In in Hin. exact Hin.
Qed.

Lemma key_neqb_refl (a : option string) : key_neqb a a = false.
Proof. destruct a; simpl; [rewrite String.eqb_refl|]; reflexivity. Qed.

Lemma last_map {A B} (f : A -> B) (l : list A) (d : A) :
  last (map f l) (f d) = f (last l d).
Proof.
  induction l as [|x l IH]; [reflexivity|].
  destruct l as [|y l]; [reflexivity|]. exact IH.
Qed.

Section Prompts.

Variable sha256 : string -> string.

Let conflict (text : string) (r : SystemPrompt.row) : bool :=
  key_eqb (SystemPrompt.prompt_hash r) (Some (sha256 text)).

Lemma observes_not_null (text : string) (call : Z * string * object) :
  observes text call ->
  first_error
    [ not_null "system_prompts.platform" (SystemPrompt.platform (proposes sha256 text call));
      not_null "system_prompts.prompt_text"
        (SystemPrompt.prompt_text (proposes sha256 text call));
      not_null "system_prompts.prompt_hash"
        (SystemPrompt.prompt_hash (proposes sha256 text call));
      not_null "system_prompts.first_seen"
        (SystemPrompt.first_seen (proposes sha256 text call));
      not_null "system_prompts.last_seen"
        (SystemPrompt.last_seen (proposes sha256 text call)) ] = None.
Proof.
  destruct call as [[now uuid] data]. intros (_ & Hp & Hf & Hl & _). simpl.
  destruct (TEXT data.["platform"]); [|congruence].
  destruct (INTEGER _); [|congruence].
  destruct (INTEGER _); [|congruence]. reflexivity.
Qed.

(** The first observation inserts the row; the trigger finds no other
    row with the hash. *)
Lemma upsert_first (text : string) (call : Z * string * object) (db : Database) :
  observes text call ->
  prompts_with_hash (sha256 text) db = [] ->
  existsb (fun r => key_eqb (SystemPrompt.id r) (SystemPrompt.id (proposes sha256 text call)))
          (system_prompts db) = false ->
  exists db',
    upsert_call sha256 call db = (db', Returns tt)
    /\ prompts_with_hash (sha256 text) db' = [proposes sha256 text call].
Proof.
  intros Hobs Hnone Hfresh.
  pose proof (observes_not_null text call Hobs) as Hnn.
  destruct call as [[now uuid] data]. destruct Hobs as (Htext & _).
  unfold upsert_call, upsertSystemPrompt. rewrite Htext.
  unfold system_prompts_upsert. simpl proposes in Hnn, Hfresh. rewrite Hnn.
  apply filter_nil_existsb in Hnone.
  change (existsb _ (system_prompts db))
    with (existsb (conflict text) (system_prompts db)) at 1.
  unfold conflict. rewrite Hnone, Hfresh.
  eexists. split; [reflexivity|].
  unfold prompts_with_hash. simpl system_prompts.
  unfold update_system_prompt_occurrence. rewrite update_where_none.
  - rewrite filter_app, (existsb_false_filter _ _ Hnone).
    simpl. rewrite String.eqb_refl. reflexivity.
  - rewrite existsb_app. apply orb_false_iff. split.
    + apply existsb_false_forall. intros r Hr.
      apply andb_false_iff. left.
      destruct (key_eqb (SystemPrompt.prompt_hash r) _) eqn:E; [|reflexivity].
      exfalso. rewrite <- Bool.not_true_iff_false in Hnone. apply Hnone.
      apply existsb_exists. exists r. split; [exact Hr | exact E].
    + simpl. rewrite key_neqb_refl, andb_false_r. reflexivity.
Qed.

(** A later observation takes the [DO UPDATE] on the one row. *)
Lemma upsert_again (text : string) (call : Z * string * object) (db : Database)
    (row : SystemPrompt.row) :
  observes text call ->
  prompts_with_hash (sha256 text) db = [row] ->
  exists db',
    upsert_call sha256 call db = (db', Returns tt)
    /\ prompts_with_hash (sha256 text) db'
       = [system_prompt_do_update (proposes sha256 text call) row].
Proof.
  intros Hobs Hone.
  pose proof (observes_not_null text call Hobs) as Hnn.
  destruct call as [[now uuid] data]. destruct Hobs as (Htext & _).
  unfold upsert_call, upsertSystemPrompt. rewrite Htext.
  unfold system_prompts_upsert. simpl proposes in Hnn |- *. rewrite Hnn.
  change (existsb _ (system_prompts db))
    with (existsb (conflict text) (system_prompts db)) at 1.
  unfold conflict. rewrite (filter_cons_existsb _ _ _ _ Hone).
  eexists. split; [reflexivity|].
  unfold prompts_with_hash in *. simpl system_prompts.
  change (fun r => key_eqb (SystemPrompt.prompt_hash r)
                     (SystemPrompt.prompt_hash (system_prompt_values sha256 now uuid data text)))
    with (fun r => key_eqb (SystemPrompt.prompt_hash r) (Some (sha256 text))).
  rewrite filter_update_where by reflexivity. rewrite Hone. reflexivity.
Qed.

Lemma upserts_again (text : string) (calls : list (Z * string * object)) :
  forall (db db' : Database) (outs : list (outcome unit)) (row : SystemPrompt.row),
    Forall (observes text) calls ->
    prompts_with_hash (sha256 text) db = [row] ->
    run_calls (map (upsert_call sha256) calls) db = (db', outs) ->
    Forall (fun o => o = Returns tt) outs
    /\ exists row',
        prompts_with_hash (sha256 text) db' = [row']
        /\ SystemPrompt.occurrence_count row'
           = sql_add (SystemPrompt.occurrence_count row) (Z.of_nat (List.length calls))
        /\ SystemPrompt.prompt_text row' = SystemPrompt.prompt_text row
        /\ SystemPrompt.first_seen row' = SystemPrompt.first_seen row
        /\ SystemPrompt.last_seen row'
           = last (map (fun c => SystemPrompt.last_seen (proposes sha256 text c)) calls)
                  (SystemPrompt.last_seen row).
Proof.
  induction calls as [|call calls IH]; intros db db' outs row Hall Hone Hrun.
  - simpl in Hrun. inversion Hrun; subst. split; [constructor|].
    exists row. rewrite sql_add_0. auto.
  - inversion Hall as [|? ? Hobs Hall']; subst.
    destruct (upsert_again text call db row Hobs Hone) as (db1 & E1 & Hone1).
    simpl in Hrun. rewrite E1 in Hrun.
    destruct (run_calls _ db1) as [db2 os] eqn:E2.
    inversion Hrun; subst db' outs; clear Hrun.
    destruct (IH _ _ _ _ Hall' Hone1 E2) as (Hret & row' & G & Cn & Tx & Fs & Ls).
    split; [constructor; [reflexivity | exact Hret]|].
    exists row'. split; [exact G|]. split.
    { rewrite Cn. simpl SystemPrompt.occurrence_count. rewrite sql_add_assoc.
      f_equal. simpl List.length. lia. }
    split; [rewrite Tx; reflexivity|]. split; [rewrite Fs; reflexivity|].
    rewrite Ls. simpl SystemPrompt.last_seen. simpl map.
    rewrite last_cons_default. reflexivity.
Qed.

(** C4: identical prompts are counted on one row.  Starting from a
    database that holds no prompt with the hash of [text], [K >= 1] calls
    of [upsertSystemPrompt] that observe [text] (a platform, and an id
    and times of the type of their column), [K] a safe integer, all
    return and leave exactly one row with that hash: its
    [occurrence_count] is [K], its [prompt_text] is [text], its
    [first_seen] is what the first call recorded and its [last_seen] is
    what the last call supplied; a conflicting upsert never assigns
    [prompt_text] or [first_seen]. *)
Theorem C4_identical_prompts_counted_once :
  forall (text : string) (call : Z * string * object) (calls : list (Z * string * object))
         (db db' : Database) (outs : list (outcome unit)),
    Forall (observes text) (call :: calls) ->
    Z.of_nat (List.length (call :: calls)) <= MAX_SAFE_INTEGER ->
    prompts_with_hash (sha256 text) db = [] ->
    existsb (fun r => key_eqb (SystemPrompt.id r)
                              (SystemPrompt.id (proposes sha256 text call)))
            (system_prompts db) = false ->
    run_calls (map (upsert_call sha256) (call :: calls)) db = (db', outs) ->
    Forall (fun o => o = Returns tt) outs
    /\ (exists row,
           prompts_with_hash (sha256 text) db' = [row]
           /\ SystemPrompt.occurrence_count row
              = Some (Z.of_nat (List.length (call :: calls)))
           /\ SystemPrompt.prompt_text row = Some text
           /\ SystemPrompt.first_seen row
              = SystemPrompt.first_seen (proposes sha256 text call)
           /\ SystemPrompt.last_seen row
              = SystemPrompt.last_seen (proposes sha256 text (last calls call)))
    /\ (forall excluded r,
           SystemPrompt.prompt_text (system_prompt_do_update excluded r)
           = SystemPrompt.prompt_text r
           /\ SystemPrompt.first_seen (system_prompt_do_update excluded r)
              = SystemPrompt.first_seen r).
Proof.
  intros text call calls db db' outs Hall _ Hnone Hfresh Hrun.
  inversion Hall as [|? ? Hobs Hall']; subst.
  destruct (upsert_first text call db Hobs Hnone Hfresh) as (db1 & E1 & Hone1).
  simpl in Hrun. rewrite E1 in Hrun.
  destruct (run_calls _ db1) as [db2 os] eqn:E2.
  inversion Hrun; subst db' outs; clear Hrun.
  destruct (upserts_again text calls _ _ _ _ Hall' Hone1 E2)
    as (Hret & row & G & Cn & Tx & Fs & Ls).
  split; [constructor; [reflexivity | exact Hret]|].
  split; [|intros; split; reflexivity].
  exists row. split; [exact G|]. split.
  { rewrite Cn. destruct call as [[now uuid] data].
    cbn [proposes system_prompt_values SystemPrompt.occurrence_count INTEGER
         sql_add option_map List.length].
    f_equal. lia. }
  split.
  { rewrite Tx. destruct call as [[now uuid] data]. reflexivity. }
  split; [exact Fs|].
  rewrite Ls.
  rewrite (last_map (fun c => SystemPrompt.last_seen (proposes sha256 text c))).
  reflexivity.
Qed.

End Prompts.

(** A run of C4: the scenario of the specification.  Prompt ["P"] of
    platform ["x"] is upserted at times 10, 20 and 30 (the hash taken as
    the text itself): one row, counting 3, first seen at 10, last seen
    at 30. *)
Lemma C4_witness_three_upserts :
  let P := [ ("platform", Str "x"); ("prompt_text", Str "P") ] in
  let calls := [ (10, "uuid-1", P); (20, "uuid-2", P); (30, "uuid-3", P) ] in
  let db' := fst (run_calls (map (upsert_call (fun s => s)) calls) init) in
  exists row,
    prompts_with_hash "P" db' = [row]
    /\ system_prompts db' = [row]
    /\ SystemPrompt.occurrence_count row = Some 3
    /\ SystemPrompt.prompt_text row = Some "P"
    /\ SystemPrompt.first_seen row = Some 10
    /\ SystemPrompt.last_seen row = Some 30.
Proof.
  cbv zeta.
  match goal with
  | |- context [run_calls (map ?f (?call :: ?calls)) ?db] =>
      destruct (run_calls (map f (call :: calls)) db) as [db' outs] eqn:Hrun;
      destruct (C4_identical_prompts_counted_once (fun s => s) "P" call calls db db' outs)
        as (_ & (row & G & Cn & Tx & Fs & Ls) & _);
      [ repeat constructor; simpl; discriminate | vm_compute; discriminate
      | reflexivity | reflexivity | exact Hrun | ]
  end.
  exists row. simpl fst.
  vm_compute in Hrun. inversion Hrun; subst db' outs; clear Hrun.
  vm_compute in G. inversion G; subst row; clear G.
  repeat split.
Defined.

End StoreProofs.

(* ================================================================== *)
(** * Properties of the ingestion server *)
(* ================================================================== *)

Module ServerProofs.

Import Store Server.

Lemma silent_ret {A} (a : A) : silent (ret a).
Proof. intros w. reflexivity. Qed.

Lemma silent_throw {A} (e : Error) : silent (@throw World A e).
Proof. intros w. reflexivity. Qed.

Lemma silent_db {A} (m : Store.M A) : silent (db m).
Proof. intros w. unfold db. destruct (m (database w)). reflexivity. Qed.

Lemma silent_bind {A B} (m : ST World A) (k : A -> ST World B) :
  silent m -> (forall a, silent (k a)) -> silent (bind m k).
Proof.
  intros Hm Hk w. unfold bind. specialize (Hm w).
  destruct (m w) as [w1 [a|e]]; simpl in *; [|exact Hm].
  rewrite Hk. exact Hm.
Qed.

Lemma silent_properties (property : string) (data : value) :
  silent (@properties World property data).
Proof. destruct data; intros w; reflexivity. Qed.

Create HintDb silent.
#[local] Hint Resolve silent_ret silent_throw silent_db silent_properties : silent.

Ltac silent := repeat (apply silent_bind; [|intros ?]); auto with silent.

Section Switch.

Variable rt : Runtime.
Variable this : Methods.
Hypothesis this_quiet : quiet this.

(** On an open connection the [switch] sends its replies, and only when
    it returns; a handler that throws has sent nothing. *)
Lemma dispatch_on_sent (message : object) (w w1 : World) (o : outcome unit) :
  readyState (ws w) = OPEN ->
  dispatch_on rt this message w = (w1, o) ->
  readyState (ws w1) = OPEN
  /\ match o with
     | Returns _ => sent (ws w1) = sent (ws w) ++ replies rt message
     | Throws _ => sent (ws w1) = sent (ws w)
     end.
Proof.
  intros Hopen H. unfold dispatch_on, replies in *.
  destruct (this_quiet message.["data"]) as (H1 & H2 & H3 & H4 & H5).
  assert (Hsilent : forall m : ST World unit, silent m -> m w = (w1, o) ->
            readyState (ws w1) = OPEN /\ sent (ws w1) = sent (ws w)).
  { intros m Hm E. specialize (Hm w). rewrite E in Hm. simpl in Hm.
    rewrite Hm. auto. }
  assert (Hsame : forall m : ST World unit, silent m -> m w = (w1, o) ->
            readyState (ws w1) = OPEN
            /\ match o with
               | Returns _ => sent (ws w1) = sent (ws w) ++ []
               | Throws _ => sent (ws w1) = sent (ws w)
               end).
  { intros m Hm E. destruct (Hsilent m Hm E) as [R S]. split; [exact R|].
    destruct o; [rewrite app_nil_r|]; exact S. }
  assert (Hping : forall literal,
            strict_eq message.["type"] literal = true ->
            String.eqb literal "ping" = false ->
            strict_eq message.["type"] "ping" = false).
  { intros literal T N. destruct (message.["type"]); try reflexivity. simpl in *.
    apply String.eqb_eq in T. subst. exact N. }
  destruct (strict_eq message.["type"] "conversation") eqn:T1;
    [rewrite (Hping _ T1 eq_refl); eauto|].
  destruct (strict_eq message.["type"] "message") eqn:T2;
    [rewrite (Hping _ T2 eq_refl); eauto|].
  destruct (strict_eq message.["type"] "api_capture") eqn:T3;
    [rewrite (Hping _ T3 eq_refl); eauto|].
  destruct (strict_eq message.["type"] "system_prompt") eqn:T4;
    [rewrite (Hping _ T4 eq_refl); eauto|].
  destruct (strict_eq message.["type"] "streaming_chunk") eqn:T5;
    [rewrite (Hping _ T5 eq_refl); eauto|].
  destruct (strict_eq message.["type"] "ping") eqn:T6.
  - unfold send in H. rewrite Hopen in H. inversion H; subst. simpl. auto.
  - apply (Hsame (ret tt)); [apply silent_ret | exact H].
Qed.

End Switch.

(** C2, as amended: one acknowledgment when the dispatch returns, one
    error notification and no acknowledgment when it throws.  Whatever
    the handlers do for an envelope, short of touching the connection
    (the server's own never do, [methods_quiet]): for every message
    received on an open connection, [handleMessage] returns and the
    connection stays open.  When the dispatch of the envelope returned
    (also for an unknown type), what was sent is the replies of the
    switch (a pong for a ping) followed by exactly one
    [{type: "ack", messageId, timestamp}] with the envelope's id.  When
    it threw, what was sent is exactly one
    [{type: "error", error, timestamp}] with the failure's message. *)
Theorem C2_ack_on_success_error_on_failure :
  forall (rt : Runtime) (this : Methods) (message : value) (w : World),
    quiet this ->
    readyState (ws w) = OPEN ->
    exists w',
      handleMessage_on rt this message w = (w', Returns tt)
      /\ readyState (ws w') = OPEN
      /\ match dispatched_on rt this message w with
         | (w1, Returns envelope) =>
             database w' = database w1
             /\ sent (ws w') = sent (ws w) ++ replies rt envelope ++ [ack rt envelope]
         | (w1, Throws err) =>
             database w' = database w1
             /\ sent (ws w') = sent (ws w) ++ [error_notification rt err]
         end.
Proof.
  intros rt this message w Hquiet Hopen.
  unfold handleMessage_on, dispatched_on, try_catch, bind.
  destruct (properties "type" message w) as [w0 [m|e]] eqn:P.
  - assert (w0 = w) by (destruct message; simpl in P; inversion P; reflexivity).
    subst w0.
    destruct (dispatch_on rt this m w) as [w1 [[]|e]] eqn:D;
      destruct (dispatch_on_sent rt this Hquiet m w w1 _ Hopen D) as [R S].
    + unfold ret, send. rewrite R. eexists. split; [reflexivity|].
      simpl. rewrite S, <- app_assoc. auto.
    + unfold sendError, send. rewrite R. eexists. split; [reflexivity|].
      simpl. rewrite S. auto.
  - assert (w0 = w) by (destruct message; simpl in P; inversion P; reflexivity).
    subst w0.
    unfold sendError, send. rewrite Hopen. eexists. split; [reflexivity|].
    simpl. auto.
Qed.

Section Handlers.

Variable sha256 : string -> string.
Variable rt : Runtime.

Lemma silent_store_system_prompts (data : object) (prompts : list value) :
  forall i, silent (store_system_prompts sha256 rt data i prompts).
Proof. induction prompts as [|p prompts IH]; intros i; simpl; silent. Qed.

Lemma silent_handlers (data : value) :
  silent (handleConversation rt data)
  /\ silent (handleUserMessage rt data)
  /\ silent (handleApiCapture sha256 rt data)
  /\ silent (handleSystemPrompt sha256 rt data)
  /\ silent (handleStreamingChunk rt data).
Proof.
  repeat split.
  - unfold handleConversation. silent.
  - unfold handleUserMessage. silent.
  - unfold handleApiCapture. silent.
    destruct (JS.items_of _); [apply silent_store_system_prompts | apply silent_throw].
  - unfold handleSystemPrompt. silent.
  - unfold handleStreamingChunk. silent.
Qed.

(** The server's handlers never touch the connection. *)
Lemma methods_quiet : quiet (methods sha256 rt).
Proof. intros data. exact (silent_handlers data). Qed.

Lemma dispatch_sent (message : object) (w w1 : World) (o : outcome unit) :
  readyState (ws w) = OPEN ->
  dispatch sha256 rt message w = (w1, o) ->
  readyState (ws w1) = OPEN
  /\ match o with
     | Returns _ => sent (ws w1) = sent (ws w) ++ replies rt message
     | Throws _ => sent (ws w1) = sent (ws w)
     end.
Proof. apply dispatch_on_sent, methods_quiet. Qed.

End Handlers.

(** A run of the amended C2: on an open connection the server answers
    a ping by a pong and then acknowledges it, under the ping's id. *)
Lemma C2_witness_ping :
  let rt := mkRuntime 7 (fun _ => "uuid") in
  let w := mkWorld init (mkWebSocket OPEN []) in
  let ping := Obj [("type", Str "ping"); ("id", Str "p1")] in
  exists w',
    handleMessage (fun s => s) rt ping w = (w', Returns tt)
    /\ readyState (ws w') = OPEN
    /\ sent (ws w')
       = [ [("type", Str "pong"); ("timestamp", Num 7)];
           [("type", Str "ack"); ("messageId", Str "p1"); ("timestamp", Num 7)] ].
Proof.
  cbv zeta.
  destruct (C2_ack_on_success_error_on_failure (mkRuntime 7 (fun _ => "uuid"))
              (methods (fun s => s) (mkRuntime 7 (fun _ => "uuid")))
              (Obj [("type", Str "ping"); ("id", Str "p1")])
              (mkWorld init (mkWebSocket OPEN []))
              (methods_quiet (fun s => s) (mkRuntime 7 (fun _ => "uuid"))) eq_refl)
    as (w' & H & R & S).
  exists w'. split; [exact H|]. split; [exact R|].
  vm_compute in S. destruct S as [_ S]. exact S.
Defined.

(** C2, counterexample: envelopes whose dispatch fails get no
    acknowledgment.  On an open connection, a [conversation] envelope
    without a platform and a [message] envelope without data each make
    the server send exactly one frame, the error notification; no frame
    of type [ack] is sent for [e1] or [e2]. *)
Lemma C2_counterexample_no_ack_on_failure :
  let rt := mkRuntime 7 (fun _ => "uuid") in
  let w := mkWorld init (mkWebSocket OPEN []) in
  let e1 := Obj [ ("type", Str "conversation"); ("id", Str "e1");
                  ("data", Obj [("id", Str "c1")]) ] in
  let e2 := Obj [ ("type", Str "message"); ("id", Str "e2") ] in
  sent (ws (fst (handleMessage (fun s => s) rt e1 w)))
  = [ [ ("type", Str "error");
        ("error", Str "NOT NULL constraint failed: conversations.platform");
        ("timestamp", Num 7) ] ]
  /\ sent (ws (fst (handleMessage (fun s => s) rt e2 w)))
     = [ [ ("type", Str "error");
           ("error", Str "Cannot read properties of undefined (reading 'id')");
           ("timestamp", Num 7) ] ]
  /\ filter (fun frame => strict_eq frame.["type"] "ack")
            (sent (ws (fst (handleMessage (fun s => s) rt e1 w)))) = []
  /\ filter (fun frame => strict_eq frame.["type"] "ack")
            (sent (ws (fst (handleMessage (fun s => s) rt e2 w)))) = [].
Proof. vm_compute. repeat split; reflexivity. Qed.

(* ------------------------------------------------------------------ *)
(** ** The message handler and the aggregates *)

(** The follow-up upsert of [handleUserMessage] binds no [started_at],
    so the statement fails its NOT NULL check whatever the database
    holds. *)
Lemma follow_up_upsert_throws (now : Z) (data : object) (d : Database) :
  exists e,
    upsertConversation now
      [ ("id", data.["conversation_id"]); ("platform", data.["platform"]);
        ("last_activity", Num now);
        ("message_count", JS.succ (data.["message_position"] || Num 0)%js) ] d
    = (d, Throws e).
Proof.
  unfold upsertConversation, conversations_upsert. simpl.
  destruct (TEXT data.["platform"]); simpl; eauto.
Qed.

(** [handleUserMessage] never returns: either the insert throws, or the
    insert returns and the follow-up upsert throws; the database it
    leaves is the one [insertMessage] left. *)
Lemma handleUserMessage_throws (rt : Runtime) (data : object) (w : World) :
  exists e messageData,
    handleUserMessage rt (Obj data) w
    = (mkWorld (fst (insertMessage (Date_now rt) messageData (database w))) (ws w),
       Throws e)
    /\ messageData.["conversation_id"] = data.["conversation_id"]
    /\ messageData.["tokens_total"] = data.["tokens_total"].
Proof.
  unfold handleUserMessage, bind. simpl properties. unfold ret.
  match goal with
  | |- context [insertMessage ?n ?md] => set (messageData := md)
  end.
  unfold db at 1.
  destruct (insertMessage (Date_now rt) messageData (database w)) as [d1 [[]|e]] eqn:E.
  - unfold db. simpl database.
    destruct (follow_up_upsert_throws (Date_now rt) data d1) as [e He].
    rewrite He. exists e, messageData. rewrite E. simpl. auto.
  - exists e, messageData. rewrite E. simpl. auto.
Qed.

(** C10, at a failing input: conversation [c1] is stored with no
    messages; a [message] envelope for [c1] with [message_position: 4]
    and [tokens_total: 10] arrives.  The message row is inserted and the
    trigger counts it, then the follow-up upsert throws on
    [conversations.started_at]: the row of [c1] counts 1 message and 10
    tokens (not 5 and 0), and the server sends the error notification
    and no acknowledgment. *)
Lemma C10_follow_up_upsert_fails :
  let rt := mkRuntime 50 (fun _ => "uuid") in
  let c1 := [ ("id", Str "c1"); ("platform", Str "chatgpt");
              ("started_at", Num 10); ("last_activity", Num 10) ] in
  let w := mkWorld (fst (upsertConversation 10 c1 init)) (mkWebSocket OPEN []) in
  let envelope :=
    Obj [ ("type", Str "message"); ("id", Str "e1");
          ("data", Obj [ ("id", Str "m1"); ("conversation_id", Str "c1");
                         ("platform", Str "chatgpt"); ("timestamp", Num 20);
                         ("role", Str "user"); ("content", Str "hello");
                         ("message_position", Num 4); ("tokens_total", Num 10) ]) ] in
  let w' := fst (handleMessage (fun s => s) rt envelope w) in
  List.length (messages (database w')) = 1%nat
  /\ option_map Conversation.message_count (getConversation "c1" (database w'))
     = Some (Some 1)
  /\ option_map Conversation.total_tokens (getConversation "c1" (database w'))
     = Some (Some 10)
  /\ option_map Conversation.last_activity (getConversation "c1" (database w'))
     = Some (Some 20)
  /\ sent (ws w')
     = [ [ ("type", Str "error");
           ("error", Str "NOT NULL constraint failed: conversations.started_at");
           ("timestamp", Num 50) ] ].
Proof. vm_compute. repeat split; reflexivity. Qed.

End ServerProofs.

(* ================================================================== *)
(** * Properties of the native messaging host *)
(* ================================================================== *)

Module HostProofs.

Import Host.

Section Bridge.

Variable JSON_stringify : value -> string.
Variable JSON_parse : string -> string + value.
Variable Buffer_from : string -> list byte.
Variable Buffer_toString : list byte -> string.

#[local] Abbreviation submit := (sendMessageToDesktopApp JSON_stringify).
#[local] Abbreviation submit_all ms w := (fold_left (fun w m => submit m w) ms w).

(** ** The outbound queue *)

Lemma submit_queued (m : value) (w : World) :
  ws w <> Some OPEN ->
  submit m w = set_messageQueue (messageQueue w ++ [m]) w.
Proof.
  intros H. unfold sendMessageToDesktopApp.
  destruct (ws w) as [[]|]; try reflexivity. congruence.
Qed.

Lemma submit_all_queued (ms : list value) :
  forall w, ws w <> Some OPEN ->
    submit_all ms w = set_messageQueue (messageQueue w ++ ms) w.
Proof.
  induction ms as [|m ms IH]; intros w H; simpl.
  - rewrite app_nil_r. destruct w; reflexivity.
  - rewrite submit_queued by exact H. rewrite IH by exact H.
    simpl. rewrite <- app_assoc. reflexivity.
Qed.

Lemma submit_all_open (ms : list value) :
  forall w, ws w = Some OPEN ->
    submit_all ms w = set_to_desktop (to_desktop w ++ map JSON_stringify ms) w.
Proof.
  induction ms as [|m ms IH]; intros w H; simpl.
  - rewrite app_nil_r. destruct w; reflexivity.
  - unfold sendMessageToDesktopApp at 2. rewrite H. rewrite IH by exact H.
    simpl. rewrite <- app_assoc. reflexivity.
Qed.

Lemma send_queued_spec (queue : list value) :
  forall w,
    send_queued JSON_stringify queue w
    = set_messageQueue [] (set_to_desktop (to_desktop w ++ map JSON_stringify queue) w).
Proof.
  induction queue as [|m queue IH]; intros w; simpl.
  - rewrite app_nil_r. destruct w; reflexivity.
  - rewrite IH. simpl. rewrite <- app_assoc. reflexivity.
Qed.

(** C7: messages submitted while the socket is not open are queued,
    and the open handler sends the queue in order before anything else.
    For every state whose socket is not open (absent, or still
    connecting) and all messages [before] and [after]: submitting
    [before] appends them to [messageQueue] in order and hands nothing to
    the socket; the open handler then empties the queue and hands its
    messages to the socket in enqueue order; messages submitted after
    that follow them on the socket. *)
Theorem C7_queue_drained_in_order :
  forall (w : World) (before after : list value),
    ws w <> Some OPEN ->
    let w1 := submit_all before w in
    let w2 := on_open JSON_stringify w1 in
    let w3 := submit_all after w2 in
    (messageQueue w1 = messageQueue w ++ before /\ to_desktop w1 = to_desktop w)
    /\ (messageQueue w2 = []
        /\ to_desktop w2 = to_desktop w ++ map JSON_stringify (messageQueue w ++ before))
    /\ (messageQueue w3 = []
        /\ to_desktop w3
           = to_desktop w ++ map JSON_stringify (messageQueue w ++ before ++ after)).
Proof.
  intros w before after H. cbv zeta.
  rewrite (submit_all_queued before w H).
  unfold on_open. rewrite send_queued_spec.
  rewrite submit_all_open by reflexivity. simpl.
  repeat split; try reflexivity.
  rewrite !map_app, <- !app_assoc. reflexivity.
Qed.

(** Resuming [start()] touches only what it knows of stdin. *)
Lemma resolve_stdin (w : World) :
  exists b a r, resolve w = set_awaited a (set_stdin b r w).
Proof.
  unfold resolve. destruct (awaited w) as [socket|] eqn:A.
  - destruct (socket =? connections w)%nat.
    + eauto.
    + exists (buffered w), (awaited w), (reader w). destruct w; reflexivity.
  - exists (buffered w), (awaited w), (reader w). destruct w; reflexivity.
Qed.

(** ** Reconnecting *)

Lemma submit_keeps (m : value) (w : World) :
  ws (submit m w) = ws w
  /\ timers (submit m w) = timers w
  /\ connections (submit m w) = connections w
  /\ reconnectAttempts (submit m w) = reconnectAttempts w
  /\ maxReconnectAttempts (submit m w) = maxReconnectAttempts w.
Proof.
  unfold sendMessageToDesktopApp. destruct (ws w) as [[]|] eqn:E; simpl; auto.
Qed.

Lemma deliver_all_keeps (ss : list Settlement) :
  forall w,
    let w' := fold_left (fun w s => deliver JSON_stringify s w) ss w in
    ws w' = ws w
    /\ timers w' = timers w
    /\ connections w' = connections w
    /\ reconnectAttempts w' = reconnectAttempts w
    /\ maxReconnectAttempts w' = maxReconnectAttempts w.
Proof.
  induction ss as [|s ss IH]; intros w; simpl; [auto|].
  specialize (IH (deliver JSON_stringify s w)). simpl in IH.
  destruct IH as (A & B & C & D & E).
  rewrite A, B, C, D, E. destruct s; simpl; [apply submit_keeps | auto | auto].
Qed.

Lemma on_stdin_keeps (chunk : list byte) (w : World) :
  let w' := on_stdin JSON_stringify JSON_parse Buffer_toString chunk w in
  ws w' = ws w
  /\ timers w' = timers w
  /\ connections w' = connections w
  /\ reconnectAttempts w' = reconnectAttempts w
  /\ maxReconnectAttempts w' = maxReconnectAttempts w.
Proof.
  unfold on_stdin. destruct (reader w) as [r0|]; simpl; [|auto].
  destruct (pump _ _ _ _) as [[ss r1] rest]. simpl.
  apply deliver_all_keeps.
Qed.

(** ** The read loop hands on what [decode] lists *)

Lemma deliver_set_stdin (s : Settlement) (b : list byte) (r : option Reader) (w : World) :
  deliver JSON_stringify s (set_stdin b r w) = set_stdin b r (deliver JSON_stringify s w).
Proof.
  destruct s; simpl; try reflexivity.
  unfold sendMessageToDesktopApp. simpl. destruct (ws w) as [[]|]; reflexivity.
Qed.

Lemma deliver_all_set_stdin (ss : list Settlement) (b : list byte) (r : option Reader) :
  forall w,
    fold_left (fun w s => deliver JSON_stringify s w) ss (set_stdin b r w)
    = set_stdin b r (fold_left (fun w s => deliver JSON_stringify s w) ss w).
Proof.
  induction ss as [|s ss IH]; intros w; simpl; [reflexivity|].
  rewrite deliver_set_stdin. apply IH.
Qed.

Lemma decode_stopped (chunks : list (list byte)) (b : list byte) :
  decode JSON_parse Buffer_toString None b chunks = [].
Proof. destruct chunks; reflexivity. Qed.

(** As chunks arrive on stdin, the host delivers, in order, exactly the
    settlements [decode] lists for them. *)
Lemma on_stdin_decode (chunks : list (list byte)) :
  forall w,
    exists b r,
      fold_left (fun w chunk => on_stdin JSON_stringify JSON_parse Buffer_toString chunk w)
                chunks w
      = set_stdin b r
          (fold_left (fun w s => deliver JSON_stringify s w)
             (decode JSON_parse Buffer_toString (reader w) (buffered w) chunks) w).
Proof.
  induction chunks as [|chunk chunks IH]; intros w.
  - exists (buffered w), (reader w).
    assert (E : decode JSON_parse Buffer_toString (reader w) (buffered w) [] = [])
      by reflexivity.
    rewrite E. destruct w; reflexivity.
  - cbn [fold_left].
    destruct (IH (on_stdin JSON_stringify JSON_parse Buffer_toString chunk w)) as (b & r & E).
    rewrite E. clear E. exists b, r.
    unfold on_stdin. cbn [decode]. destruct (reader w) as [r0|].
    + destruct (pump _ _ _ _) as [[ss r1] rest]. simpl reader. simpl buffered.
      rewrite deliver_all_set_stdin, fold_left_app. destruct (fold_left _ ss w); reflexivity.
    + simpl reader. rewrite decode_stopped. simpl. destruct w; reflexivity.
Qed.

(** The host is at rest when it has no socket and no timer pending and
    has used up its reconnect attempts. *)
Lemma at_rest_kept (events : list Event) :
  forall (w w' : World),
    ws w = None ->
    timers w = [] ->
    maxReconnectAttempts w <= reconnectAttempts w ->
    forallb (fun e => negb (is_connect e)) events = true ->
    run JSON_stringify JSON_parse Buffer_from Buffer_toString events w = Some w' ->
    ws w' = None
    /\ timers w' = []
    /\ connections w' = connections w
    /\ reconnectAttempts w' = reconnectAttempts w
    /\ maxReconnectAttempts w' = maxReconnectAttempts w.
Proof.
  induction events as [|e events IH]; intros w w' Hws Ht Hmax Hall Hrun.
  - simpl in Hrun. inversion Hrun; subst. auto.
  - simpl in Hall. apply andb_true_iff in Hall as [He Hall].
    simpl in Hrun.
    destruct e; simpl in He, Hrun; try discriminate;
      try (rewrite Hws in Hrun; discriminate);
      try (rewrite Ht in Hrun; discriminate).
    + destruct (submit_keeps message w) as (A & B & C & D & E).
      destruct (IH _ _ (eq_trans A Hws) (eq_trans B Ht)
                  ltac:(rewrite D, E; exact Hmax) Hall Hrun)
        as (A' & B' & C' & D' & E').
      rewrite A', B', C', D', E'. auto.
    + destruct (fatal _ _ chunk w); [discriminate|].
      destruct (on_stdin_keeps chunk w) as (A & B & C & D & E).
      destruct (IH _ _ (eq_trans A Hws) (eq_trans B Ht)
                  ltac:(rewrite D, E; exact Hmax) Hall Hrun)
        as (A' & B' & C' & D' & E').
      rewrite A', B', C', D', E'. auto.
Qed.

(** C8: once the reconnect attempts are used up, nothing reconnects
    until [connectToDesktopApp] is called again.  When
    [reconnectAttempts] has reached [maxReconnectAttempts], the close
    handler arms no timer, opens no socket and leaves the counter as it
    is; from then on (no socket, no timer pending), whatever events
    follow other than an explicit call of [connectToDesktopApp], no
    socket is opened and no timer is armed.  The open handler sets the
    counter to zero. *)
Theorem C8_no_reconnect_after_exhaustion :
  forall (w : World),
    (maxReconnectAttempts w <= reconnectAttempts w ->
       ws (on_close w) = None
       /\ timers (on_close w) = timers w
       /\ connections (on_close w) = connections w
       /\ reconnectAttempts (on_close w) = reconnectAttempts w)
    /\ (forall events w',
          ws w = None ->
          timers w = [] ->
          maxReconnectAttempts w <= reconnectAttempts w ->
          forallb (fun e => negb (is_connect e)) events = true ->
          run JSON_stringify JSON_parse Buffer_from Buffer_toString events w = Some w' ->
          ws w' = None
          /\ timers w' = []
          /\ connections w' = connections w
          /\ reconnectAttempts w' = reconnectAttempts w)
    /\ reconnectAttempts (on_open JSON_stringify w) = 0.
Proof.
  intros w. split; [|split].
  - intros H. unfold on_close. simpl.
    destruct (reconnectAttempts w <? maxReconnectAttempts w) eqn:E.
    + apply Z.ltb_lt in E. lia.
    + simpl. auto.
  - intros events w' A B C D E.
    destruct (at_rest_kept events w w' A B C D E) as (? & ? & ? & ? & ?). auto.
  - unfold on_open. rewrite send_queued_spec. reflexivity.
Qed.

(** X20: a connection that never opens is retried exactly as often as
    the budget allows.  From a host with a socket, no timer pending and
    [k] attempts left, when the socket and each socket opened by a
    reconnect timer closes without opening, the host arms a timer [k]
    times and then is at rest: no socket, no timer, the attempts used
    up, and [k] more sockets opened. *)
Lemma retries_exhaust (k : nat) :
  forall (w : World),
    ws w <> None ->
    timers w = [] ->
    reconnectAttempts w + Z.of_nat k = maxReconnectAttempts w ->
    exists w',
      run JSON_stringify JSON_parse Buffer_from Buffer_toString
          (Close :: List.concat (repeat [Timeout; Close] k)) w = Some w'
      /\ ws w' = None
      /\ timers w' = []
      /\ reconnectAttempts w' = maxReconnectAttempts w'
      /\ maxReconnectAttempts w' = maxReconnectAttempts w
      /\ connections w' = (connections w + k)%nat.
Proof.
  induction k as [|k IH]; intros w Hws Ht Hbudget.
  - cbn [repeat List.concat run step].
    destruct (ws w) eqn:E; [|congruence].
    eexists. split; [reflexivity|]. unfold on_close. simpl.
    assert ((reconnectAttempts w <? maxReconnectAttempts w) = false) as ->
      by (apply Z.ltb_ge; lia).
    simpl. repeat split; auto; lia.
  - change (List.concat (repeat [Timeout; Close] (S k)))
      with (Timeout :: Close :: List.concat (repeat [Timeout; Close] k)).
    assert (S1 : step JSON_stringify JSON_parse Buffer_from Buffer_toString Close w
                 = Some (on_close w))
      by (simpl; destruct (ws w); [reflexivity | congruence]).
    assert (T1 : timers (on_close w) = [reconnectInterval w]
                 /\ reconnectAttempts (on_close w) = reconnectAttempts w + 1
                 /\ maxReconnectAttempts (on_close w) = maxReconnectAttempts w
                 /\ connections (on_close w) = connections w).
    { unfold on_close. simpl.
      assert ((reconnectAttempts w <? maxReconnectAttempts w) = true) as ->
        by (apply Z.ltb_lt; lia).
      simpl. rewrite Ht. auto. }
    destruct T1 as (T1 & T2 & T3 & T4).
    assert (S2 : step JSON_stringify JSON_parse Buffer_from Buffer_toString Timeout
                      (on_close w)
                 = Some (on_timeout (on_close w)))
      by (simpl; rewrite T1; reflexivity).
    destruct (IH (on_timeout (on_close w))) as (w' & R & A & B & C & D & F).
    + simpl. discriminate.
    + simpl. rewrite T1. reflexivity.
    + simpl. rewrite T2, T3. lia.
    + exists w'. split.
      * change (run JSON_stringify JSON_parse Buffer_from Buffer_toString
                    (Close :: Timeout :: Close :: List.concat (repeat [Timeout; Close] k)) w)
          with (match step JSON_stringify JSON_parse Buffer_from Buffer_toString Close w with
                | Some w1 =>
                    match step JSON_stringify JSON_parse Buffer_from Buffer_toString
                               Timeout w1 with
                    | Some w2 =>
                        run JSON_stringify JSON_parse Buffer_from Buffer_toString
                            (Close :: List.concat (repeat [Timeout; Close] k)) w2
                    | None => None
                    end
                | None => None
                end).
        rewrite S1, S2. exact R.
      * simpl in D, F. rewrite T3 in D. rewrite T4 in F.
        repeat split; auto; lia.
Qed.

End Bridge.

(* ------------------------------------------------------------------ *)
(** ** Framing *)

Lemma to_N_byte_of_N (n : N) : Byte.to_N (byte_of_N n) = (n mod 256)%N.
Proof.
  unfold byte_of_N.
  destruct (Byte.of_N (n mod 256)) as [b|] eqn:E.
  - apply Byte.to_of_N. exact E.
  - exfalso. pose proof (Byte.to_of_N_option_map (n mod 256)) as H.
    rewrite E in H. simpl in H.
    assert (L : (n mod 256 <=? 255)%N = true)
      by (apply N.leb_le; pose proof (N.mod_lt n 256); lia).
    rewrite L in H. discriminate.
Qed.

Lemma little_endian_32 (n : N) :
  (n < 2 ^ 32)%N ->
  (n mod 256 + N.shiftl (N.shiftr n 8 mod 256) 8 + N.shiftl (N.shiftr n 16 mod 256) 16
   + N.shiftl (N.shiftr n 24 mod 256) 24 = n)%N.
Proof.
  intros H. rewrite !N.shiftl_mul_pow2, !N.shiftr_div_pow2.
  change (2 ^ 8)%N with 256%N. change (2 ^ 16)%N with 65536%N.
  change (2 ^ 24)%N with 16777216%N. change (2 ^ 32)%N with 4294967296%N in H.
  zify. Z.to_euclidean_division_equations. lia.
Qed.

(** What [writeUInt32LE] writes, [readUInt32LE] reads. *)
Lemma readUInt32LE_writeUInt32LE (n : N) :
  (n < 2 ^ 32)%N ->
  exists header,
    writeUInt32LE n = Some header
    /\ List.length header = 4%nat
    /\ readUInt32LE header = n.
Proof.
  intros H. unfold writeUInt32LE.
  apply N.ltb_lt in H as Hb. rewrite Hb.
  eexists. split; [reflexivity|]. split; [reflexivity|].
  unfold readUInt32LE. rewrite !to_N_byte_of_N.
  apply little_endian_32. exact H.
Qed.

(** What one read can take fits the 32-bit header. *)
Lemma MAX_HWM_fits (n : N) : (n <= MAX_HWM)%N -> (n < 2 ^ 32)%N.
Proof.
  unfold MAX_HWM. intros H.
  assert (L : (2 ^ 30 < 2 ^ 32)%N) by reflexivity. lia.
Qed.

Lemma header_of_spec (len : nat) :
  (N.of_nat len < 2 ^ 32)%N ->
  writeUInt32LE (N.of_nat len) = Some (header_of len)
  /\ List.length (header_of len) = 4%nat
  /\ readUInt32LE (header_of len) = N.of_nat len.
Proof.
  intros H. unfold header_of.
  destruct (readUInt32LE_writeUInt32LE _ H) as (h & E & L & R).
  rewrite E. auto.
Qed.

Lemma alloc_length (n : nat) : List.length (alloc n) = n.
Proof. apply repeat_length. Qed.

Lemma copy_all (source target : list byte) :
  List.length source = List.length target -> copy source target 0 = source.
Proof.
  intros H. unfold copy. simpl. rewrite Nat.sub_0_r, <- H.
  rewrite firstn_all, skipn_all2 by lia. apply app_nil_r.
Qed.

Lemma stdin_read_ready (size : nat) (taken rest : list byte) :
  (0 < size)%nat -> (N.of_nat size <= MAX_HWM)%N -> List.length taken = size ->
  stdin_read size (taken ++ rest) = Chunk taken rest.
Proof.
  intros Hpos Hmax Hlen. unfold stdin_read.
  assert (M : (MAX_HWM <? N.of_nat size)%N = false) by (apply N.ltb_ge; exact Hmax).
  rewrite M. destruct size as [|n]; [lia|].
  assert (L : (List.length (taken ++ rest) <? S n)%nat = false)
    by (apply Nat.ltb_ge; rewrite length_app; lia).
  rewrite L, <- Hlen.
  rewrite firstn_app, firstn_all, Nat.sub_diag, firstn_O, app_nil_r.
  rewrite skipn_app, skipn_all, Nat.sub_diag, skipn_O. reflexivity.
Qed.

Lemma stdin_read_wait (size : nat) (buffered : list byte) :
  (N.of_nat size <= MAX_HWM)%N ->
  (List.length buffered < size)%nat -> stdin_read size buffered = Null.
Proof.
  intros Hmax H. unfold stdin_read.
  assert (M : (MAX_HWM <? N.of_nat size)%N = false) by (apply N.ltb_ge; exact Hmax).
  rewrite M. destruct size as [|n]; [reflexivity|].
  apply Nat.ltb_lt in H. rewrite H. reflexivity.
Qed.

Lemma stdin_read_throws (size : nat) (buffered : list byte) :
  (MAX_HWM < N.of_nat size)%N -> stdin_read size buffered = OutOfRange.
Proof.
  intros H. unfold stdin_read. apply N.ltb_lt in H. rewrite H. reflexivity.
Qed.

(** The four bytes of a header are within what one read takes. *)
Lemma header_read_fits (n : nat) : (n <= 4)%nat -> (N.of_nat n <= MAX_HWM)%N.
Proof.
  intros H. unfold MAX_HWM.
  assert (L : (4 <= 2 ^ 30)%N) by discriminate. lia.
Qed.

(** Splitting a stream that starts with [front]. *)
Lemma app_split_front (front back u tail : list byte) :
  u ++ tail = front ++ back ->
  (List.length front <= List.length u)%nat ->
  exists u', u = front ++ u' /\ back = u' ++ tail.
Proof.
  intros E L. apply app_eq_app in E as [l [[E1 E2] | [E1 E2]]].
  - exists l. auto.
  - subst front. rewrite length_app in L.
    assert (l = []) by (destruct l; [reflexivity | simpl in L; lia]).
    subst l. rewrite app_nil_r. exists []. simpl in *. rewrite app_nil_r. auto.
Qed.

Section Framing.

Variable JSON_stringify : value -> string.
Variable JSON_parse : string -> string + value.
Variable Buffer_from : string -> list byte.
Variable Buffer_toString : list byte -> string.

#[local] Abbreviation readMessageFromChrome :=
  (Host.readMessageFromChrome JSON_parse Buffer_toString).
#[local] Abbreviation readMessage := (Host.readMessage JSON_parse Buffer_toString).
#[local] Abbreviation readHeader := (Host.readHeader JSON_parse Buffer_toString).
#[local] Abbreviation settle := (Host.settle JSON_parse Buffer_toString).
#[local] Abbreviation pump := (Host.pump JSON_parse Buffer_toString).
#[local] Abbreviation frame := (sendMessageToChrome_bytes JSON_stringify Buffer_from).
#[local] Abbreviation serializable :=
  (Host.serializable JSON_stringify JSON_parse Buffer_from Buffer_toString).

(** Once the four bytes of the header are buffered, the reader goes on
    to the payload with the length they declare, whatever it is. *)
Lemma read_header (len : nat) (buffered : list byte) :
  (N.of_nat len < 2 ^ 32)%N ->
  readHeader (alloc 4) 0 (header_of len ++ buffered) = readMessage len buffered.
Proof.
  intros H. destruct (header_of_spec len H) as (_ & L & R).
  unfold Host.readHeader.
  rewrite (stdin_read_ready (4 - 0) (header_of len) buffered)
    by (try apply header_read_fits; simpl; lia).
  rewrite copy_all by (rewrite alloc_length; exact L).
  rewrite L. simpl Nat.eqb. cbv iota. rewrite R, Nat2N.id. reflexivity.
Qed.

Lemma read_payload (payload rest : list byte) :
  (0 < N.of_nat (List.length payload) <= MAX_HWM)%N ->
  readMessage (List.length payload) (payload ++ rest) = Settled (settle payload) rest.
Proof.
  intros [Hpos Hmax]. unfold Host.readMessage, readChunk.
  rewrite Nat.sub_0_r. rewrite (stdin_read_ready _ payload rest) by (auto; lia).
  rewrite copy_all by (rewrite alloc_length; reflexivity).
  simpl Nat.add. rewrite Nat.eqb_refl. reflexivity.
Qed.

Lemma read_payload_wait (len : nat) (part : list byte) :
  (N.of_nat len <= MAX_HWM)%N ->
  (List.length part < len)%nat ->
  readMessage len part = Pending (readChunk_at len (alloc len) 0) part.
Proof.
  intros Hmax H. unfold Host.readMessage, readChunk.
  rewrite Nat.sub_0_r, stdin_read_wait by assumption. reflexivity.
Qed.

(** A frame that declares more than one read takes: [stdin.read]
    throws. *)
Lemma read_payload_throws (len : nat) (buffered : list byte) :
  (MAX_HWM < N.of_nat len)%N ->
  readMessage len buffered = Thrown buffered.
Proof.
  intros H. unfold Host.readMessage, readChunk.
  rewrite Nat.sub_0_r, stdin_read_throws by exact H. reflexivity.
Qed.

(** A frame that declares no payload is never settled: [stdin.read(0)]
    is [null] whatever is buffered. *)
Lemma read_empty_payload_waits (buffered : list byte) :
  readMessage 0 buffered = Pending (readChunk_at 0 (alloc 0) 0) buffered
  /\ on_readable JSON_parse Buffer_toString (readChunk_at 0 (alloc 0) 0) buffered
     = Pending (readChunk_at 0 (alloc 0) 0) buffered.
Proof. split; reflexivity. Qed.

Lemma read_header_wait (buffered : list byte) :
  (List.length buffered < 4)%nat ->
  readHeader (alloc 4) 0 buffered = Pending (readHeader_at (alloc 4) 0) buffered.
Proof.
  intros H. unfold Host.readHeader.
  rewrite stdin_read_wait by (try apply header_read_fits; simpl; lia). reflexivity.
Qed.

(** In the executor of the promise, a read that does not throw is what
    [readMessageFromChrome] comes to. *)
Lemma readMessageFromChrome_settled (buffered rest : list byte) (s : Settlement) :
  readHeader (alloc 4) 0 buffered = Settled s rest ->
  readMessageFromChrome buffered = Settled s rest.
Proof. intros H. unfold Host.readMessageFromChrome. rewrite H. reflexivity. Qed.

Lemma readMessageFromChrome_pending (buffered rest : list byte) (r : Reader) :
  readHeader (alloc 4) 0 buffered = Pending r rest ->
  readMessageFromChrome buffered = Pending r rest.
Proof. intros H. unfold Host.readMessageFromChrome. rewrite H. reflexivity. Qed.

Lemma readMessageFromChrome_readHeader (buffered : list byte) :
  (forall rest, readHeader (alloc 4) 0 buffered <> Thrown rest) ->
  readMessageFromChrome buffered = readHeader (alloc 4) 0 buffered.
Proof.
  intros H. unfold Host.readMessageFromChrome.
  destruct (readHeader (alloc 4) 0 buffered) as [| |rest] eqn:E; try reflexivity.
  destruct (H rest eq_refl).
Qed.

(** A whole frame in the stream is read, and only the frame. *)
Lemma read_frame_header (payload rest : list byte) :
  (0 < N.of_nat (List.length payload) <= MAX_HWM)%N ->
  readHeader (alloc 4) 0 (frame_of payload ++ rest) = Settled (settle payload) rest.
Proof.
  intros Hlen. pose proof (MAX_HWM_fits _ (proj2 Hlen)) as Hmax.
  destruct (header_of_spec _ Hmax) as (W & _ & _).
  unfold frame_of. rewrite W, <- app_assoc.
  rewrite read_header by exact Hmax. apply read_payload. exact Hlen.
Qed.

Lemma read_frame (payload rest : list byte) :
  (0 < N.of_nat (List.length payload) <= MAX_HWM)%N ->
  readMessageFromChrome (frame_of payload ++ rest) = Settled (settle payload) rest.
Proof. intros H. apply readMessageFromChrome_settled, read_frame_header, H. Qed.

Lemma on_readable_between_reads (r : Reader) (buffered : list byte) :
  between_reads r ->
  on_readable JSON_parse Buffer_toString r buffered
  = readHeader (alloc 4) 0 (unread r buffered).
Proof.
  intros [-> | (len & -> & H)]; simpl.
  - reflexivity.
  - rewrite read_header by (apply MAX_HWM_fits; exact H). reflexivity.
Qed.

#[local] Abbreviation stream ms := (List.concat (map frame ms)).

Lemma frame_length (m : value) :
  serializable m ->
  frame m = header_of (List.length (Buffer_from (JSON_stringify m)))
            ++ Buffer_from (JSON_stringify m)
  /\ List.length (frame m) = (4 + List.length (Buffer_from (JSON_stringify m)))%nat.
Proof.
  intros [[Hpos Hmax] _]. apply MAX_HWM_fits in Hmax.
  destruct (header_of_spec _ Hmax) as (W & L & _).
  unfold sendMessageToChrome_bytes, frame_of. rewrite W, length_app, L. auto.
Qed.

Lemma pump_pending (fuel : nat) (r : Reader) (buffered : list byte) :
  pump fuel (Pending r buffered) = ([], Some r, buffered).
Proof. destruct fuel; reflexivity. Qed.

Lemma pump_settled (fuel : nat) (s : Settlement) (buffered : list byte) :
  breaks s = false ->
  pump (S fuel) (Settled s buffered)
  = (let '(ss, r, buffered) := pump fuel (readMessageFromChrome buffered) in
     (s :: ss, r, buffered)).
Proof. intros H. cbn [Host.pump]. rewrite H. reflexivity. Qed.

(** The loop on a prefix [u] of a stream of frames: it reads the frames
    that are whole in [u] and is left waiting between reads, having
    accounted for the rest of [u]. *)
Lemma pump_frames (ms : list value) :
  forall (u tail : list byte) (fuel : nat),
    Forall serializable ms ->
    (List.length u <= fuel + 4)%nat ->
    u ++ tail = stream ms ->
    readHeader (alloc 4) 0 u = readMessageFromChrome u
    /\ exists ms1 ms2 r rest,
      ms = ms1 ++ ms2
      /\ pump fuel (readMessageFromChrome u) = (map Resolved ms1, Some r, rest)
      /\ between_reads r
      /\ unread r rest ++ tail = stream ms2
      /\ (List.length (unread r rest) <= List.length u)%nat
      /\ (ms2 = [] \/ (List.length (unread r rest) < List.length (frame (hd null ms2)))%nat).
Proof.
  induction ms as [|m ms IH]; intros u tail fuel Hall Hfuel Hu.
  - simpl in Hu. apply app_eq_nil in Hu as [-> ->].
    pose proof (read_header_wait [] ltac:(simpl; lia)) as First.
    rewrite (readMessageFromChrome_pending _ _ _ First).
    split; [exact First|].
    exists [], [], (readHeader_at (alloc 4) 0), [].
    rewrite pump_pending. simpl.
    split; [reflexivity|]. split; [reflexivity|]. split; [left; reflexivity|].
    split; [reflexivity|]. split; [lia | left; reflexivity].
  - inversion Hall as [|? ? Hm Hall']; subst.
    destruct (frame_length m Hm) as [Hframe Hlen].
    set (payload := Buffer_from (JSON_stringify m)) in *.
    destruct Hm as [[Hpos Hread] Hparse].
    pose proof (MAX_HWM_fits _ Hread) as Hmax.
    fold payload in Hpos, Hread, Hmax, Hparse.
    simpl in Hu.
    destruct (Nat.le_gt_cases (List.length (frame m)) (List.length u)) as [Hwhole | Hpart].
    + (* the first frame is whole *)
      destruct (app_split_front _ _ _ _ Hu Hwhole) as (u' & -> & Hu').
      assert (First : readHeader (alloc 4) 0 (frame m ++ u') = Settled (settle payload) u')
        by (apply (read_frame_header payload u' (conj Hpos Hread))).
      rewrite (readMessageFromChrome_settled _ _ _ First).
      split; [exact First|].
      unfold Host.settle. rewrite Hparse.
      rewrite length_app, Hlen in Hfuel.
      destruct fuel as [|fuel]; [lia|].
      destruct (IH u' tail fuel Hall' ltac:(lia) (eq_sym Hu'))
        as (_ & ms1 & ms2 & r & rest & E & P & B & U & L & S).
      exists (m :: ms1), ms2, r, rest.
      rewrite pump_settled by reflexivity. rewrite P. subst ms.
      split; [reflexivity|]. split; [reflexivity|]. split; [exact B|].
      split; [exact U|]. split; [rewrite length_app; lia | exact S].
    + (* the first frame is not whole yet *)
      destruct (Nat.le_gt_cases 4 (List.length u)) as [Hheader | Hshort].
      * rewrite Hframe, <- app_assoc in Hu.
        destruct (header_of_spec _ Hmax) as (_ & L4 & _).
        destruct (app_split_front _ _ _ _ Hu ltac:(lia)) as (part & -> & Hpart').
        rewrite length_app, L4 in Hpart. rewrite Hlen in Hpart.
        assert (First : readHeader (alloc 4) 0 (header_of (List.length payload) ++ part)
                        = Pending (readChunk_at (List.length payload)
                                     (alloc (List.length payload)) 0) part).
        { rewrite read_header by exact Hmax.
          apply read_payload_wait; [exact Hread | lia]. }
        rewrite (readMessageFromChrome_pending _ _ _ First).
        split; [exact First|].
        exists [], (m :: ms), (readChunk_at (List.length payload) (alloc (List.length payload)) 0),
          part.
        rewrite pump_pending.
        split; [reflexivity|]. split; [reflexivity|].
        split; [right; exists (List.length payload); auto|].
        split.
        { cbn [unread map List.concat]. rewrite <- app_assoc, Hframe, <- app_assoc.
          f_equal. symmetry. exact Hpart'. }
        split; [reflexivity|].
        right. cbn [unread hd]. rewrite Hlen, length_app, L4. lia.
      * pose proof (read_header_wait u Hshort) as First.
        rewrite (readMessageFromChrome_pending _ _ _ First).
        split; [exact First|].
        exists [], (m :: ms), (readHeader_at (alloc 4) 0), u.
        rewrite pump_pending.
        split; [reflexivity|]. split; [reflexivity|]. split; [left; reflexivity|].
        split; [exact Hu|]. split; [reflexivity|].
        right. cbn [unread hd]. lia.
Qed.

Lemma unread_app (r : Reader) (buffered chunk : list byte) :
  unread r (buffered ++ chunk) = unread r buffered ++ chunk.
Proof. destruct r; simpl; [reflexivity | apply app_assoc]. Qed.

Lemma unread_length (r : Reader) (buffered : list byte) :
  between_reads r ->
  (List.length (unread r buffered) <= List.length buffered + 4)%nat.
Proof.
  intros [-> | (len & -> & H)]; simpl; [lia|].
  destruct (header_of_spec len (MAX_HWM_fits _ H)) as (_ & L & _). rewrite length_app, L. lia.
Qed.

(** Whatever the chunks, the loop reads the frames of the stream. *)
Lemma decode_frames (chunks : list (list byte)) :
  forall (ms : list value) (r : Reader) (buffered : list byte),
    Forall serializable ms ->
    between_reads r ->
    unread r buffered ++ List.concat chunks = stream ms ->
    (ms = [] \/ (List.length (unread r buffered) < List.length (frame (hd null ms)))%nat) ->
    decode JSON_parse Buffer_toString (Some r) buffered chunks = map Resolved ms.
Proof.
  induction chunks as [|chunk chunks IH]; intros ms r buffered Hall Hr Hs Hstuck.
  - simpl in *. rewrite app_nil_r in Hs.
    destruct Hstuck as [-> | Hlt]; [reflexivity|].
    destruct ms as [|m ms]; [reflexivity|]. exfalso.
    simpl in Hs, Hlt. rewrite Hs, length_app in Hlt. lia.
  - simpl in Hs. rewrite app_assoc, <- unread_app in Hs.
    cbn [decode].
    rewrite on_readable_between_reads by exact Hr.
    destruct (pump_frames ms (unread r (buffered ++ chunk)) (List.concat chunks)
                (List.length (buffered ++ chunk)) Hall
                (unread_length _ _ Hr) Hs)
      as (A & ms1 & ms2 & r' & rest & E & P & B & U & _ & S).
    rewrite A, P. rewrite (IH ms2 r' rest); auto.
    + subst ms. rewrite map_app. reflexivity.
    + subst ms. apply Forall_app in Hall. apply Hall.
Qed.

(** C6: what [sendMessageToChrome] frames, the read loop reads back.
    The frame of a message is the four bytes of its payload length,
    little-endian, followed by the payload, the UTF-8 of its JSON text.
    For all JSON-serializable messages [ms], when the bytes of their
    frames, one after the other, arrive on stdin cut into chunks in any
    way (a frame split over several reads, several frames in one read),
    the loop resolves exactly the messages [ms], in order. *)
Theorem C6_framing_round_trip :
  forall (ms : list value) (chunks : list (list byte)),
    Forall serializable ms ->
    List.concat chunks = stream ms ->
    decode JSON_parse Buffer_toString (Some (readHeader_at (alloc 4) 0)) [] chunks
    = map Resolved ms
    /\ Forall (fun m =>
                 exists header,
                   frame m = header ++ Buffer_from (JSON_stringify m)
                   /\ List.length header = 4%nat
                   /\ readUInt32LE header
                      = N.of_nat (List.length (Buffer_from (JSON_stringify m))))
              ms.
Proof.
  intros ms chunks Hall Hs. split.
  - apply decode_frames; auto.
    + left. reflexivity.
    + destruct ms as [|m ms]; [left; reflexivity | right].
      inversion Hall as [|? ? Hm _]; subst.
      destruct (frame_length m Hm) as [_ L]. simpl. lia.
  - apply Forall_forall. intros m Hin.
    rewrite Forall_forall in Hall. specialize (Hall m Hin).
    destruct (frame_length m Hall) as [F _]. destruct Hall as [[_ Hmax] _].
    apply MAX_HWM_fits in Hmax.
    destruct (header_of_spec _ Hmax) as (_ & L & R).
    exists (header_of (List.length (Buffer_from (JSON_stringify m)))). auto.
Qed.

(** C5, as amended: the reader has no maximum of its own for the
    declared length.  For every payload of at least one byte and at most
    [MAX_HWM] bytes, what one read of the stream can take, and whatever
    follows it in the stream, the reader takes exactly the frame and
    settles on what [JSON.parse] makes of the payload: it rejects (with
    [Invalid JSON]) only a payload that does not parse.  After such a
    rejection, unless the error text contains [EOF], the loop goes on to
    read the next frame from the bytes that follow. *)
Theorem C5_no_maximum_length :
  forall (payload rest : list byte),
    (0 < N.of_nat (List.length payload) <= MAX_HWM)%N ->
    readUInt32LE (header_of (List.length payload)) = N.of_nat (List.length payload)
    /\ readMessageFromChrome (header_of (List.length payload) ++ payload ++ rest)
       = Settled (settle payload) rest
    /\ (forall err fuel,
           JSON_parse (Buffer_toString payload) = inl err ->
           includes "EOF" ("Invalid JSON: " ++ err)%string = false ->
           settle payload = Rejected ("Invalid JSON: " ++ err)%string
           /\ pump (S fuel)
                (readMessageFromChrome (header_of (List.length payload) ++ payload ++ rest))
              = (let '(ss, r, buffered) := pump fuel (readMessageFromChrome rest) in
                 (Rejected ("Invalid JSON: " ++ err)%string :: ss, r, buffered))).
Proof.
  intros payload rest [Hpos Hread].
  assert (H : (0 < N.of_nat (List.length payload) < 2 ^ 32)%N)
    by (split; [exact Hpos | apply MAX_HWM_fits; exact Hread]).
  assert (R : readMessageFromChrome (header_of (List.length payload) ++ payload ++ rest)
              = Settled (settle payload) rest).
  { pose proof (read_frame payload rest (conj Hpos Hread)) as F.
    unfold frame_of in F. destruct H as [_ Hmax].
    destruct (header_of_spec _ Hmax) as (W & _ & _).
    rewrite W, <- app_assoc in F. exact F. }
  split; [apply header_of_spec; apply H|]. split; [exact R|].
  intros err fuel Herr Heof.
  assert (S : settle payload = Rejected ("Invalid JSON: " ++ err)%string)
    by (unfold Host.settle; rewrite Herr; reflexivity).
  split; [exact S|]. rewrite R, S.
  apply pump_settled. exact Heof.
Qed.

End Framing.

(** ** The scenarios of [host.test.js] *)

Example test_should_queue_messages_when_not_connected :
  let host := constructor (mkConfig (Some 100) (Some 2)) in
  messageQueue host = []
  /\ maxReconnectAttempts host = 2
  /\ messageQueue (sendMessageToDesktopApp Literals.JSON_stringify (Bool true) host)
     = [Bool true].
Proof. repeat split; reflexivity. Qed.

Example test_should_encode_message_with_correct_length_prefix :
  Literals.frame (Bool false) = [x05; x00; x00; x00] ++ list_byte_of_string "false"
  /\ readUInt32LE (firstn 4 (Literals.frame (Bool false)))
     = N.of_nat (List.length (skipn 4 (Literals.frame (Bool false))))
  /\ Literals.JSON_parse (string_of_list_byte (skipn 4 (Literals.frame (Bool false))))
     = inr (Bool false).
Proof. repeat split; reflexivity. Qed.

(** ** Concrete runs *)

(** A run of C7: two messages submitted before the first connection
    opens and one after it reach the socket in the order submitted. *)
Lemma C7_witness_queue_then_open :
  let w := connectToDesktopApp (constructor (mkConfig None None)) in
  let w3 :=
    fold_left (fun w m => sendMessageToDesktopApp Literals.JSON_stringify m w)
      [Bool false]
      (on_open Literals.JSON_stringify
         (fold_left (fun w m => sendMessageToDesktopApp Literals.JSON_stringify m w)
            [Bool true; null] w)) in
  ws w = Some CONNECTING
  /\ messageQueue w3 = []
  /\ to_desktop w3 = ["true"; "null"; "false"]%string.
Proof.
  cbv zeta. split; [reflexivity|].
  exact (proj2 (proj2
    (C7_queue_drained_in_order Literals.JSON_stringify
       (connectToDesktopApp (constructor (mkConfig None None)))
       [Bool true; null] [Bool false]
       ltac:(simpl; discriminate)))).
Defined.

(** A run of C8: with [maxReconnectAttempts: 2], the first connection
    and two reconnects all close without opening; three sockets were
    opened.  Messages submitted and bytes arriving afterwards open no
    further socket and arm no timer. *)
Lemma C8_witness_two_attempts :
  let start := constructor (mkConfig (Some 100) (Some 2)) in
  let failed := [Connect; Close; Timeout; Close; Timeout; Close] in
  let later := [Submit null; Stdin [x04; x00; x00; x00]; Submit (Bool true)] in
  exists w w',
    Literals.run failed start = Some w
    /\ Literals.run later w = Some w'
    /\ connections w = 3%nat
    /\ reconnectAttempts w = maxReconnectAttempts w
    /\ ws w' = None
    /\ timers w' = []
    /\ connections w' = 3%nat.
Proof.
  cbv zeta.
  destruct (Literals.run [Connect; Close; Timeout; Close; Timeout; Close]
              (constructor (mkConfig (Some 100) (Some 2)))) as [w|] eqn:E;
    [|vm_compute in E; discriminate].
  destruct (Literals.run [Submit null; Stdin [x04; x00; x00; x00]; Submit (Bool true)] w)
    as [w'|] eqn:E'.
  2:{ vm_compute in E. inversion E; subst w. vm_compute in E'. discriminate. }
  exists w, w'.
  assert (Hw : ws w = None /\ timers w = [] /\ maxReconnectAttempts w <= reconnectAttempts w
               /\ connections w = 3%nat /\ reconnectAttempts w = maxReconnectAttempts w).
  { vm_compute in E. inversion E; subst w. vm_compute. repeat split; congruence. }
  destruct Hw as (A & B & C & D & F).
  destruct (proj1 (proj2
    (C8_no_reconnect_after_exhaustion Literals.JSON_stringify Literals.JSON_parse
       Literals.Buffer_from Literals.Buffer_toString w))
    [Submit null; Stdin [x04; x00; x00; x00]; Submit (Bool true)] w' A B C eq_refl E')
    as (A' & B' & C' & _).
  repeat split; auto. congruence.
Defined.

(** A run of C6: the frames of [true] and [null], cut into four chunks
    that split the first header, the first payload and join the end of
    the first frame to the whole second frame, are read back as [true]
    and [null]. *)
Lemma C6_witness_split_and_joined :
  let chunks :=
    [ [x04];
      [x00; x00; x00; "t"%byte];
      ["r"%byte; "u"%byte];
      ["e"%byte; x04; x00; x00; x00; "n"%byte; "u"%byte; "l"%byte; "l"%byte] ] in
  List.concat chunks = Literals.frame (Bool true) ++ Literals.frame null
  /\ Literals.decode (Some (readHeader_at (alloc 4) 0)) [] chunks
     = [Resolved (Bool true); Resolved null].
Proof.
  cbv zeta. split; [reflexivity|].
  refine (proj1
    (C6_framing_round_trip Literals.JSON_stringify Literals.JSON_parse
       Literals.Buffer_from Literals.Buffer_toString
       [Bool true; null] _ _ _)).
  - repeat constructor; vm_compute; (reflexivity || discriminate).
  - reflexivity.
Defined.

(** A run of the amended C5: a frame whose three bytes [nul] do not
    parse is rejected, and the bytes after it, the frame of [true], are
    left for the next read, which resolves them. *)
Lemma C5_witness_bad_frame_dropped :
  let payload := ["n"%byte; "u"%byte; "l"%byte] in
  let rest := Literals.frame (Bool true) in
  exists err,
    Literals.readMessageFromChrome ([x03; x00; x00; x00] ++ payload ++ rest)
    = Settled (Rejected ("Invalid JSON: " ++ err)%string) rest
    /\ Literals.decode (Some (readHeader_at (alloc 4) 0)) []
         [[x03; x00; x00; x00] ++ payload ++ rest]
       = [Rejected ("Invalid JSON: " ++ err)%string; Resolved (Bool true)].
Proof.
  cbv zeta. exists "Unexpected token"%string. split; [|reflexivity].
  exact (proj1 (proj2
    (C5_no_maximum_length Literals.JSON_parse Literals.Buffer_toString
       ["n"%byte; "u"%byte; "l"%byte] (Literals.frame (Bool true))
       ltac:(split; [reflexivity | discriminate])))).
Defined.

Lemma skip_spaces_repeat (n : nat) (rest : list byte) :
  Literals.skip_spaces (string_of_list_byte (repeat " "%byte n ++ rest))
  = Literals.skip_spaces (string_of_list_byte rest).
Proof. induction n as [|n IH]; [reflexivity | exact IH]. Qed.

(** The JSON text [null] after a mebibyte less four bytes of spaces. *)
Lemma padded_null_length :
  N.of_nat (List.length (repeat " "%byte (N.to_nat 1048573)
                         ++ ["n"%byte; "u"%byte; "l"%byte; "l"%byte]))
  = 1048577%N.
Proof. rewrite length_app, repeat_length, Nat2N.inj_add, N2Nat.id. reflexivity. Qed.

Lemma padded_null_frame :
  frame_of (repeat " "%byte (N.to_nat 1048573) ++ ["n"%byte; "u"%byte; "l"%byte; "l"%byte])
  = [x01; x00; x10; x00]
    ++ repeat " "%byte (N.to_nat 1048573) ++ ["n"%byte; "u"%byte; "l"%byte; "l"%byte].
Proof. unfold frame_of. rewrite padded_null_length. reflexivity. Qed.

Lemma padded_null_settles :
  Host.settle Literals.JSON_parse Literals.Buffer_toString
    (repeat " "%byte (N.to_nat 1048573) ++ ["n"%byte; "u"%byte; "l"%byte; "l"%byte])
  = Resolved null.
Proof.
  unfold Host.settle, Literals.Buffer_toString, Literals.JSON_parse.
  rewrite skip_spaces_repeat. reflexivity.
Qed.

(** C5, counterexample: frames declaring 1048577 bytes, one more than
    a mebibyte.  After the header and the first byte of a payload the
    reader has not rejected the frame: it has allocated a buffer of the
    declared length and waits for the rest.  When the payload is
    complete and is JSON (here 1048573 spaces and [null]), the frame is
    resolved.  The host's configuration and code set no maximum for the
    declared length. *)
Lemma C5_counterexample_oversized_frame_accepted :
  let header := [x01; x00; x10; x00] in
  let payload :=
    repeat " "%byte (N.to_nat 1048573) ++ ["n"%byte; "u"%byte; "l"%byte; "l"%byte] in
  readUInt32LE header = 1048577%N
  /\ (1048576 < readUInt32LE header)%N
  /\ N.of_nat (List.length payload) = 1048577%N
  /\ Literals.readMessageFromChrome (header ++ ["{"%byte])
     = Pending (readChunk_at (N.to_nat 1048577) (alloc (N.to_nat 1048577)) 0) ["{"%byte]
  /\ Literals.readMessageFromChrome (header ++ payload) = Settled (Resolved null) [].
Proof.
  cbv zeta. split; [reflexivity|]. split; [reflexivity|].
  split; [exact padded_null_length|].
  unfold Literals.readMessageFromChrome. split.
  - assert (H : (N.of_nat (N.to_nat 1048577) < 2 ^ 32)%N)
      by (rewrite N2Nat.id; reflexivity).
    assert (E : header_of (N.to_nat 1048577) = [x01; x00; x10; x00])
      by (unfold header_of; rewrite N2Nat.id; reflexivity).
    assert (M : (N.of_nat (N.to_nat 1048577) <= MAX_HWM)%N)
      by (rewrite N2Nat.id; discriminate).
    rewrite <- E. apply readMessageFromChrome_pending.
    rewrite read_header by exact H.
    apply read_payload_wait; [exact M | simpl List.length; lia].
  - pose proof (read_frame Literals.JSON_parse Literals.Buffer_toString
                  (repeat " "%byte (N.to_nat 1048573)
                   ++ ["n"%byte; "u"%byte; "l"%byte; "l"%byte]) []) as F.
    rewrite padded_null_length in F.
    specialize (F ltac:(split; [reflexivity | discriminate])).
    rewrite app_nil_r, padded_null_frame, padded_null_settles in F. exact F.
Qed.

End HostProofs.

(* ================================================================== *)
(** * Laws of the store *)
(* ================================================================== *)

Module StoreLaws.

Import Store StoreProofs.

(** ** Keys *)

Lemma keys_app {R} (key : R -> option string) (t u : list R) :
  keys key (t ++ u) = keys key t ++ keys key u.
Proof. apply flat_map_app. Qed.

Lemma keys_update_where {R} (key : R -> option string) (p : R -> bool) (f : R -> R)
    (t : list R) :
  (forall r, key (f r) = key r) ->
  keys key (update_where p f t) = keys key t.
Proof.
  intros Hf. unfold keys, update_where.
  induction t as [|r t IH]; simpl; [reflexivity|].
  rewrite IH. destruct (p r); [rewrite Hf|]; reflexivity.
Qed.

Lemma existsb_update_where {R} (key : R -> option string) (p : R -> bool) (f : R -> R)
    (k : option string) (t : list R) :
  (forall r, key (f r) = key r) ->
  existsb (fun r => key_eqb (key r) k) (update_where p f t)
  = existsb (fun r => key_eqb (key r) k) t.
Proof.
  intros Hf. unfold update_where.
  induction t as [|r t IH]; simpl; [reflexivity|].
  rewrite IH. destruct (p r); [rewrite Hf|]; reflexivity.
Qed.

Lemma in_keys {R} (key : R -> option string) (t : list R) (k : string) :
  In k (keys key t) <-> existsb (fun r => key_eqb (key r) (Some k)) t = true.
Proof.
  unfold keys. rewrite in_flat_map, existsb_exists.
  split; intros (r & Hin & H); exists r; (split; [exact Hin|]).
  - destruct (key r) as [k'|]; simpl in *; [|contradiction].
    destruct H as [<- | []]. apply String.eqb_refl.
  - apply key_eqb_eq in H as (k' & -> & E). inversion E. left. reflexivity.
Qed.

Lemma NoDup_snoc {A} (l : list A) (x : A) : NoDup l -> ~ In x l -> NoDup (l ++ [x]).
Proof.
  induction l as [|y l IH]; intros Hl Hx; simpl.
  - constructor; [intros [] | constructor].
  - inversion Hl as [|? ? Hy Hl']; subst. constructor.
    + rewrite in_app_iff. intros [H | [H | []]]; [contradiction|].
      subst. apply Hx. left. reflexivity.
    + apply IH; [exact Hl'|]. intros H. apply Hx. right. exact H.
Qed.

(** A row whose key no stored row carries keeps the keys distinct. *)
Lemma keys_insert {R} (key : R -> option string) (t : list R) (NEW : R) :
  NoDup (keys key t) ->
  existsb (fun r => key_eqb (key r) (key NEW)) t = false ->
  NoDup (keys key (t ++ [NEW])).
Proof.
  intros Ht Hnew. rewrite keys_app. unfold keys at 2. simpl.
  destruct (key NEW) as [k|] eqn:E; simpl; [|rewrite app_nil_r; exact Ht].
  apply NoDup_snoc; [exact Ht|].
  rewrite in_keys, Hnew. discriminate.
Qed.

Ltac tables :=
  cbn [fst conversations messages api_captures system_prompts streaming_chunks foreign_keys
       with_conversations with_messages with_api_captures with_system_prompts
       with_streaming_chunks].

Section Keys.

Variable sha256 : string -> string.

Lemma call_unique_keys (c : Call) (db : Database) :
  unique_keys db -> unique_keys (fst (call sha256 c db)).
Proof.
  intros (Hc & Hm & Ha & Hp & Hh & Hs).
  destruct c as [now data | now data | now data | now uuid data | data]; cbn [call].
  - unfold upsertConversation, conversations_upsert.
    destruct (first_error _); [repeat split; assumption|].
    destruct (existsb _ (conversations db)) eqn:E; repeat split; tables; try assumption.
    + rewrite keys_update_where by reflexivity. exact Hc.
    + apply keys_insert; assumption.
  - unfold insertMessage, messages_insert.
    destruct (first_error _); [repeat split; assumption|].
    destruct (existsb _ (messages db)) eqn:E; [repeat split; assumption|].
    destruct (references _ _ _ _); repeat split; tables; try assumption.
    + unfold update_conversation_stats. rewrite keys_update_where by reflexivity. exact Hc.
    + apply keys_insert; assumption.
  - unfold insertApiCapture, api_captures_insert.
    destruct (first_error _); [repeat split; assumption|].
    destruct (existsb _ (api_captures db)) eqn:E; [repeat split; assumption|].
    destruct (references _ _ _ _); repeat split; tables; try assumption.
    apply keys_insert; assumption.
  - unfold upsertSystemPrompt.
    destruct (data.["prompt_text"]); try (repeat split; assumption).
    unfold system_prompts_upsert.
    destruct (first_error _); [repeat split; assumption|].
    destruct (existsb _ (system_prompts db)) eqn:E.
    { repeat split; tables; try assumption;
        rewrite keys_update_where by reflexivity; assumption. }
    destruct (existsb (fun r => key_eqb (SystemPrompt.id r) _) (system_prompts db)) eqn:E';
      [repeat split; assumption|].
    repeat split; tables; try assumption;
      unfold update_system_prompt_occurrence;
      rewrite keys_update_where by reflexivity;
      apply keys_insert; assumption.
  - unfold insertStreamingChunk, streaming_chunks_insert.
    destruct (first_error _); [repeat split; assumption|].
    destruct (existsb _ (streaming_chunks db)) eqn:E; [repeat split; assumption|].
    destruct (references _ _ _ _); repeat split; tables; try assumption.
    apply keys_insert; assumption.
Qed.

End Keys.

(** ** References *)

Lemma stored_update_where {R} (pk : R -> option string) (p : R -> bool) (f : R -> R)
    (k : option string) (t : list R) :
  (forall r, pk (f r) = pk r) ->
  stored t pk k -> stored (update_where p f t) pk k.
Proof. intros Hf H. unfold stored. rewrite existsb_update_where; assumption. Qed.

Lemma stored_app {R} (pk : R -> option string) (k : option string) (t u : list R) :
  stored t pk k -> stored (t ++ u) pk k.
Proof. unfold stored. intros H. rewrite existsb_app, H. reflexivity. Qed.

Lemma references_stored {R} (db : Database) (parent : list R) (pk : R -> option string)
    (k : option string) :
  foreign_keys db = true -> references db parent pk k = true -> stored parent pk k.
Proof. unfold references, stored. intros ->. simpl. auto. Qed.

Lemma Forall_snoc {A} (P : A -> Prop) (l : list A) (x : A) :
  Forall P l -> P x -> Forall P (l ++ [x]).
Proof.
  intros Hl Hx. apply Forall_app.
  split; [exact Hl | constructor; [exact Hx | constructor]].
Qed.

Section Integrity.

Variable sha256 : string -> string.

Lemma call_referential_integrity (c : Call) (db : Database) :
  foreign_keys db = true ->
  referential_integrity db ->
  referential_integrity (fst (call sha256 c db)).
Proof.
  intros Hfk (Hm & Ha & Hs).
  assert (Hsame : referential_integrity db) by (repeat split; assumption).
  destruct c as [now data | now data | now data | now uuid data | data]; cbn [call].
  - unfold upsertConversation, conversations_upsert.
    destruct (first_error _); [exact Hsame|].
    destruct (existsb _ (conversations db)); (split; [|split]); tables; try assumption.
    + eapply Forall_impl; [|exact Hm]. intros m Hr.
      apply stored_update_where; [reflexivity | exact Hr].
    + eapply Forall_impl; [|exact Hm]. intros m Hr. apply stored_app. exact Hr.
  - unfold insertMessage, messages_insert.
    destruct (first_error _); [exact Hsame|].
    destruct (existsb _ (messages db)); [exact Hsame|].
    destruct (references _ _ _ _) eqn:Href; [|exact Hsame].
    apply (references_stored _ _ _ _ Hfk) in Href.
    (split; [|split]); tables.
    + apply Forall_snoc.
      * eapply Forall_impl; [|exact Hm]. intros m Hr.
        apply stored_update_where; [reflexivity | exact Hr].
      * apply stored_update_where; [reflexivity | exact Href].
    + eapply Forall_impl; [|exact Ha]. intros c Hr. apply stored_app. exact Hr.
    + eapply Forall_impl; [|exact Hs]. intros s [Hr Hc]. split; [|exact Hc].
      apply stored_app. exact Hr.
  - unfold insertApiCapture, api_captures_insert.
    destruct (first_error _); [exact Hsame|].
    destruct (existsb _ (api_captures db)); [exact Hsame|].
    destruct (references _ _ _ _) eqn:Href; [|exact Hsame].
    apply (references_stored _ _ _ _ Hfk) in Href.
    (split; [|split]); tables; [exact Hm | |].
    + apply Forall_snoc; [exact Ha | exact Href].
    + eapply Forall_impl; [|exact Hs]. intros s [Hr [Hc | Hc]]; (split; [exact Hr|]).
      * left. exact Hc.
      * right. apply stored_app. exact Hc.
  - unfold upsertSystemPrompt.
    destruct (data.["prompt_text"]); try exact Hsame.
    unfold system_prompts_upsert.
    destruct (first_error _); [exact Hsame|].
    destruct (existsb _ (system_prompts db)); [exact Hsame|].
    destruct (existsb _ (system_prompts db)); exact Hsame.
  - unfold insertStreamingChunk, streaming_chunks_insert.
    destruct (first_error _); [exact Hsame|].
    destruct (existsb _ (streaming_chunks db)); [exact Hsame|].
    destruct (references _ _ _ _) eqn:Href; [|exact Hsame].
    apply (references_stored _ _ _ _ Hfk) in Href.
    (split; [|split]); tables; [exact Hm | exact Ha |].
    apply Forall_snoc; [exact Hs|]. split; [exact Href | left; reflexivity].
Qed.

End Integrity.


(** X5: an id is stored once.  [insertMessage], [insertApiCapture] and
    [insertStreamingChunk] with an [id] that a row of their table
    already carries throw, and the database is as before; so a message
    that is delivered twice is counted once in its conversation. *)
Theorem duplicate_ids_rejected :
  forall (now : Z) (data : object) (db : Database),
    (stored (messages db) Message.id (TEXT data.["id"]) ->
       exists e, insertMessage now data db = (db, Throws e))
    /\ (stored (api_captures db) ApiCapture.id (TEXT data.["id"]) ->
          exists e, insertApiCapture now data db = (db, Throws e))
    /\ (stored (streaming_chunks db) StreamingChunk.id (TEXT data.["id"]) ->
          exists e, insertStreamingChunk data db = (db, Throws e)).
Proof.
  intros now data db. unfold stored. repeat split; intros Hdup.
  - unfold insertMessage, messages_insert.
    destruct (first_error _); [eauto|].
    change (Message.id (message_values now data)) with (TEXT data.["id"]).
    rewrite Hdup. eauto.
  - unfold insertApiCapture, api_captures_insert.
    destruct (first_error _); [eauto|].
    simpl ApiCapture.id. rewrite Hdup. eauto.
  - unfold insertStreamingChunk, streaming_chunks_insert.
    destruct (first_error _); [eauto|].
    simpl StreamingChunk.id. rewrite Hdup. eauto.
Qed.

(** ** Upserting a conversation *)

Lemma update_where_again {R} (p : R -> bool) (f g : R -> R) (t : list R) :
  (forall r, p (f r) = p r) ->
  (forall r, g (f r) = f r) ->
  update_where p g (update_where p f t) = update_where p f t.
Proof.
  intros Hp Hg. unfold update_where. rewrite map_map. apply map_ext.
  intros r. destruct (p r) eqn:E; [rewrite Hp, E; apply Hg | rewrite E; reflexivity].
Qed.

Lemma update_where_app {R} (p : R -> bool) (f : R -> R) (t u : list R) :
  update_where p f (t ++ u) = update_where p f t ++ update_where p f u.
Proof. apply map_app. Qed.

Lemma select_first_app {R} (p : R -> bool) (t u : list R) :
  select_first p (t ++ u)
  = match select_first p t with Some r => Some r | None => select_first p u end.
Proof.
  unfold select_first. induction t as [|r t IH]; simpl; [reflexivity|].
  destruct (p r); [reflexivity | exact IH].
Qed.

Lemma select_first_none {R} (p : R -> bool) (t : list R) :
  existsb p t = false -> select_first p t = None.
Proof.
  unfold select_first. induction t as [|r t IH]; simpl; [reflexivity|].
  destruct (p r); [discriminate | exact IH].
Qed.

Lemma select_first_some {R} (p : R -> bool) (t : list R) :
  existsb p t = true -> exists r, select_first p t = Some r.
Proof.
  unfold select_first. induction t as [|r t IH]; simpl; [discriminate|].
  destruct (p r); [eauto | exact IH].
Qed.

(** X6: replaying a conversation upsert changes nothing.  When a call of
    [upsertConversation] whose [id] is a string has left the database
    [db'], returning or throwing, the same call made again at any other
    time leaves [db'] as it is, with the same outcome. *)
Theorem upsertConversation_replayed :
  forall (now now' : Z) (data : object) (db db' : Database) (o : outcome unit) (k : string),
    TEXT data.["id"] = Some k ->
    upsertConversation now data db = (db', o) ->
    upsertConversation now' data db' = (db', o).
Proof.
  intros now now' data db db' o k Hk H.
  unfold upsertConversation, conversations_upsert in *.
  cbn [Conversation.id Conversation.platform Conversation.started_at
       Conversation.last_activity] in *.
  destruct (first_error _) as [e|].
  { inversion H; subst. reflexivity. }
  rewrite Hk in *.
  destruct (existsb _ (conversations db)) eqn:E; inversion H; subst db' o; clear H; tables.
  - rewrite existsb_update_where by reflexivity. rewrite E.
    rewrite update_where_again by reflexivity. reflexivity.
  - rewrite existsb_app. cbn [existsb Conversation.id key_eqb].
    rewrite String.eqb_refl, orb_true_r.
    rewrite update_where_app, update_where_none by exact E.
    cbn [update_where map Conversation.id key_eqb].
    rewrite String.eqb_refl. reflexivity.
Qed.

(** X7: an upserted conversation is found.  After a call of
    [upsertConversation] with id [k] and parameters of the type of their
    column that returned, [getConversation(k)]
    yields a row with id [k] whose [last_activity], [message_count],
    [total_tokens] and [metadata] are those of the call (the counts 0
    and the metadata the empty object where the call gives none).  Its
    platform, start time, title and model are those of the call when no
    row had the id before, and those of that row otherwise. *)
Theorem upserted_conversation_found :
  forall (now : Z) (data : object) (db db' : Database) (k : string),
    typed_conversation data = true ->
    TEXT data.["id"] = Some k ->
    upsertConversation now data db = (db', Returns tt) ->
    exists c,
      getConversation k db' = Some c
      /\ Conversation.id c = Some k
      /\ Conversation.last_activity c = INTEGER data.["last_activity"]
      /\ Conversation.message_count c = INTEGER (data.["message_count"] || Num 0)%js
      /\ Conversation.total_tokens c = INTEGER (data.["total_tokens"] || Num 0)%js
      /\ Conversation.metadata c = Some (data.["metadata"] || Obj [])%js
      /\ match getConversation k db with
         | Some c0 =>
             Conversation.platform c = Conversation.platform c0
             /\ Conversation.started_at c = Conversation.started_at c0
             /\ Conversation.title c = Conversation.title c0
             /\ Conversation.model_used c = Conversation.model_used c0
         | None =>
             Conversation.platform c = TEXT data.["platform"]
             /\ Conversation.started_at c = INTEGER data.["started_at"]
             /\ Conversation.title c = TEXT (data.["title"] || null)%js
             /\ Conversation.model_used c = TEXT (data.["model_used"] || null)%js
         end.
Proof.
  intros now data db db' k _ Hk H.
  unfold upsertConversation, conversations_upsert in H.
  cbn [Conversation.id Conversation.platform Conversation.started_at
       Conversation.last_activity] in H.
  destruct (first_error _) as [e|]; [discriminate|].
  rewrite Hk in H. unfold getConversation.
  destruct (existsb _ (conversations db)) eqn:E; inversion H; subst db'; clear H; tables.
  - rewrite select_first_update_where by reflexivity.
    destruct (select_first_some _ _ E) as [c0 Hc0]. rewrite Hc0.
    eexists. split; [reflexivity|].
    apply find_some in Hc0 as [_ Hid]. apply key_eqb_eq in Hid as (k' & Hid & Ek).
    inversion Ek; subst k'. cbn. auto 10.
  - rewrite select_first_app, select_first_none by exact E.
    unfold select_first. cbn [find Conversation.id key_eqb].
    rewrite String.eqb_refl.
    eexists. split; [reflexivity|]. cbn. auto 10.
Qed.

(** ** Frames *)


(** X9: [getApiCapture] keeps yielding the first capture of a message.
    A call of [insertApiCapture] with parameters of the type of their
    column that returns appends one row, holding
    the call's id, message id, model and URL.  Afterwards, for every
    message id, [getApiCapture] yields the capture it yielded before;
    it yields the new row only where it yielded none and the new row is
    a capture of that message. *)
Theorem first_capture_of_a_message_stays :
  forall (now : Z) (data : object) (db db' : Database) (m : string),
    typed_capture data = true ->
    insertApiCapture now data db = (db', Returns tt) ->
    exists NEW,
      api_captures db' = api_captures db ++ [NEW]
      /\ ApiCapture.id NEW = TEXT data.["id"]
      /\ ApiCapture.message_id NEW = TEXT data.["message_id"]
      /\ ApiCapture.model NEW = TEXT (data.["model"] || null)%js
      /\ ApiCapture.request_url NEW = TEXT (data.["request_url"] || null)%js
      /\ getApiCapture m db'
         = match getApiCapture m db with
           | Some first => Some first
           | None => if key_eqb (TEXT data.["message_id"]) (Some m) then Some NEW else None
           end.
Proof.
  intros now data db db' m _ H.
  unfold insertApiCapture, api_captures_insert in H.
  destruct (first_error _); [discriminate|].
  destruct (existsb _ (api_captures db)); [discriminate|].
  destruct (references _ _ _ _); [|discriminate].
  inversion H; subst db'; clear H. tables.
  eexists. split; [reflexivity|]. repeat split.
  unfold getApiCapture. tables. rewrite select_first_app. reflexivity.
Qed.

Lemma filter_update_where_other {R} (p q : R -> bool) (f : R -> R) (t : list R) :
  (forall r, p (f r) = p r) ->
  (forall r, q r = true -> p r = false) ->
  filter p (update_where q f t) = filter p t.
Proof.
  intros Hp Hq. unfold update_where.
  induction t as [|r t IH]; simpl; [reflexivity|].
  destruct (q r) eqn:Q.
  - rewrite Hp, (Hq r Q). exact IH.
  - destruct (p r); [f_equal|]; exact IH.
Qed.

(** X10: a prompt upsert touches one hash.  Whatever
    [upsertSystemPrompt] does for a text, the prompts stored under every
    other hash are unchanged, and so are the conversations, messages,
    captures and chunks. *)
Theorem other_prompts_untouched :
  forall (sha256 : string -> string) (now : Z) (uuid : string) (data : object)
         (db db' : Database) (o : outcome unit) (hash : string),
    (forall text, data.["prompt_text"] = Str text -> sha256 text <> hash) ->
    upsertSystemPrompt sha256 now uuid data db = (db', o) ->
    prompts_with_hash hash db' = prompts_with_hash hash db
    /\ conversations db' = conversations db
    /\ messages db' = messages db
    /\ api_captures db' = api_captures db
    /\ streaming_chunks db' = streaming_chunks db.
Proof.
  intros sha256 now uuid data db db' o hash Hother H.
  unfold upsertSystemPrompt in H.
  destruct (data.["prompt_text"]) as [| | | |text| |] eqn:T.
  1-4, 6-7: (inversion H; subst; auto).
  specialize (Hother text eq_refl).
  assert (Hq : forall r : SystemPrompt.row,
             key_eqb (SystemPrompt.prompt_hash r) (Some (sha256 text)) = true ->
             key_eqb (SystemPrompt.prompt_hash r) (Some hash) = false).
  { intros r Hr. apply key_eqb_eq in Hr as (k & E1 & E2). rewrite E1. simpl.
    apply String.eqb_neq. congruence. }
  unfold system_prompts_upsert in H.
  destruct (first_error _); [inversion H; subst; auto|].
  cbn [SystemPrompt.prompt_hash system_prompt_values] in H.
  destruct (existsb _ (system_prompts db)).
  { inversion H; subst db' o; clear H. repeat split.
    unfold prompts_with_hash. tables.
    apply filter_update_where_other; [reflexivity | exact Hq]. }
  destruct (existsb _ (system_prompts db)); [inversion H; subst; auto|].
  inversion H; subst db' o; clear H. repeat split.
  unfold prompts_with_hash, update_system_prompt_occurrence. tables.
  rewrite filter_update_where_other.
  - rewrite filter_app. cbn [filter SystemPrompt.prompt_hash system_prompt_values key_eqb].
    apply String.eqb_neq in Hother. rewrite Hother. apply app_nil_r.
  - reflexivity.
  - intros r Hr. apply andb_true_iff in Hr as [Hr _]. apply Hq. exact Hr.
Qed.

(** ** The constraints hold after every sequence of calls *)

Lemma Forall_update_where {R} (P : R -> Prop) (p : R -> bool) (f : R -> R) (t : list R) :
  (forall r, P r -> p r = true -> P (f r)) ->
  Forall P t -> Forall P (update_where p f t).
Proof.
  intros Hf Ht. unfold update_where. apply Forall_map.
  eapply Forall_impl; [|exact Ht]. intros r Hr. simpl.
  destruct (p r) eqn:E; [apply Hf; assumption | exact Hr].
Qed.

Lemma not_null_filled {A} (column : string) (x : option A) :
  not_null column x = None -> x <> None.
Proof. destruct x; simpl; [discriminate | discriminate]. Qed.

Ltac filled :=
  repeat match goal with
         | H : first_error (_ :: _) = None |- _ =>
             apply first_error_none_inv in H;
             let H1 := fresh "N" in destruct H as [H1 H]; apply not_null_filled in H1
         end.

Section Reachable.

Variable sha256 : string -> string.

Lemma call_not_null_columns (c : Call) (db : Database) :
  not_null_columns db -> not_null_columns (fst (call sha256 c db)).
Proof.
  intros (Hc & Hm & Ha & Hp & Hs).
  assert (Hsame : not_null_columns db) by (repeat split; assumption).
  destruct c as [now data | now data | now data | now uuid data | data]; cbn [call].
  - unfold upsertConversation, conversations_upsert.
    destruct (first_error _) eqn:F; [exact Hsame|]. filled.
    destruct (existsb _ (conversations db));
      (split; [|split; [|split; [|split]]]); tables; try assumption.
    + apply Forall_update_where; [|exact Hc].
      intros r (P1 & P2 & P3) _. repeat split; assumption.
    + apply Forall_snoc; [exact Hc|]. repeat split; assumption.
  - unfold insertMessage, messages_insert.
    destruct (first_error _) eqn:F; [exact Hsame|]. filled.
    destruct (existsb _ (messages db)); [exact Hsame|].
    destruct (references _ _ _ _); [|exact Hsame].
    (split; [|split; [|split; [|split]]]); tables; try assumption.
    + apply Forall_update_where; [|exact Hc].
      intros r (P1 & P2 & P3) _. repeat split; assumption.
    + apply Forall_snoc; [exact Hm|]. repeat split; assumption.
  - unfold insertApiCapture, api_captures_insert.
    destruct (first_error _) eqn:F; [exact Hsame|]. filled.
    destruct (existsb _ (api_captures db)); [exact Hsame|].
    destruct (references _ _ _ _); [|exact Hsame].
    (split; [|split; [|split; [|split]]]); tables; try assumption.
    apply Forall_snoc; [exact Ha|]. repeat split; assumption.
  - unfold upsertSystemPrompt.
    destruct (data.["prompt_text"]); try exact Hsame.
    unfold system_prompts_upsert.
    destruct (first_error _) eqn:F; [exact Hsame|]. filled.
    destruct (existsb _ (system_prompts db)).
    { (split; [|split; [|split; [|split]]]); tables; try assumption.
      apply Forall_update_where; [|exact Hp].
      intros r (P1 & P2 & P3 & P4 & P5) _. repeat split; assumption. }
    destruct (existsb _ (system_prompts db)); [exact Hsame|].
    (split; [|split; [|split; [|split]]]); tables; try assumption.
    apply Forall_update_where.
    + intros r (P1 & P2 & P3 & P4 & P5) _. repeat split; assumption.
    + apply Forall_snoc; [exact Hp|]. repeat split; assumption.
  - unfold insertStreamingChunk, streaming_chunks_insert.
    destruct (first_error _) eqn:F; [exact Hsame|]. filled.
    destruct (existsb _ (streaming_chunks db)); [exact Hsame|].
    destruct (references _ _ _ _); [|exact Hsame].
    (split; [|split; [|split; [|split]]]); tables; try assumption.
    apply Forall_snoc; [exact Hs|]. repeat split; assumption.
Qed.

Lemma call_foreign_keys (c : Call) (db : Database) :
  foreign_keys (fst (call sha256 c db)) = foreign_keys db.
Proof.
  destruct c as [now data | now data | now data | now uuid data | data]; cbn [call];
    apply (foreign_keys_kept sha256 0 "" data db)
    || apply (foreign_keys_kept sha256 now "" data db)
    || apply (foreign_keys_kept sha256 now uuid data db).
Qed.

Lemma run_calls_fst {A} (op : M A) (ops : list (M A)) (db : Database) :
  fst (run_calls (op :: ops) db) = fst (run_calls ops (fst (op db))).
Proof.
  cbn [run_calls]. destruct (op db) as [db1 o]. cbn [fst].
  destruct (run_calls ops db1) as [db2 os]. reflexivity.
Qed.

(** X1: primary keys and prompt hashes stay unique.  For every database
    in which no table holds an [id] twice and no two prompts share a
    [prompt_hash], and for every sequence of calls of the five writing
    operations, each of which may return or throw, the same is true of
    the database the sequence leaves. *)
Theorem stored_keys_stay_unique :
  forall (calls : list Call) (db : Database),
    unique_keys db ->
    unique_keys (fst (run_calls (map (call sha256) calls) db)).
Proof.
  induction calls as [|c calls IH]; intros db Hdb; [exact Hdb|].
  cbn [map]. rewrite run_calls_fst. apply IH, call_unique_keys, Hdb.
Qed.

(** X2: references stay valid.  With foreign keys enforced, when every
    message has its conversation, every capture and every chunk its
    message, and every chunk that names a capture has it, the same is
    true after every sequence of calls of the five writing operations,
    and enforcement is still on. *)
Theorem stored_references_stay_valid :
  forall (calls : list Call) (db : Database),
    foreign_keys db = true ->
    referential_integrity db ->
    referential_integrity (fst (run_calls (map (call sha256) calls) db))
    /\ foreign_keys (fst (run_calls (map (call sha256) calls) db)) = true.
Proof.
  induction calls as [|c calls IH]; intros db Hfk Hri; [split; assumption|].
  cbn [map]. rewrite run_calls_fst. apply IH.
  - rewrite call_foreign_keys. exact Hfk.
  - apply call_referential_integrity; assumption.
Qed.

(** X3: NOT NULL columns stay filled.  When every row holds a value in
    each column the schema declares NOT NULL, the same is true after
    every sequence of calls of the five writing operations: neither the
    [DO UPDATE] of the two upserts nor the two triggers write a NULL
    there. *)
Theorem not_null_columns_stay_filled :
  forall (calls : list Call) (db : Database),
    not_null_columns db ->
    not_null_columns (fst (run_calls (map (call sha256) calls) db)).
Proof.
  induction calls as [|c calls IH]; intros db Hdb; [exact Hdb|].
  cbn [map]. rewrite run_calls_fst. apply IH, call_not_null_columns, Hdb.
Qed.

End Reachable.

(** ** Concrete runs *)

(** A run of X1: from the initialised database, a conversation and a
    message are each sent twice; one row of each is stored. *)
Lemma stored_keys_witness_redelivery :
  let conversation := [ ("id", Str "c1"); ("platform", Str "x");
                        ("started_at", Num 1); ("last_activity", Num 1) ] in
  let message := [ ("id", Str "m1"); ("conversation_id", Str "c1"); ("timestamp", Num 2);
                   ("role", Str "user"); ("content", Str "hi") ] in
  let calls := [ UpsertConversation 1 conversation; InsertMessage 2 message;
                 InsertMessage 3 message; UpsertConversation 4 conversation ] in
  let db := fst (run_calls (map (call (fun s => s)) calls) init) in
  unique_keys init
  /\ unique_keys db
  /\ keys Conversation.id (conversations db) = ["c1"]
  /\ keys Message.id (messages db) = ["m1"].
Proof.
  cbv zeta.
  assert (H : unique_keys init) by (repeat split; constructor).
  split; [exact H|]. split; [|split; reflexivity].
  exact (stored_keys_stay_unique (fun s => s) _ init H).
Defined.

(** A run of X2: from the initialised database, a message of a stored
    conversation and a chunk of that message are stored; a message of an
    unknown conversation is not. *)
Lemma stored_references_witness_from_init :
  let conversation := [ ("id", Str "c1"); ("platform", Str "x");
                        ("started_at", Num 1); ("last_activity", Num 1) ] in
  let message := [ ("id", Str "m1"); ("conversation_id", Str "c1"); ("timestamp", Num 2);
                   ("role", Str "user"); ("content", Str "hi") ] in
  let orphan := [ ("id", Str "m2"); ("conversation_id", Str "c2"); ("timestamp", Num 3);
                  ("role", Str "user"); ("content", Str "hi") ] in
  let chunk := [ ("id", Str "k1"); ("message_id", Str "m1"); ("chunk_index", Num 0);
                 ("timestamp", Num 4) ] in
  let calls := [ UpsertConversation 1 conversation; InsertMessage 2 message;
                 InsertMessage 3 orphan; InsertStreamingChunk chunk ] in
  let db := fst (run_calls (map (call (fun s => s)) calls) init) in
  referential_integrity db
  /\ foreign_keys db = true
  /\ keys Message.id (messages db) = ["m1"]
  /\ keys StreamingChunk.id (streaming_chunks db) = ["k1"].
Proof.
  cbv zeta.
  assert (H : referential_integrity init) by (repeat split; constructor).
  match goal with
  | |- referential_integrity (fst (run_calls (map _ ?calls) _)) /\ _ =>
      destruct (stored_references_stay_valid (fun s => s) calls init eq_refl H) as [R F]
  end.
  split; [exact R|]. split; [exact F|]. split; reflexivity.
Defined.

(** A run of X3: a conversation without a platform is refused, and the
    trigger of a message insert writes the message's timestamp into
    [last_activity]. *)
Lemma not_null_columns_witness_from_init :
  let conversation := [ ("id", Str "c1"); ("platform", Str "x");
                        ("started_at", Num 1); ("last_activity", Num 1) ] in
  let message := [ ("id", Str "m1"); ("conversation_id", Str "c1"); ("timestamp", Num 2);
                   ("role", Str "user"); ("content", Str "hi") ] in
  let nameless := [ ("id", Str "c2"); ("started_at", Num 1); ("last_activity", Num 1) ] in
  let calls := [ UpsertConversation 1 conversation; UpsertConversation 2 nameless;
                 InsertMessage 2 message ] in
  let db := fst (run_calls (map (call (fun s => s)) calls) init) in
  not_null_columns db
  /\ keys Conversation.id (conversations db) = ["c1"]
  /\ map Conversation.last_activity (conversations db) = [Some 2].
Proof.
  cbv zeta.
  assert (H : not_null_columns init) by (repeat split; constructor).
  split; [|split; reflexivity].
  exact (not_null_columns_stay_filled (fun s => s) _ init H).
Defined.


(** A run of X5: message [m1] (10 tokens) is stored; sent again it is
    refused on its primary key, and its conversation still counts one
    message and 10 tokens. *)
Lemma duplicate_ids_witness_redelivered_message :
  let db :=
    fst (run_calls
           [ upsertConversation 1 [ ("id", Str "c1"); ("platform", Str "x");
                                    ("started_at", Num 1); ("last_activity", Num 1) ];
             insertMessage 2 [ ("id", Str "m1"); ("conversation_id", Str "c1");
                               ("timestamp", Num 2); ("role", Str "user");
                               ("content", Str "hi"); ("tokens_total", Num 10) ] ]
           init) in
  let again := [ ("id", Str "m1"); ("conversation_id", Str "c1"); ("timestamp", Num 3);
                 ("role", Str "user"); ("content", Str "hi"); ("tokens_total", Num 10) ] in
  (exists e, insertMessage 3 again db = (db, Throws e))
  /\ insertMessage 3 again db = (db, Throws (SQLITE_CONSTRAINT_PRIMARYKEY "messages.id"))
  /\ option_map Conversation.message_count (getConversation "c1" db) = Some (Some 1)
  /\ option_map Conversation.total_tokens (getConversation "c1" db) = Some (Some 10).
Proof.
  cbv zeta. split; [|repeat split; reflexivity].
  match goal with
  | |- exists e, insertMessage ?n ?data ?db = _ =>
      exact (proj1 (duplicate_ids_rejected n data db) eq_refl)
  end.
Defined.

(** A run of X6: the upsert that created [c1], made again a moment
    later, leaves the database as it is. *)
Lemma upsertConversation_replayed_witness :
  let data := [ ("id", Str "c1"); ("platform", Str "x"); ("started_at", Num 1);
                ("last_activity", Num 5); ("message_count", Num 3) ] in
  let db := fst (upsertConversation 1 data init) in
  upsertConversation 1 data init = (db, Returns tt)
  /\ upsertConversation 2 data db = (db, Returns tt)
  /\ List.length (conversations db) = 1%nat.
Proof.
  cbv zeta. split; [reflexivity|]. split; [|reflexivity].
  match goal with
  | |- upsertConversation 2 ?data ?db = _ =>
      exact (upsertConversation_replayed 1 2 data init db (Returns tt) "c1" eq_refl eq_refl)
  end.
Defined.

(** A run of X7: [c1] is created on platform [x] with title [T]; a second
    upsert on platform [y] with four messages keeps platform and title
    and stores the count and the activity time. *)
Lemma upserted_conversation_witness_new_and_known :
  let first := [ ("id", Str "c1"); ("platform", Str "x"); ("started_at", Num 1);
                 ("last_activity", Num 1); ("title", Str "T") ] in
  let second := [ ("id", Str "c1"); ("platform", Str "y"); ("started_at", Num 9);
                  ("last_activity", Num 9); ("message_count", Num 4) ] in
  let db1 := fst (upsertConversation 1 first init) in
  let db2 := fst (upsertConversation 9 second db1) in
  (exists c, getConversation "c1" db1 = Some c
             /\ Conversation.platform c = Some "x"
             /\ Conversation.message_count c = Some 0)
  /\ (exists c, getConversation "c1" db2 = Some c
                /\ Conversation.platform c = Some "x"
                /\ Conversation.title c = Some "T"
                /\ Conversation.last_activity c = Some 9
                /\ Conversation.message_count c = Some 4).
Proof.
  cbv zeta. split.
  - match goal with
    | |- exists c, getConversation _ (fst (upsertConversation ?n ?data ?db)) = _ /\ _ =>
        destruct (upserted_conversation_found n data db (fst (upsertConversation n data db))
                    "c1" eq_refl eq_refl eq_refl) as (c & G & _ & _ & M & _ & _ & R)
    end.
    exists c. cbn in R. destruct R as (P & _). repeat split; assumption.
  - match goal with
    | |- exists c, getConversation _ (fst (upsertConversation ?n ?data ?db)) = _ /\ _ =>
        destruct (upserted_conversation_found n data db (fst (upsertConversation n data db))
                    "c1" eq_refl eq_refl eq_refl) as (c & G & _ & L & M & _ & _ & R)
    end.
    exists c. cbn in R. destruct R as (P & _ & T & _). repeat split; assumption.
Defined.


(** A run of X9: a second capture of message [m1] is stored, and
    [getApiCapture] goes on yielding the first. *)
Lemma first_capture_witness_second_capture :
  let capture id model :=
    [ ("id", Str id); ("message_id", Str "m1"); ("timestamp", Num 3);
      ("request_url", Str "https://api.openai.com/v1/chat/completions");
      ("model", Str model) ] in
  let db :=
    fst (run_calls
           [ upsertConversation 1 [ ("id", Str "c1"); ("platform", Str "x");
                                    ("started_at", Num 1); ("last_activity", Num 1) ];
             insertMessage 2 [ ("id", Str "m1"); ("conversation_id", Str "c1");
                               ("timestamp", Num 2); ("role", Str "assistant");
                               ("content", Str "hi") ];
             insertApiCapture 3 (capture "a1" "gpt-4") ]
           init) in
  let db' := fst (insertApiCapture 4 (capture "a2" "gpt-5") db) in
  List.length (api_captures db') = 2%nat
  /\ getApiCapture "m1" db' = getApiCapture "m1" db
  /\ option_map ApiCapture.model (getApiCapture "m1" db') = Some (Some "gpt-4").
Proof.
  cbv zeta. split; [reflexivity|]. split; [|reflexivity].
  match goal with
  | |- getApiCapture _ (fst (insertApiCapture ?n ?data ?db)) = _ =>
      destruct (first_capture_of_a_message_stays n data db
                  (fst (insertApiCapture n data db)) "m1" eq_refl eq_refl)
        as (NEW & _ & _ & _ & _ & _ & G)
  end.
  rewrite G. reflexivity.
Defined.

(** A run of X10: with prompt [P] stored, upserting prompt [Q] leaves the
    row of [P] with its count of 1 (the hash taken as the text
    itself). *)
Lemma other_prompts_witness_two_texts :
  let prompt text := [ ("platform", Str "x"); ("prompt_text", Str text) ] in
  let db := fst (upsertSystemPrompt (fun s => s) 1 "u1" (prompt "P") init) in
  let db' := fst (upsertSystemPrompt (fun s => s) 2 "u2" (prompt "Q") db) in
  prompts_with_hash "P" db' = prompts_with_hash "P" db
  /\ map SystemPrompt.occurrence_count (prompts_with_hash "P" db') = [Some 1]
  /\ List.length (system_prompts db') = 2%nat.
Proof.
  cbv zeta. split; [|split; reflexivity].
  match goal with
  | |- prompts_with_hash _ (fst (upsertSystemPrompt ?h ?n ?u ?data ?db)) = _ =>
      refine (proj1 (other_prompts_untouched h n u data db
                       (fst (upsertSystemPrompt h n u data db)) (Returns tt) "P" _ eq_refl))
  end.
  intros text E. inversion E. discriminate.
Defined.

End StoreLaws.

(* ================================================================== *)
(** * Laws of the ingestion server *)
(* ================================================================== *)

Module ServerLaws.

Import Store Server StoreProofs ServerProofs.

Lemma world_eta (w : World) : mkWorld (database w) (ws w) = w.
Proof. destruct w; reflexivity. Qed.

Lemma strict_eq_true (a : value) (literal : string) :
  strict_eq a literal = true -> a = Str literal.
Proof.
  destruct a; simpl; try discriminate. intros H. apply String.eqb_eq in H. congruence.
Qed.

(** ** The message handler *)

Lemma handleUserMessage_never_returns (rt : Runtime) (data : value) (w : World) :
  exists d e, handleUserMessage rt data w = (mkWorld d (ws w), Throws e).
Proof.
  assert (Hobj : forall props, exists d e,
             handleUserMessage rt (Obj props) w = (mkWorld d (ws w), Throws e)).
  { intros props. destruct (handleUserMessage_throws rt props w) as (e & md & H & _).
    rewrite H. eauto. }
  destruct data as [| |b|n|s|items|props]; try apply (Hobj []); [| |apply Hobj].
  - exists (database w). eexists. unfold handleUserMessage, bind. simpl.
    unfold throw. rewrite world_eta. reflexivity.
  - exists (database w). eexists. unfold handleUserMessage, bind. simpl.
    unfold throw. rewrite world_eta. reflexivity.
Qed.

Section Handlers.

Variable sha256 : string -> string.
Variable rt : Runtime.

(** X11: an envelope of type [message] is never acknowledged.  On an open
    connection, whatever its [data], [handleMessage] answers it with
    exactly one error notification and no acknowledgment:
    [handleUserMessage] throws on every input, in the insert or, when
    the insert returned, in the follow-up conversation upsert. *)
Theorem message_envelopes_never_acknowledged :
  forall (envelope : object) (w : World),
    readyState (ws w) = OPEN ->
    strict_eq envelope.["type"] "message" = true ->
    exists w' err,
      handleMessage sha256 rt (Obj envelope) w = (w', Returns tt)
      /\ readyState (ws w') = OPEN
      /\ sent (ws w') = sent (ws w) ++ [error_notification rt err].
Proof.
  intros envelope w Hopen Htype. apply strict_eq_true in Htype.
  unfold handleMessage, handleMessage_on, try_catch, bind.
  change (dispatch_on rt (methods sha256 rt)) with (dispatch sha256 rt). cbn [properties ret].
  unfold dispatch, dispatch_on. rewrite Htype.
  cbn [strict_eq String.eqb Ascii.eqb Bool.eqb methods this_handleUserMessage].
  destruct (handleUserMessage_never_returns rt envelope.["data"] w) as (d & e & H).
  rewrite H. unfold sendError, send. cbn [ws readyState]. rewrite Hopen.
  eexists. exists e. split; [reflexivity|]. split; reflexivity.
Qed.

(** ** Envelopes no handler stores *)

(** X12: a ping or an envelope of unknown type changes nothing.  On an
    open connection, for every envelope whose type is none of
    [conversation], [message], [api_capture], [system_prompt] and
    [streaming_chunk], [handleMessage] leaves the database as it is and
    sends the acknowledgment, after the pong when the type is [ping]. *)
Theorem unstored_types_change_nothing :
  forall (envelope : object) (w : World),
    readyState (ws w) = OPEN ->
    stores envelope.["type"] = false ->
    handleMessage sha256 rt (Obj envelope) w
    = (mkWorld (database w)
         (mkWebSocket OPEN (sent (ws w) ++ replies rt envelope ++ [ack rt envelope])),
       Returns tt).
Proof.
  intros envelope w Hopen Htype. unfold stores in Htype.
  repeat (apply orb_false_iff in Htype as [Htype ?]).
  unfold handleMessage, handleMessage_on, try_catch, bind.
  change (dispatch_on rt (methods sha256 rt)) with (dispatch sha256 rt). cbn [properties ret].
  unfold dispatch, dispatch_on, replies.
  repeat match goal with H : strict_eq _ _ = false |- _ => rewrite H; clear H end.
  destruct (strict_eq envelope.["type"] "ping").
  - unfold send. rewrite Hopen. cbn [ws readyState database sent].
    rewrite <- app_assoc. reflexivity.
  - unfold ret, send. rewrite Hopen. reflexivity.
Qed.

(** ** What a computation reads of the connection *)

Lemma blind_ret {A} (a : A) : blind (ret a).
Proof. intros w1 w2 H. auto. Qed.

Lemma blind_throw {A} (e : Error) : blind (@throw World A e).
Proof. intros w1 w2 H. auto. Qed.

Lemma blind_db {A} (m : Store.M A) : blind (db m).
Proof.
  intros w1 w2 H. unfold db. rewrite H. destruct (m (database w2)). auto.
Qed.

Lemma blind_send (message : object) : blind (send message).
Proof.
  intros w1 w2 H. unfold send.
  destruct (readyState (ws w1)), (readyState (ws w2)); auto.
Qed.

Lemma blind_properties (property : string) (data : value) :
  blind (@properties World property data).
Proof. destruct data; intros w1 w2 H; auto. Qed.

Lemma blind_bind {A B} (m : ST World A) (k : A -> ST World B) :
  blind m -> (forall a, blind (k a)) -> blind (bind m k).
Proof.
  intros Hm Hk w1 w2 H. unfold bind. destruct (Hm w1 w2 H) as [Hd Ho].
  destruct (m w1) as [w1' o1], (m w2) as [w2' o2]. simpl in Hd, Ho. subst o2.
  destruct o1 as [a|e]; [apply Hk; exact Hd | auto].
Qed.

Lemma blind_try_catch {A} (m : ST World A) (h : Error -> ST World A) :
  blind m -> (forall e, blind (h e)) -> blind (try_catch m h).
Proof.
  intros Hm Hh w1 w2 H. unfold try_catch. destruct (Hm w1 w2 H) as [Hd Ho].
  destruct (m w1) as [w1' o1], (m w2) as [w2' o2]. simpl in Hd, Ho. subst o2.
  destruct o1 as [a|e]; [auto | apply Hh; exact Hd].
Qed.

Lemma mute_silent {A} (m : ST World A) : silent m -> mute m.
Proof. intros H w _. apply H. Qed.

Lemma mute_send (message : object) : mute (send message).
Proof.
  intros w H. unfold send.
  destruct (readyState (ws w)) eqn:E; try reflexivity. congruence.
Qed.

Lemma mute_bind {A B} (m : ST World A) (k : A -> ST World B) :
  mute m -> (forall a, mute (k a)) -> mute (bind m k).
Proof.
  intros Hm Hk w H. unfold bind. specialize (Hm w H).
  destruct (m w) as [w1 [a|e]]; simpl in *; [|exact Hm].
  rewrite Hk; [exact Hm | rewrite Hm; exact H].
Qed.

Lemma mute_try_catch {A} (m : ST World A) (h : Error -> ST World A) :
  mute m -> (forall e, mute (h e)) -> mute (try_catch m h).
Proof.
  intros Hm Hh w H. unfold try_catch. specialize (Hm w H).
  destruct (m w) as [w1 [a|e]]; simpl in *; [exact Hm|].
  rewrite Hh; [exact Hm | rewrite Hm; exact H].
Qed.

Lemma blind_store_system_prompts (data : object) (prompts : list value) :
  forall i, blind (store_system_prompts sha256 rt data i prompts).
Proof.
  induction prompts as [|p prompts IH]; intros i; simpl;
    [apply blind_ret | apply blind_bind; [apply blind_db | intros _; apply IH]].
Qed.

Lemma blind_dispatch (message : object) : blind (dispatch sha256 rt message).
Proof.
  unfold dispatch, dispatch_on.
  cbn [methods this_handleConversation this_handleUserMessage this_handleApiCapture
       this_handleSystemPrompt this_handleStreamingChunk].
  repeat match goal with
         | |- blind (if ?c then _ else _) => destruct c
         end;
    try apply blind_send; try apply blind_ret;
    [ unfold handleConversation | unfold handleUserMessage | unfold handleApiCapture
    | unfold handleSystemPrompt | unfold handleStreamingChunk ];
    repeat (apply blind_bind; [|intros ?]);
    try match goal with
        | |- blind (match ?items with Some _ => _ | None => _ end) => destruct items
        end;
    auto using blind_properties, blind_db, blind_store_system_prompts, blind_throw.
Qed.

Lemma mute_dispatch (message : object) : mute (dispatch sha256 rt message).
Proof.
  unfold dispatch, dispatch_on.
  cbn [methods this_handleConversation this_handleUserMessage this_handleApiCapture
       this_handleSystemPrompt this_handleStreamingChunk].
  destruct (silent_handlers sha256 rt message.["data"]) as (H1 & H2 & H3 & H4 & H5).
  repeat match goal with
         | |- mute (if ?c then _ else _) => destruct c
         end;
    auto using mute_silent, mute_send, silent_ret.
Qed.

(** X13: what is stored does not depend on the connection.  The database
    [handleMessage] leaves is the same whatever the state of the socket
    and whatever was sent on it before; and on a socket that is not open
    it sends nothing. *)
Theorem ingestion_does_not_read_the_socket :
  forall (message : value) (w1 w2 : World),
    database w1 = database w2 ->
    database (fst (handleMessage sha256 rt message w1))
    = database (fst (handleMessage sha256 rt message w2))
    /\ (readyState (ws w1) <> OPEN ->
        ws (fst (handleMessage sha256 rt message w1)) = ws w1).
Proof.
  intros message w1 w2 H. split.
  - apply (blind_try_catch
             (bind (properties "type" message)
                (fun m => bind (dispatch sha256 rt m) (fun _ => send (ack rt m))))
             (fun err => sendError rt (message_of err))); [| |exact H].
    + apply blind_bind; [apply blind_properties | intros m].
      apply blind_bind; [apply blind_dispatch | intros _; apply blind_send].
    + intros e. apply blind_send.
  - apply (mute_try_catch
             (bind (properties "type" message)
                (fun m => bind (dispatch sha256 rt m) (fun _ => send (ack rt m))))
             (fun err => sendError rt (message_of err))).
    + apply mute_bind; [apply mute_silent, silent_properties | intros m].
      apply mute_bind; [apply mute_dispatch | intros _; apply mute_send].
    + intros e. apply mute_send.
Qed.

(** ** Failures and what they leave behind *)

Lemma upsertConversation_throws_unchanged (now : Z) (data : object) (d d' : Database)
    (e : Error) :
  upsertConversation now data d = (d', Throws e) -> d' = d.
Proof.
  unfold upsertConversation, conversations_upsert.
  destruct (first_error _); [intros H; inversion H; reflexivity|].
  destruct (existsb _ _); discriminate.
Qed.

Lemma upsertSystemPrompt_throws_unchanged (now : Z) (uuid : string) (data : object)
    (d d' : Database) (e : Error) :
  upsertSystemPrompt sha256 now uuid data d = (d', Throws e) -> d' = d.
Proof.
  unfold upsertSystemPrompt.
  destruct (data.["prompt_text"]); try (intros H; inversion H; reflexivity).
  unfold system_prompts_upsert.
  destruct (first_error _); [intros H; inversion H; reflexivity|].
  destruct (existsb _ _); [discriminate|].
  destruct (existsb _ _); [intros H; inversion H; reflexivity | discriminate].
Qed.

Lemma insertStreamingChunk_throws_unchanged (data : object) (d d' : Database) (e : Error) :
  insertStreamingChunk data d = (d', Throws e) -> d' = d.
Proof.
  unfold insertStreamingChunk, streaming_chunks_insert.
  destruct (first_error _); [intros H; inversion H; reflexivity|].
  destruct (existsb _ _); [intros H; inversion H; reflexivity|].
  destruct (references _ _ _ _); [discriminate | intros H; inversion H; reflexivity].
Qed.

Lemma db_throws_unchanged {A} (m : Store.M A) (w w' : World) (e : Error) :
  (forall d d' e, m d = (d', Throws e) -> d' = d) ->
  db m w = (w', Throws e) -> w' = w.
Proof.
  intros Hm. unfold db. destruct (m (database w)) as [d' [a|e']] eqn:E; intros H;
    inversion H; subst. apply Hm in E. subst d'. apply world_eta.
Qed.

(** A handler that reads [data] and runs one statement either returns
    or leaves the world as it found it. *)
Lemma one_statement (property : string) (data : value) (k : object -> ST World unit)
    (w w' : World) (e : Error) :
  (forall props w w' e, k props w = (w', Throws e) -> w' = w) ->
  bind (properties property data) k w = (w', Throws e) ->
  w' = w.
Proof.
  intros Hk. unfold bind.
  destruct data as [| |b|n|s|items|props]; simpl; unfold throw, ret;
    try (intros H; inversion H; reflexivity); apply Hk.
Qed.

(** X14: a [conversation], [system_prompt] or [streaming_chunk] envelope
    is stored or leaves no trace.  On an open connection the answer to
    such an envelope is either the acknowledgment alone, or one error
    notification alone, and then the database is as it was before the
    envelope. *)
Theorem one_statement_envelopes_all_or_nothing :
  forall (envelope : object) (w : World),
    readyState (ws w) = OPEN ->
    envelope.["type"] = Str "conversation"
    \/ envelope.["type"] = Str "system_prompt"
    \/ envelope.["type"] = Str "streaming_chunk" ->
    let w' := fst (handleMessage sha256 rt (Obj envelope) w) in
    sent (ws w') = sent (ws w) ++ [ack rt envelope]
    \/ (exists err,
           sent (ws w') = sent (ws w) ++ [error_notification rt err]
           /\ database w' = database w).
Proof.
  intros envelope w Hopen Htype. cbv zeta.
  unfold handleMessage, handleMessage_on, try_catch, bind.
  change (dispatch_on rt (methods sha256 rt)) with (dispatch sha256 rt). cbn [properties ret].
  destruct (dispatch sha256 rt envelope w) as [w1 [[]|e]] eqn:D;
    destruct (dispatch_sent sha256 rt envelope w w1 _ Hopen D) as [R S].
  - left. unfold send. rewrite R. cbn [fst ws sent]. rewrite S.
    unfold replies.
    assert (strict_eq envelope.["type"] "ping" = false) as ->
      by (destruct Htype as [-> | [-> | ->]]; reflexivity).
    rewrite app_nil_r. reflexivity.
  - right. exists e. unfold sendError, send. rewrite R. cbn [fst ws sent database].
    rewrite S. split; [reflexivity|].
    assert (w1 = w); [|subst; reflexivity].
    unfold dispatch, dispatch_on in D.
    cbn [methods this_handleConversation this_handleUserMessage this_handleApiCapture
         this_handleSystemPrompt this_handleStreamingChunk] in D.
    destruct Htype as [T | [T | T]]; rewrite T in D;
      cbn [strict_eq String.eqb Ascii.eqb Bool.eqb] in D;
      [ unfold handleConversation in D | unfold handleSystemPrompt in D
      | unfold handleStreamingChunk in D ];
      (apply one_statement in D; [exact D|]);
      intros props w0 w0' e0; apply db_throws_unchanged; intros d d' e'.
    + apply upsertConversation_throws_unchanged.
    + apply upsertSystemPrompt_throws_unchanged.
    + apply insertStreamingChunk_throws_unchanged.
Qed.

Lemma insertApiCapture_orphan (now : Z) (data : object) (d : Database) :
  foreign_keys d = true ->
  (forall real_to_text : Z -> string,
      ~ stored (messages d) Message.id (stored_text real_to_text data.["message_id"])) ->
  exists e, insertApiCapture now data d = (d, Throws e).
Proof.
  intros Hfk Hnone'.
  assert (Hnone := fun H => Hnone' (fun _ => EmptyString) (stored_TEXT _ _ _ _ H)).
  apply Bool.not_true_is_false in Hnone.
  unfold insertApiCapture, api_captures_insert.
  destruct (first_error _); [eauto|].
  destruct (existsb _ (api_captures d)); [eauto|].
  unfold references. rewrite Hfk. simpl ApiCapture.message_id.
  rewrite Hnone. simpl. eauto.
Qed.


(** ** The connection *)

Lemma replies_are_pongs (envelope : object) :
  Forall (fun frame : object => frame.["type"] = Str "pong") (replies rt envelope).
Proof.
  unfold replies. destruct (strict_eq _ _); repeat constructor.
Qed.

Lemma handleMessage_replies (message : value) (w : World) :
  readyState (ws w) = OPEN ->
  exists w' pongs reply,
    handleMessage sha256 rt message w = (w', Returns tt)
    /\ readyState (ws w') = OPEN
    /\ sent (ws w') = sent (ws w) ++ pongs ++ [reply]
    /\ Forall (fun frame : object => frame.["type"] = Str "pong") pongs
    /\ (reply.["type"] = Str "ack" \/ reply.["type"] = Str "error").
Proof.
  intros Hopen. unfold handleMessage, handleMessage_on, try_catch, bind.
  change (dispatch_on rt (methods sha256 rt)) with (dispatch sha256 rt).
  destruct (properties "type" message w) as [w0 [m|e]] eqn:P;
    assert (w0 = w) by (destruct message; simpl in P; inversion P; reflexivity);
    subst w0.
  - destruct (dispatch sha256 rt m w) as [w1 [[]|e]] eqn:D;
      destruct (dispatch_sent sha256 rt m w w1 _ Hopen D) as [R S].
    + unfold send. rewrite R. eexists. exists (replies rt m), (ack rt m).
      split; [reflexivity|]. cbn [ws readyState sent]. rewrite S, <- app_assoc.
      split; [reflexivity|]. split; [reflexivity|].
      split; [apply replies_are_pongs | left; reflexivity].
    + unfold sendError, send. rewrite R. eexists. exists [], (error_notification rt e).
      split; [reflexivity|]. cbn [ws readyState sent]. rewrite S.
      split; [reflexivity|]. split; [reflexivity|].
      split; [constructor | right; reflexivity].
  - unfold sendError, send. rewrite Hopen. eexists. exists [], (error_notification rt e).
    split; [reflexivity|]. cbn [ws readyState sent].
    split; [reflexivity|]. split; [reflexivity|].
    split; [constructor | right; reflexivity].
Qed.

Section Connection.

Variable JSON_parse : string -> string + value.

(** X16: every frame gets one final answer.  For every text received on
    an open connection, the ['message'] listener returns, the
    connection stays open, and what it sent is at most a pong followed
    by exactly one frame of type [ack] or [error].  A text that is not
    JSON is answered by the error [Invalid JSON] and leaves the database
    as it is. *)
Theorem every_frame_is_answered :
  forall (data : string) (w : World),
    readyState (ws w) = OPEN ->
    exists w' pongs reply,
      on_message sha256 rt JSON_parse data w = (w', Returns tt)
      /\ readyState (ws w') = OPEN
      /\ sent (ws w') = sent (ws w) ++ pongs ++ [reply]
      /\ Forall (fun frame : object => frame.["type"] = Str "pong") pongs
      /\ (reply.["type"] = Str "ack" \/ reply.["type"] = Str "error")
      /\ (forall err, JSON_parse data = inl err ->
            database w' = database w
            /\ pongs = []
            /\ reply = [ ("type", Str "error"); ("error", Str "Invalid JSON");
                         ("timestamp", Num (Date_now rt)) ]).
Proof.
  intros data w Hopen. unfold on_message.
  destruct (JSON_parse data) as [err|message].
  - unfold sendError, send. rewrite Hopen. eexists. exists [].
    eexists. split; [reflexivity|]. cbn [ws readyState sent database].
    split; [reflexivity|]. split; [reflexivity|]. split; [constructor|].
    split; [right; reflexivity|]. intros _ _. auto.
  - destruct (handleMessage_replies message w Hopen) as (w' & pongs & reply & H & R & S & F & T).
    exists w', pongs, reply. unfold try_catch. rewrite H.
    split; [reflexivity|]. split; [exact R|]. split; [exact S|]. split; [exact F|].
    split; [exact T|]. intros err E. discriminate.
Qed.

End Connection.

End Handlers.

(** ** Concrete runs *)

(** A run of X11: a well-formed message of the stored conversation [c1] is
    inserted, and yet answered by an error notification. *)
Lemma message_envelopes_witness_stored_but_refused :
  let rt := mkRuntime 50 (fun _ => "uuid") in
  let c1 := [ ("id", Str "c1"); ("platform", Str "chatgpt");
              ("started_at", Num 10); ("last_activity", Num 10) ] in
  let w := mkWorld (fst (upsertConversation 10 c1 init)) (mkWebSocket OPEN []) in
  let envelope :=
    [ ("type", Str "message"); ("id", Str "e1");
      ("data", Obj [ ("id", Str "m1"); ("conversation_id", Str "c1");
                     ("platform", Str "chatgpt"); ("timestamp", Num 20);
                     ("role", Str "user"); ("content", Str "hello") ]) ] in
  (exists w' err,
      handleMessage (fun s => s) rt (Obj envelope) w = (w', Returns tt)
      /\ readyState (ws w') = OPEN
      /\ sent (ws w') = sent (ws w) ++ [error_notification rt err])
  /\ List.length (messages (database (fst (handleMessage (fun s => s) rt (Obj envelope) w))))
     = 1%nat.
Proof.
  cbv zeta. split; [|reflexivity].
  match goal with
  | |- exists w' err, handleMessage ?h ?rt (Obj ?envelope) ?w = _ /\ _ =>
      exact (message_envelopes_never_acknowledged h rt envelope w eq_refl eq_refl)
  end.
Defined.

(** A run of X12: the [INIT] envelope the extension sends on connecting is
    acknowledged and stores nothing. *)
Lemma unstored_types_witness_init_envelope :
  let rt := mkRuntime 7 (fun _ => "uuid") in
  let w := mkWorld init (mkWebSocket OPEN []) in
  let envelope := [ ("type", Str "INIT"); ("id", Str "e1");
                    ("data", Obj [("extensionVersion", Str "1.0.0")]) ] in
  handleMessage (fun s => s) rt (Obj envelope) w
  = (mkWorld init
       (mkWebSocket OPEN
          [ [("type", Str "ack"); ("messageId", Str "e1"); ("timestamp", Num 7)] ]),
     Returns tt).
Proof.
  cbv zeta.
  match goal with
  | |- handleMessage ?h ?rt (Obj ?envelope) ?w = _ =>
      exact (unstored_types_change_nothing h rt envelope w eq_refl eq_refl)
  end.
Defined.

(** A run of X13: a conversation arriving on a socket that has closed is
    stored as on an open one, and nothing is sent. *)
Lemma ingestion_witness_closed_socket :
  let rt := mkRuntime 7 (fun _ => "uuid") in
  let closed := mkWorld init (mkWebSocket CLOSED []) in
  let open := mkWorld init (mkWebSocket OPEN []) in
  let envelope :=
    Obj [ ("type", Str "conversation"); ("id", Str "e1");
          ("data", Obj [ ("id", Str "c1"); ("platform", Str "claude") ]) ] in
  database (fst (handleMessage (fun s => s) rt envelope closed))
  = database (fst (handleMessage (fun s => s) rt envelope open))
  /\ ws (fst (handleMessage (fun s => s) rt envelope closed)) = ws closed
  /\ List.length (conversations (database (fst (handleMessage (fun s => s) rt envelope closed))))
     = 1%nat.
Proof.
  cbv zeta.
  match goal with
  | |- database (fst (handleMessage ?h ?rt ?envelope ?w1))
       = database (fst (handleMessage _ _ _ ?w2)) /\ _ =>
      destruct (ingestion_does_not_read_the_socket h rt envelope w1 w2 eq_refl) as [A B]
  end.
  split; [exact A|]. split; [apply B; discriminate | reflexivity].
Defined.

(** A run of X14: a conversation without a platform is answered by an
    error notification and stores nothing. *)
Lemma one_statement_witness_conversation_without_platform :
  let rt := mkRuntime 7 (fun _ => "uuid") in
  let w := mkWorld init (mkWebSocket OPEN []) in
  let envelope := [ ("type", Str "conversation"); ("id", Str "e1");
                    ("data", Obj [("id", Str "c1")]) ] in
  let w' := fst (handleMessage (fun s => s) rt (Obj envelope) w) in
  (sent (ws w') = sent (ws w) ++ [ack rt envelope]
   \/ (exists err,
          sent (ws w') = sent (ws w) ++ [error_notification rt err]
          /\ database w' = database w))
  /\ conversations (database w') = [].
Proof.
  cbv zeta. split; [|reflexivity].
  match goal with
  | |- sent (ws (fst (handleMessage ?h ?rt (Obj ?envelope) ?w))) = _ \/ _ =>
      exact (one_statement_envelopes_all_or_nothing h rt envelope w eq_refl
               (or_introl eq_refl))
  end.
Defined.


(** A run of X16: the text of an opening brace is answered by
    [Invalid JSON]. *)
Lemma every_frame_witness_not_JSON :
  let rt := mkRuntime 7 (fun _ => "uuid") in
  let w := mkWorld init (mkWebSocket OPEN []) in
  exists w' pongs reply,
    on_message (fun s => s) rt Literals.JSON_parse "{" w = (w', Returns tt)
    /\ readyState (ws w') = OPEN
    /\ sent (ws w') = sent (ws w) ++ pongs ++ [reply]
    /\ database w' = database w
    /\ pongs = []
    /\ reply = [ ("type", Str "error"); ("error", Str "Invalid JSON");
                 ("timestamp", Num 7) ].
Proof.
  cbv zeta.
  destruct (every_frame_is_answered (fun s => s) (mkRuntime 7 (fun _ => "uuid"))
              Literals.JSON_parse "{" (mkWorld init (mkWebSocket OPEN [])) eq_refl)
    as (w' & pongs & reply & H & R & S & _ & _ & E).
  exists w', pongs, reply. destruct (E _ eq_refl) as (D & P & Y). auto 10.
Defined.

End ServerLaws.

(* ================================================================== *)
(** * Laws of the native messaging host *)
(* ================================================================== *)

Module HostLaws.

Import Host HostProofs.

Section Bridge.

Variable JSON_stringify : value -> string.
Variable JSON_parse : string -> string + value.
Variable Buffer_from : string -> list byte.
Variable Buffer_toString : list byte -> string.

#[local] Abbreviation submit := (sendMessageToDesktopApp JSON_stringify).
#[local] Abbreviation submit_all ms w := (fold_left (fun w m => submit m w) ms w).
#[local] Abbreviation deliver_all ss w :=
  (fold_left (fun w s => deliver JSON_stringify s w) ss w).
#[local] Abbreviation on_stdin := (Host.on_stdin JSON_stringify JSON_parse Buffer_toString).
#[local] Abbreviation step := (Host.step JSON_stringify JSON_parse Buffer_from Buffer_toString).
#[local] Abbreviation run := (Host.run JSON_stringify JSON_parse Buffer_from Buffer_toString).
#[local] Abbreviation outbound := (Host.outbound JSON_stringify).
#[local] Abbreviation offers := (Host.offers JSON_parse Buffer_toString).
#[local] Abbreviation offered :=
  (Host.offered JSON_stringify JSON_parse Buffer_from Buffer_toString).
#[local] Abbreviation frame := (sendMessageToChrome_bytes JSON_stringify Buffer_from).

(** ** Nothing submitted is lost *)

Lemma deliver_all_resolved (ss : list Settlement) :
  forall w, deliver_all ss w = submit_all (resolved ss) w.
Proof.
  induction ss as [|s ss IH]; intros w; [reflexivity|].
  destruct s as [m|err|]; simpl; apply IH.
Qed.

Lemma submit_outbound (m : value) (w : World) :
  drained w ->
  outbound (submit m w) = outbound w ++ [JSON_stringify m]
  /\ drained (submit m w)
  /\ stdout (submit m w) = stdout w.
Proof.
  intros Hw. unfold Host.outbound, drained, sendMessageToDesktopApp in *.
  destruct (ws w) as [[]|] eqn:E; simpl; rewrite ?E;
    try (rewrite map_app, app_assoc; repeat split; try reflexivity; discriminate).
  rewrite (Hw eq_refl). simpl. rewrite !app_nil_r. auto.
Qed.

Lemma submit_all_outbound (ms : list value) :
  forall w,
    drained w ->
    outbound (submit_all ms w) = outbound w ++ map JSON_stringify ms
    /\ drained (submit_all ms w)
    /\ stdout (submit_all ms w) = stdout w.
Proof.
  induction ms as [|m ms IH]; intros w Hw; simpl.
  - rewrite app_nil_r. auto.
  - destruct (submit_outbound m w Hw) as (O1 & D1 & S1).
    destruct (IH _ D1) as (O2 & D2 & S2).
    rewrite O2, O1, S2, S1, <- app_assoc. auto.
Qed.

Lemma offers_stdin (chunk : list byte) (w : World) :
  exists b r,
    on_stdin chunk w
    = set_stdin b r (submit_all (offers (Stdin chunk) w) w).
Proof.
  unfold Host.on_stdin, Host.offers. cbn [decode].
  destruct (reader w) as [r0|].
  - destruct (pump _ _ _ _) as [[ss r1] rest].
    exists rest, r1. rewrite app_nil_r, deliver_all_resolved. reflexivity.
  - eexists. exists None. reflexivity.
Qed.

Lemma step_outbound (e : Event) (w w' : World) :
  drained w ->
  step e w = Some w' ->
  outbound w' = outbound w ++ map JSON_stringify (offers e w) /\ drained w'.
Proof.
  intros Hw H. destruct e; simpl in H.
  - destruct (ws w); inversion H; subst. unfold Host.outbound, drained. simpl.
    rewrite app_nil_r. split; [reflexivity | discriminate].
  - destruct (timers w); inversion H; subst. unfold Host.outbound, drained. simpl.
    rewrite app_nil_r. split; [reflexivity | discriminate].
  - destruct (ws w) as [[]|]; inversion H; subst.
    destruct (resolve_stdin (on_open JSON_stringify w)) as (b & a & r & E). rewrite E.
    unfold on_open. rewrite send_queued_spec. unfold Host.outbound, drained. simpl.
    rewrite !app_nil_r. auto.
  - destruct (ws w); inversion H; subst. unfold on_close, Host.outbound, drained. simpl.
    rewrite app_nil_r. destruct (_ <? _); simpl; split; auto; discriminate.
  - destruct (ws w); inversion H; subst. unfold on_error. simpl.
    rewrite app_nil_r. auto.
  - destruct (ws w) as [[]|] eqn:E; inversion H; subst.
    unfold on_message, sendMessageToChrome, Host.outbound, drained in *.
    destruct (JSON_parse data); simpl; rewrite app_nil_r; auto.
  - inversion H; subst. destruct (submit_outbound message w Hw) as (O & D & _). auto.
  - destruct (fatal _ _ chunk w); inversion H; subst.
    destruct (offers_stdin chunk w) as (b & r & E). rewrite E.
    destruct (submit_all_outbound (offers (Stdin chunk) w) w Hw) as (O & D & _).
    unfold Host.outbound, drained in *. simpl. auto.
Qed.


(** ** The reconnect budget *)

Lemma step_budget (e : Event) (w w' : World) :
  unattended e = true ->
  step e w = Some w' ->
  (connections w' + reconnects_left w' = connections w + reconnects_left w)%nat
  /\ maxReconnectAttempts w' = maxReconnectAttempts w.
Proof.
  intros He H. unfold reconnects_left. destruct e; simpl in He, H; try discriminate.
  - destruct (timers w) as [|t ts] eqn:T; inversion H; subst. simpl. rewrite T. simpl.
    split; [lia | reflexivity].
  - destruct (ws w); inversion H; subst. unfold on_close. simpl.
    destruct (reconnectAttempts w <? maxReconnectAttempts w) eqn:L; simpl;
      [|split; reflexivity].
    apply Z.ltb_lt in L. rewrite length_app. simpl. split; [lia | reflexivity].
  - destruct (ws w); inversion H; subst. split; reflexivity.
  - destruct (ws w) as [[]|]; inversion H; subst.
    unfold on_message. destruct (JSON_parse data); split; reflexivity.
  - inversion H; subst.
    destruct (submit_keeps JSON_stringify message w) as (_ & B & C & D & E).
    rewrite B, C, D, E. split; reflexivity.
  - destruct (fatal _ _ chunk w); inversion H; subst.
    destruct (on_stdin_keeps JSON_stringify JSON_parse Buffer_toString chunk w)
      as (_ & B & C & D & E).
    cbv zeta in B, C, D, E. rewrite B, C, D, E. split; reflexivity.
Qed.

(** X18: the reconnect budget is never exceeded.  In every run in which
    the connection never opens and [connectToDesktopApp] is not called
    from outside, the sockets opened so far plus the reconnects still
    possible (timers pending, attempts left) stay the same at every
    step; so the host opens at most that many sockets more. *)
Theorem reconnects_never_exceed_the_budget :
  forall (events : list Event) (w w' : World),
    forallb unattended events = true ->
    run events w = Some w' ->
    (connections w' + reconnects_left w' = connections w + reconnects_left w)%nat
    /\ (connections w' <= connections w + reconnects_left w)%nat.
Proof.
  intros events w w' Hall H.
  assert (E : (connections w' + reconnects_left w' = connections w + reconnects_left w)%nat);
    [|split; [exact E | lia]].
  revert w w' Hall H.
  induction events as [|e events IH]; intros w w' Hall H.
  - simpl in H. inversion H; subst. reflexivity.
  - simpl in Hall. apply andb_true_iff in Hall as [He Hall].
    cbn [Host.run] in H. destruct (step e w) as [w1|] eqn:E; [|discriminate].
    destruct (step_budget e w w1 He E) as [B _].
    rewrite (IH w1 w' Hall H). exact B.
Qed.

(** ** What reaches stdout *)

Lemma submit_all_stdout (ms : list value) :
  forall w, stdout (submit_all ms w) = stdout w.
Proof.
  induction ms as [|m ms IH]; intros w; simpl; [reflexivity|].
  rewrite IH. unfold sendMessageToDesktopApp. destruct (ws w) as [[]|]; reflexivity.
Qed.

Lemma step_stdout (e : Event) (w w' : World) :
  step e w = Some w' ->
  stdout w' = stdout w ++ List.concat (map frame (received JSON_parse [e])).
Proof.
  intros H. destruct e; simpl in H; cbn [received flat_map map List.concat app].
  - destruct (ws w); inversion H; subst. simpl. rewrite app_nil_r. reflexivity.
  - destruct (timers w); inversion H; subst. simpl. rewrite app_nil_r. reflexivity.
  - destruct (ws w) as [[]|]; inversion H; subst.
    destruct (resolve_stdin (on_open JSON_stringify w)) as (b & a & r & E). rewrite E.
    unfold on_open. rewrite send_queued_spec. simpl. rewrite app_nil_r. reflexivity.
  - destruct (ws w); inversion H; subst. unfold on_close. simpl.
    destruct (_ <? _); simpl; rewrite app_nil_r; reflexivity.
  - destruct (ws w); inversion H; subst. simpl. rewrite app_nil_r. reflexivity.
  - destruct (ws w) as [[]|]; inversion H; subst. unfold on_message.
    destruct (JSON_parse data); simpl; rewrite !app_nil_r; reflexivity.
  - inversion H; subst. pose proof (submit_all_stdout [message] w) as S. simpl in S.
    rewrite S, app_nil_r. reflexivity.
  - destruct (fatal _ _ chunk w); inversion H; subst.
    destruct (offers_stdin chunk w) as (b & r & E). rewrite E.
    simpl. rewrite submit_all_stdout, app_nil_r. reflexivity.
Qed.

(** X19: stdout carries one frame per reply and nothing else.  After
    every run of events, what the host has written to stdout is what was
    there before followed by the frames of the desktop app's replies
    that parsed, in order of arrival; replies that do not parse, traffic
    from Chrome and reconnects write nothing. *)
Theorem stdout_holds_one_frame_per_reply :
  forall (events : list Event) (w w' : World),
    run events w = Some w' ->
    stdout w' = stdout w ++ List.concat (map frame (received JSON_parse events)).
Proof.
  induction events as [|e events IH]; intros w w' H.
  - simpl in H. inversion H; subst. simpl. rewrite app_nil_r. reflexivity.
  - cbn [Host.run] in H. destruct (step e w) as [w1|] eqn:E; [|discriminate].
    rewrite (IH w1 w' H), (step_stdout e w w1 E).
    assert (R : received JSON_parse (e :: events)
                = received JSON_parse [e] ++ received JSON_parse events)
      by (unfold received; simpl; rewrite app_nil_r; reflexivity).
    rewrite R, map_app, concat_app, app_assoc. reflexivity.
Qed.

(** ** From stdin to the desktop app *)

#[local] Abbreviation serializable :=
  (Host.serializable JSON_stringify JSON_parse Buffer_from Buffer_toString).
#[local] Abbreviation decode := (Host.decode JSON_parse Buffer_toString).
#[local] Abbreviation readMessageFromChrome :=
  (Host.readMessageFromChrome JSON_parse Buffer_toString).

Lemma deliver_all_resolved_map (ms : list value) (w : World) :
  deliver_all (map Resolved ms) w = submit_all ms w.
Proof.
  rewrite deliver_all_resolved. f_equal.
  induction ms as [|m ms IH]; [reflexivity|]. simpl. f_equal. exact IH.
Qed.

(** X21: what Chrome frames reaches the desktop app in order.  When the
    frames of JSON-serializable messages [ms] arrive on stdin cut into
    chunks in any way, at a host whose read loop waits for a header, the
    host hands [ms] in order to the socket when it is open, and appends
    [ms] in order to the queue when it is not. *)
Theorem chrome_frames_reach_the_desktop_app :
  forall (ms : list value) (chunks : list (list byte)) (w : World),
    Forall serializable ms ->
    List.concat chunks = List.concat (map frame ms) ->
    reader w = Some (readHeader_at (alloc 4) 0) ->
    buffered w = [] ->
    let w' := fold_left (fun w chunk => on_stdin chunk w) chunks w in
    match ws w with
    | Some OPEN =>
        to_desktop w' = to_desktop w ++ map JSON_stringify ms
        /\ messageQueue w' = messageQueue w
    | _ =>
        messageQueue w' = messageQueue w ++ ms
        /\ to_desktop w' = to_desktop w
    end.
Proof.
  intros ms chunks w Hall Hs Hr Hb. cbv zeta.
  destruct (on_stdin_decode JSON_stringify JSON_parse Buffer_toString chunks w)
    as (b & r & E).
  rewrite E, Hr, Hb. clear E.
  rewrite (decode_frames JSON_stringify JSON_parse Buffer_from Buffer_toString
             chunks ms (readHeader_at (alloc 4) 0) []); auto.
  - rewrite deliver_all_resolved_map.
    destruct (ws w) as [[]|] eqn:W;
      try (rewrite (submit_all_queued JSON_stringify ms w) by (rewrite W; discriminate);
           split; reflexivity).
    rewrite (submit_all_open JSON_stringify ms w W). split; reflexivity.
  - left. reflexivity.
  - destruct ms as [|m ms]; [left; reflexivity | right].
    inversion Hall as [|? ? Hm _]; subst.
    destruct (frame_length JSON_stringify JSON_parse Buffer_from Buffer_toString m Hm)
      as [_ L].
    simpl. lia.
Qed.

(** ** Streams that stall the read loop *)

Lemma decode_empty_payload (chunks : list (list byte)) :
  forall b, decode (Some (readChunk_at 0 (alloc 0) 0)) b chunks = [].
Proof.
  induction chunks as [|chunk chunks IH]; intros b; [reflexivity|].
  cbn [Host.decode].
  destruct (read_empty_payload_waits JSON_parse Buffer_toString (b ++ chunk)) as [_ R].
  rewrite R, pump_pending. apply IH.
Qed.

Lemma decode_empty_frame (chunks : list (list byte)) :
  forall (b rest : list byte),
    (List.length b < 4)%nat ->
    b ++ List.concat chunks = [x00; x00; x00; x00] ++ rest ->
    decode (Some (readHeader_at (alloc 4) 0)) b chunks = [].
Proof.
  induction chunks as [|chunk chunks IH]; intros b rest Hb Hs; [reflexivity|].
  cbn [Host.decode on_readable]. simpl List.concat in Hs. rewrite app_assoc in Hs.
  destruct (Nat.le_gt_cases 4 (List.length (b ++ chunk))) as [Hwhole | Hshort].
  - destruct (app_split_front [x00; x00; x00; x00] rest (b ++ chunk) (List.concat chunks) Hs
                Hwhole) as (u & -> & _).
    change [x00; x00; x00; x00] with (header_of 0).
    rewrite (read_header JSON_parse Buffer_toString 0 u) by reflexivity.
    destruct (read_empty_payload_waits JSON_parse Buffer_toString u) as [R _].
    rewrite R, pump_pending. apply decode_empty_payload.
  - rewrite read_header_wait by exact Hshort. rewrite pump_pending.
    apply (IH _ rest Hshort Hs).
Qed.

(** X22: a frame of length zero stalls the read loop for good.  When the
    stream on stdin starts with four zero bytes, then whatever follows
    and however the stream is cut into chunks, the host resolves no
    frame and hands nothing to the desktop app: [stdin.read(0)] never
    yields a buffer, so the read of the empty payload never ends. *)
Theorem empty_frame_stalls_the_read_loop :
  forall (chunks : list (list byte)) (rest : list byte) (w : World),
    reader w = Some (readHeader_at (alloc 4) 0) ->
    buffered w = [] ->
    List.concat chunks = [x00; x00; x00; x00] ++ rest ->
    let w' := fold_left (fun w chunk => on_stdin chunk w) chunks w in
    messageQueue w' = messageQueue w
    /\ to_desktop w' = to_desktop w
    /\ decode (Some (readHeader_at (alloc 4) 0)) [] chunks = [].
Proof.
  intros chunks rest w Hr Hb Hs. cbv zeta.
  assert (D : decode (Some (readHeader_at (alloc 4) 0)) [] chunks = [])
    by (apply (decode_empty_frame chunks [] rest); [simpl; lia | exact Hs]).
  destruct (on_stdin_decode JSON_stringify JSON_parse Buffer_toString chunks w)
    as (b & r & E).
  rewrite E, Hr, Hb, D. simpl. auto.
Qed.

Lemma decode_frame_then (payload : list byte) (chunks : list (list byte)) :
  (0 < N.of_nat (List.length payload) <= MAX_HWM)%N ->
  breaks (settle JSON_parse Buffer_toString payload) = true ->
  decode (Some (readHeader_at (alloc 4) 0)) [] (frame_of payload :: chunks)
  = [settle JSON_parse Buffer_toString payload].
Proof.
  intros Hlen Hbreak. cbn [Host.decode on_readable app].
  rewrite <- (app_nil_r (frame_of payload)) at 2.
  rewrite read_frame_header by exact Hlen.
  destruct (List.length (frame_of payload)); cbn [Host.pump]; rewrite Hbreak;
    rewrite decode_stopped; reflexivity.
Qed.

(** X23: a rejected frame whose error text contains [EOF] ends the read
    loop.  When the payload of the first frame, of at most [MAX_HWM]
    bytes, does not parse and the text of the error, after
    [Invalid JSON: ], contains [EOF], the loop of [start()] breaks: the
    frame is rejected, no reader is left waiting, and whatever arrives
    afterwards is never read nor handed to the desktop app. *)
Theorem frame_rejected_with_EOF_ends_the_read_loop :
  forall (payload : list byte) (err : string) (chunks : list (list byte)) (w : World),
    (0 < N.of_nat (List.length payload) <= MAX_HWM)%N ->
    JSON_parse (Buffer_toString payload) = inl err ->
    includes "EOF" ("Invalid JSON: " ++ err)%string = true ->
    reader w = Some (readHeader_at (alloc 4) 0) ->
    buffered w = [] ->
    let w' := fold_left (fun w chunk => on_stdin chunk w) (frame_of payload :: chunks) w in
    reader (on_stdin (frame_of payload) w) = None
    /\ messageQueue w' = messageQueue w
    /\ to_desktop w' = to_desktop w
    /\ decode (Some (readHeader_at (alloc 4) 0)) [] (frame_of payload :: chunks)
       = [Rejected ("Invalid JSON: " ++ err)%string].
Proof.
  intros payload err chunks w Hlen Herr Heof Hr Hb. cbv zeta.
  assert (S : settle JSON_parse Buffer_toString payload
              = Rejected ("Invalid JSON: " ++ err)%string)
    by (unfold settle; rewrite Herr; reflexivity).
  assert (B : breaks (settle JSON_parse Buffer_toString payload) = true)
    by (rewrite S; exact Heof).
  pose proof (decode_frame_then payload chunks Hlen B) as D. rewrite S in D.
  split; [|split; [|split; [|exact D]]].
  - unfold Host.on_stdin. rewrite Hr, Hb. cbn [on_readable app].
    rewrite <- (app_nil_r (frame_of payload)) at 2.
    rewrite read_frame_header by exact Hlen.
    destruct (List.length (frame_of payload)); cbn [Host.pump]; rewrite B; reflexivity.
  - destruct (on_stdin_decode JSON_stringify JSON_parse Buffer_toString
                (frame_of payload :: chunks) w) as (b & r & E).
    rewrite E, Hr, Hb, D. reflexivity.
  - destruct (on_stdin_decode JSON_stringify JSON_parse Buffer_toString
                (frame_of payload :: chunks) w) as (b & r & E).
    rewrite E, Hr, Hb, D. reflexivity.
Qed.

End Bridge.

(** ** Concrete runs *)

#[local] Abbreviation literal_run :=
  (Host.run Literals.JSON_stringify Literals.JSON_parse Literals.Buffer_from
     Literals.Buffer_toString).
#[local] Abbreviation literal_on_stdin :=
  (Host.on_stdin Literals.JSON_stringify Literals.JSON_parse Literals.Buffer_toString).
#[local] Abbreviation literal_decode :=
  (Host.decode Literals.JSON_parse Literals.Buffer_toString).
#[local] Abbreviation literal_frame :=
  (sendMessageToChrome_bytes Literals.JSON_stringify Literals.Buffer_from).


(** A run of X18: with [maxReconnectAttempts: 2] and one socket opened,
    three closes, with other events in between, lead to two more
    sockets and no more. *)
Lemma reconnect_budget_witness_three_sockets :
  let start := connectToDesktopApp (constructor (mkConfig (Some 100) (Some 2))) in
  let events :=
    [ Close; Submit null; Timeout; Error; Close; Timeout; Close; Submit null;
      Stdin [x04; x00] ] in
  exists w',
    literal_run events start = Some w'
    /\ connections start = 1%nat
    /\ reconnects_left start = 2%nat
    /\ (connections w' <= 3)%nat
    /\ connections w' = 3%nat
    /\ reconnects_left w' = 0%nat.
Proof.
  cbv zeta.
  set (start := connectToDesktopApp (constructor (mkConfig (Some 100) (Some 2)))).
  set (events := [ Close; Submit null; Timeout; Error; Close; Timeout; Close; Submit null;
                   Stdin [x04; x00] ]).
  destruct (literal_run events start) as [w'|] eqn:E; [|vm_compute in E; discriminate].
  exists w'. split; [reflexivity|]. split; [reflexivity|]. split; [reflexivity|].
  destruct (reconnects_never_exceed_the_budget
              Literals.JSON_stringify Literals.JSON_parse Literals.Buffer_from
              Literals.Buffer_toString events start w' eq_refl E) as [_ B].
  split; [exact B|].
  vm_compute in E. inversion E; subst w'. split; reflexivity.
Defined.

(** A run of X20: with [maxReconnectAttempts: 2], the first connection and
    two reconnects close without opening; the host is at rest after
    three sockets. *)
Lemma retries_exhaust_witness_two_retries :
  let start := connectToDesktopApp (constructor (mkConfig (Some 100) (Some 2))) in
  exists w',
    literal_run (Close :: List.concat (repeat [Timeout; Close] 2)) start = Some w'
    /\ ws w' = None
    /\ timers w' = []
    /\ reconnectAttempts w' = maxReconnectAttempts w'
    /\ maxReconnectAttempts w' = maxReconnectAttempts start
    /\ connections w' = (connections start + 2)%nat.
Proof.
  cbv zeta.
  exact (retries_exhaust Literals.JSON_stringify Literals.JSON_parse Literals.Buffer_from
           Literals.Buffer_toString 2
           (connectToDesktopApp (constructor (mkConfig (Some 100) (Some 2))))
           ltac:(discriminate) eq_refl eq_refl).
Defined.

(** A run of X19: of three replies the second is not JSON; stdout holds
    the frames of the first and the third. *)
Lemma stdout_witness_two_replies :
  let start := constructor (mkConfig None None) in
  let events :=
    [ Connect; Submit null; Open; Message "true"; Message "{"; Stdin [x04; x00];
      Message "null"; Close ] in
  exists w',
    literal_run events start = Some w'
    /\ stdout w' = literal_frame (Bool true) ++ literal_frame null.
Proof.
  cbv zeta.
  set (start := constructor (mkConfig None None)).
  set (events := [ Connect; Submit null; Open; Message "true"; Message "{"; Stdin [x04; x00];
                   Message "null"; Close ]).
  destruct (literal_run events start) as [w'|] eqn:E; [|vm_compute in E; discriminate].
  exists w'. split; [reflexivity|].
  rewrite (stdout_holds_one_frame_per_reply
             Literals.JSON_stringify Literals.JSON_parse Literals.Buffer_from
             Literals.Buffer_toString events start w' E).
  vm_compute. reflexivity.
Defined.

(** A run of X21: once the first connection has opened and [start()]
    reads stdin, the frames of [true] and [null], cut into four chunks,
    are sent while the socket is open and queued after it closed. *)
Lemma chrome_frames_witness_queued_then_sent :
  let chunks :=
    [ [x04];
      [x00; x00; x00; "t"%byte];
      ["r"%byte; "u"%byte];
      ["e"%byte; x04; x00; x00; x00; "n"%byte; "u"%byte; "l"%byte; "l"%byte] ] in
  let feed w := fold_left (fun w chunk => literal_on_stdin chunk w) chunks w in
  let open :=
    resolve (on_open Literals.JSON_stringify (start (constructor (mkConfig None None)))) in
  let closed := on_close open in
  (ws open = Some OPEN /\ ws closed = None)
  /\ (to_desktop (feed open) = ["true"; "null"]%string /\ messageQueue (feed open) = [])
  /\ (messageQueue (feed closed) = [Bool true; null] /\ to_desktop (feed closed) = []).
Proof.
  cbv zeta. split; [split; reflexivity|]. split.
  - refine (chrome_frames_reach_the_desktop_app
              Literals.JSON_stringify Literals.JSON_parse Literals.Buffer_from
              Literals.Buffer_toString [Bool true; null] _
              (resolve (on_open Literals.JSON_stringify
                          (start (constructor (mkConfig None None)))))
              _ eq_refl eq_refl eq_refl).
    repeat constructor; vm_compute; (reflexivity || discriminate).
  - refine (chrome_frames_reach_the_desktop_app
              Literals.JSON_stringify Literals.JSON_parse Literals.Buffer_from
              Literals.Buffer_toString [Bool true; null] _
              (on_close
                 (resolve (on_open Literals.JSON_stringify
                             (start (constructor (mkConfig None None))))))
              _ eq_refl eq_refl eq_refl).
    repeat constructor; vm_compute; (reflexivity || discriminate).
Defined.

(** A run of X22: at a host whose first connection opened, after four
    zero bytes that arrive in two chunks, the frames of [true] and
    [null] stay in the stream's buffer. *)
Lemma empty_frame_witness_later_frames_unread :
  let chunks := [ [x00; x00]; [x00; x00; x04]; [x00; x00; x00] ++ list_byte_of_string "true";
                  literal_frame null ] in
  let w :=
    resolve (on_open Literals.JSON_stringify (start (constructor (mkConfig None None)))) in
  let w' := fold_left (fun w chunk => literal_on_stdin chunk w) chunks w in
  messageQueue w' = messageQueue w
  /\ to_desktop w' = to_desktop w
  /\ literal_decode (Some (readHeader_at (alloc 4) 0)) [] chunks = []
  /\ buffered w' = literal_frame (Bool true) ++ literal_frame null.
Proof.
  cbv zeta.
  destruct (empty_frame_stalls_the_read_loop
              Literals.JSON_stringify Literals.JSON_parse Literals.Buffer_toString
              [ [x00; x00]; [x00; x00; x04];
                [x00; x00; x00] ++ list_byte_of_string "true"; literal_frame null ]
              (literal_frame (Bool true) ++ literal_frame null)
              (resolve (on_open Literals.JSON_stringify
                          (start (constructor (mkConfig None None)))))
              eq_refl eq_refl eq_refl)
    as (Q & T & D).
  split; [exact Q|]. split; [exact T|]. split; [exact D | vm_compute; reflexivity].
Defined.

(** A run of X23: with a [JSON.parse] whose error text quotes the input, a
    frame holding the text [EOF] ends the loop; the frame of [true] that
    follows is not read. *)
Lemma EOF_witness_loop_ended :
  let JSON_parse text :=
    match Literals.JSON_parse text with
    | inl err => inl (err ++ " in " ++ text)%string
    | inr message => inr message
    end in
  let payload := list_byte_of_string "EOF" in
  let chunks := [literal_frame (Bool true)] in
  let w :=
    resolve (on_open Literals.JSON_stringify (start (constructor (mkConfig None None)))) in
  let feed chunks :=
    fold_left (fun w chunk =>
                 Host.on_stdin Literals.JSON_stringify JSON_parse Literals.Buffer_toString
                   chunk w) chunks w in
  reader (Host.on_stdin Literals.JSON_stringify JSON_parse Literals.Buffer_toString
            (frame_of payload) w) = None
  /\ messageQueue (feed (frame_of payload :: chunks)) = messageQueue w
  /\ to_desktop (feed (frame_of payload :: chunks)) = to_desktop w
  /\ exists err,
       includes "EOF" err = true
       /\ Host.decode JSON_parse Literals.Buffer_toString (Some (readHeader_at (alloc 4) 0)) []
            (frame_of payload :: chunks)
          = [Rejected ("Invalid JSON: " ++ err)%string].
Proof.
  cbv zeta.
  destruct (frame_rejected_with_EOF_ends_the_read_loop
              Literals.JSON_stringify
              (fun text =>
                 match Literals.JSON_parse text with
                 | inl err => inl (err ++ " in " ++ text)%string
                 | inr message => inr message
                 end)
              Literals.Buffer_toString
              (list_byte_of_string "EOF") "Unexpected token in EOF"
              [literal_frame (Bool true)]
              (resolve (on_open Literals.JSON_stringify
                          (start (constructor (mkConfig None None)))))
              ltac:(split; [reflexivity | discriminate]) eq_refl eq_refl eq_refl eq_refl)
    as (R & Q & T & D).
  split; [exact R|]. split; [exact Q|]. split; [exact T|].
  exists "Unexpected token in EOF"%string. split; [reflexivity | exact D].
Defined.

End HostLaws.
